(** * video_processor: segmentation engine and resumable batch log

    A shallow embedding of [core/video.py], [utils/csv_logger.py] and
    [core/processor.py], followed by the properties of the segment builder,
    the segment merger, the clip naming scheme and the processing log.

    Conventions of the embedding.
    - Python integers are [Z]; counters that only grow from zero are [nat].
    - Python floats ([fps], [buffer_seconds], clip times) are exact rationals
      [Q]; [int(x)] is truncation toward zero.  Rounding of IEEE doubles is
      not part of this model; module [F64] holds the same lines in binary64,
      on which the concrete cases of the statements are evaluated again.
    - Python [str] is [string]; a character is a code point below 256.
    - The frame decoder, the motion score and the object detector are
      external: a decoded frame is represented by the two booleans that the
      loop of [process_video] holds in [motion_detected] and
      [objects_detected] when it reaches the segment tracking block.
    - The CSV file of the processing log is its table of rows; a missing
      file is [None].
    - The worker pool of [process_subfolder] is run one task at a time, in
      submission order. *)

From Stdlib Require Import ZArith QArith Qround Bool List String Ascii Lia.
From Stdlib Require Import DecimalString.
From Stdlib Require Import PrimFloat SpecFloat FloatOps.
From stdpp Require Import base list gmap strings.

Open Scope Z_scope.

(** ** Python built-ins used by the sources *)

Module Py.

(** [int(x)] of a float: truncation toward zero. *)
Definition int (x : Q) : Z := Z.quot (Qnum x) (Z.pos (Qden x)).

Definition Qltb (a b : Q) : bool := negb (Qle_bool b a).

(** Truth value of a [str]: non-empty. *)
Definition truthy (s : string) : bool :=
  match s with
  | EmptyString => false
  | String _ _ => true
  end.

(** ["%d" % n] *)
Definition str_Z (n : Z) : string := NilEmpty.string_of_int (Z.to_int n).

Fixpoint zeros (k : nat) : string :=
  match k with
  | O => EmptyString
  | S k' => String "0" (zeros k')
  end.

(** ["%0wd" % n] for [0 <= n]: left padding with zeros up to width [w]. *)
Definition zfill (w : nat) (n : Z) : string :=
  let s := str_Z n in
  (zeros (w - String.length s) +:+ s)%string.

(** [s.replace(c, '')] for a one-character [c]. *)
Fixpoint remove_char (c : ascii) (s : string) : string :=
  match s with
  | EmptyString => EmptyString
  | String a s' =>
      if Ascii.eqb a c then remove_char c s' else String a (remove_char c s')
  end.

(** [str(timedelta(seconds=n))] for an integer [n]: [timedelta] normalises
    to [days] and [0 <= seconds < 86400]. *)
Definition timedelta_str (n : Z) : string :=
  let days := n / 86400 in
  let secs := n mod 86400 in
  let mm := secs / 60 in
  let ss := secs mod 60 in
  let hh := mm / 60 in
  let mm := mm mod 60 in
  let s := (str_Z hh +:+ ":" +:+ zfill 2 mm +:+ ":" +:+ zfill 2 ss)%string in
  if days =? 0 then s
  else (str_Z days +:+ " day" +:+ (if (Z.abs days =? 1)%Z then EmptyString else "s")
          +:+ ", " +:+ s)%string.

(** [os.path.join(a, b)] on POSIX, for a relative [b]. *)
Fixpoint ends_with_slash (s : string) : bool :=
  match s with
  | EmptyString => false
  | String c EmptyString => Ascii.eqb c "/"
  | String _ s' => ends_with_slash s'
  end.

Definition path_join (a b : string) : string :=
  match a with
  | EmptyString => b
  | _ => if ends_with_slash a then (a +:+ b)%string else (a +:+ "/" +:+ b)%string
  end.

(** [os.path.basename(p)] on POSIX: what follows the last slash. *)
Fixpoint basename_acc (acc : string) (p : string) : string :=
  match p with
  | EmptyString => acc
  | String c p' =>
      if Ascii.eqb c "/" then basename_acc EmptyString p'
      else basename_acc (acc +:+ String c EmptyString)%string p'
  end.

Definition basename (p : string) : string := basename_acc EmptyString p.

(** [json.dumps(l)] for a list of strings (default [ensure_ascii]). *)
Definition hex_digit (n : N) : ascii :=
  if (n <? 10)%N then ascii_of_N (48 + n) else ascii_of_N (87 + n).

Definition dquote : ascii := ascii_of_N 34.

Definition json_escape_char (c : ascii) : string :=
  let n := N_of_ascii c in
  if (n =? 34)%N then String "\" (String dquote EmptyString)
  else if Ascii.eqb c "\" then String "\" (String "\" EmptyString)
  else if (n =? 10)%N then String "\" (String "n" EmptyString)
  else if (n =? 13)%N then String "\" (String "r" EmptyString)
  else if (n =? 9)%N then String "\" (String "t" EmptyString)
  else if (n =? 8)%N then String "\" (String "b" EmptyString)
  else if (n =? 12)%N then String "\" (String "f" EmptyString)
  else if ((n <? 32) || (126 <? n))%N then
    String "\" (String "u" (String "0" (String "0"
      (String (hex_digit (n / 16)) (String (hex_digit (n mod 16)) EmptyString)))))
  else String c EmptyString.

Fixpoint json_escape (s : string) : string :=
  match s with
  | EmptyString => EmptyString
  | String c s' => (json_escape_char c +:+ json_escape s')%string
  end.

Definition json_string (s : string) : string :=
  (String dquote (json_escape s) +:+ String dquote EmptyString)%string.

Fixpoint json_items (l : list string) : string :=
  match l with
  | [] => EmptyString
  | [s] => json_string s
  | s :: l' => (json_string s +:+ ", " +:+ json_items l')%string
  end.

Definition json_dumps (l : list string) : string :=
  ("[" +:+ json_items l +:+ "]")%string.

(** [c.isspace()] for a code point below 256. *)
Definition isspace (c : ascii) : bool :=
  let n := N_of_ascii c in
  ((9 <=? n) && (n <=? 13) || (28 <=? n) && (n <=? 32) || (n =? 133) || (n =? 160))%N.

(** Truth value of [s.strip()]: some character is not white space. *)
Fixpoint strip_truthy (s : string) : bool :=
  match s with
  | EmptyString => false
  | String c s' => negb (isspace c) || strip_truthy s'
  end.

(** [s.lower()] on code points below 256, and [s.endswith(suffix)]. *)
Definition lower_char (c : ascii) : ascii :=
  let n := N_of_ascii c in
  if ((65 <=? n) && (n <=? 90) || (192 <=? n) && (n <=? 222) && negb (n =? 215))%N
  then ascii_of_N (n + 32) else c.

Fixpoint lower (s : string) : string :=
  match s with
  | EmptyString => EmptyString
  | String c s' => String (lower_char c) (lower s')
  end.

Definition endswith (s suffix : string) : bool :=
  let n := String.length s in
  let k := String.length suffix in
  (k <=? n)%nat && String.eqb (String.substring (n - k) k s) suffix.

(** [l.sort()] on a list of [str]: ascending by code points. *)
Fixpoint insert_str (x : string) (l : list string) : list string :=
  match l with
  | [] => [x]
  | y :: l' => if String.leb x y then x :: l else y :: insert_str x l'
  end.

Fixpoint sort_str (l : list string) : list string :=
  match l with
  | [] => []
  | x :: l' => insert_str x (sort_str l')
  end.

End Py.

(** ** The float lines in binary64

    Python floats are IEEE 754 doubles; these are the kernel's.  [of_Z] is
    the conversion of an [int] operand, [int] is [int(x)] on a finite [x]
    (on an infinity or a NaN Python raises; the value here is not used). *)

Module F64.

Definition of_Z (z : Z) : float := SF2Prim (binary_normalize 53 1024 z 0 false).

Definition int (x : float) : Z :=
  match Prim2SF x with
  | S754_finite s m e =>
      let a := if 0 <=? e then Z.pos m * 2 ^ e else Z.pos m / 2 ^ (- e) in
      if s then - a else a
  | _ => 0
  end.

(** Lines 74-81 of [core/video.py]. *)
Definition adaptive_skip_frames (adaptive_skip : bool) (fps : float) (skip_frames : Z) : Z :=
  if adaptive_skip then
    if PrimFloat.ltb (of_Z 30) fps then
      int (PrimFloat.mul (of_Z skip_frames) (PrimFloat.div fps (of_Z 30)))
    else if PrimFloat.ltb fps (of_Z 15) then
      Z.max 1 (int (PrimFloat.mul (of_Z skip_frames) (PrimFloat.div fps (of_Z 30))))
    else skip_frames
  else skip_frames.

(** Line 84. *)
Definition buffer_frames (buffer_seconds fps : float) : Z :=
  int (PrimFloat.mul buffer_seconds fps).

(** Lines 289-294: [int(frame / fps)]. *)
Definition seconds (frame : Z) (fps : float) : Z := int (PrimFloat.div (of_Z frame) fps).

End F64.

(** Exceptions: the built-in ones that the modelled code raises itself, and
    whatever an external collaborator raises, carried by its [str(e)]. *)
Inductive exn : Type :=
| ZeroDivisionError (msg : string)
| FileNotFoundError (msg : string)
| Exception (msg : string).

Definition str_exn (e : exn) : string :=
  match e with
  | ZeroDivisionError msg => msg
  | FileNotFoundError msg => msg
  | Exception msg => msg
  end.

(** ** core/video.py *)

Module Video.

Record Segment : Type := mkSegment {
  start : Z;
  end_ : Z;
  motion : bool;
  objects : bool
}.

(** One decoded frame, as the analysis sees it: the value of
    [motion_detected] after the motion block, and whether the detector, when
    it is run on this frame, returns a box that passes the class, confidence
    and area filters. *)
Record Frame : Type := mkFrame {
  motion_detected : bool;
  detection : bool
}.

(** What [cv2.VideoCapture] reports for an opened file, and the frames that
    [cap.read()] decodes before it first fails. *)
Record Capture : Type := mkCapture {
  fps : Q;
  total_frames : Z;
  frames : list Frame
}.

Record Clip : Type := mkClip {
  filename : string;
  start_time : Q;
  end_time : Q;
  duration : Q;
  clip_objects : Z;
  clip_motion : Z
}.

Inductive Event : Type :=
| Progress (current_frame_idx total_frames : Z) (detection_count segment_count : nat)
| ProgressDone (detection_count segment_count : nat)
| WriteVideofile (output_path : string) (start_time end_time : Q) (ok : bool).

(** Lines 74-81: the effective stride. *)
Definition adaptive_skip_frames (adaptive_skip : bool) (fps : Q) (skip_frames : Z) : Z :=
  if adaptive_skip then
    if Py.Qltb 30 fps then Py.int (inject_Z skip_frames * (fps / 30))
    else if Py.Qltb fps 15 then Z.max 1 (Py.int (inject_Z skip_frames * (fps / 30)))
    else skip_frames
  else skip_frames.

(** Line 84. *)
Definition buffer_frames (buffer_seconds fps : Q) : Z := Py.int (buffer_seconds * fps).

(** Line 108: frame [current_frame_idx] is analysed, not grabbed and skipped. *)
Definition analysed (skip_frames current_frame_idx : Z) : bool :=
  current_frame_idx mod skip_frames =? 0.

(** Lines 163-201: the detector runs on every third analysed frame only. *)
Definition objects_detected (skip_frames current_frame_idx : Z) (f : Frame) : bool :=
  (current_frame_idx mod (skip_frames * 3) =? 0) && detection f.

(** The segment builder: the closed segments, the open one, if any, and the
    counter that the progress callback reports. *)
Record Tracking : Type := mkTracking {
  segments : list Segment;
  current_segment : option Segment;
  segment_count : nat
}.

Definition idle : Tracking := mkTracking [] None 0.

(** Lines 204-230: the segment tracking block for one analysed frame. *)
Definition track (buffer_frames current_frame_idx : Z) (motion_detected objects_detected : bool)
    (t : Tracking) : Tracking :=
  if motion_detected || objects_detected then
    match current_segment t with
    | None =>
        let segment_start := Z.max 0 (current_frame_idx - buffer_frames) in
        mkTracking (segments t)
          (Some (mkSegment segment_start current_frame_idx motion_detected objects_detected))
          (segment_count t)
    | Some seg =>
        mkTracking (segments t)
          (Some (mkSegment (start seg) current_frame_idx
                   (motion seg || motion_detected) (objects seg || objects_detected)))
          (segment_count t)
    end
  else
    match current_segment t with
    | Some seg =>
        if current_frame_idx - end_ seg >? buffer_frames then
          mkTracking
            (segments t ++ [mkSegment (start seg) (end_ seg + buffer_frames) (motion seg) (objects seg)])
            None
            (S (segment_count t))
        else t
    | None => t
    end.

(** One turn of the [while] loop on a decoded frame, for the builder alone. *)
Definition track_frame (skip_frames buffer_frames current_frame_idx : Z) (f : Frame)
    (t : Tracking) : Tracking :=
  if analysed skip_frames current_frame_idx then
    track buffer_frames current_frame_idx (motion_detected f)
      (objects_detected skip_frames current_frame_idx f) t
  else t.

(** Lines 106-233 for the builder: the frames from [current_frame_idx] on.
    (With a stride of zero line 108 raises on the first turn: see
    [process_video].) *)
Fixpoint track_frames (skip_frames buffer_frames current_frame_idx : Z) (fs : list Frame)
    (t : Tracking) : Tracking :=
  match fs with
  | [] => t
  | f :: fs' =>
      track_frames skip_frames buffer_frames (current_frame_idx + 1) fs'
        (track_frame skip_frames buffer_frames current_frame_idx f t)
  end.

(** Lines 244-251: the segment still open at the end of the stream. *)
Definition close_final (buffer_frames total_frames : Z) (t : Tracking) : Tracking :=
  match current_segment t with
  | Some seg =>
      mkTracking
        (segments t ++
           [mkSegment (start seg) (Z.min (end_ seg + buffer_frames) (total_frames - 1))
              (motion seg) (objects seg)])
        (Some (mkSegment (start seg) (Z.min (end_ seg + buffer_frames) (total_frames - 1))
                 (motion seg) (objects seg)))
        (S (segment_count t))
  | None => t
  end.

(** Line 257: [segments.sort(key=lambda x: x['start'])], a stable sort. *)
Fixpoint insert_by_start (s : Segment) (l : list Segment) : list Segment :=
  match l with
  | [] => [s]
  | x :: l' => if start s <=? start x then s :: l else x :: insert_by_start s l'
  end.

Fixpoint sort_by_start (l : list Segment) : list Segment :=
  match l with
  | [] => []
  | s :: l' => insert_by_start s (sort_by_start l')
  end.

(** Lines 268-271: [last_segment] after it has taken [segment] in. *)
Definition absorb (last_segment segment : Segment) : Segment :=
  mkSegment (start last_segment)
    (Z.max (end_ last_segment) (end_ segment))
    (motion last_segment || motion segment)
    (objects last_segment || objects segment).

(** Lines 260-274: one turn of the merge loop; [merged_segments[-1]] is the
    last element of the accumulator, updated in place. *)
Definition merge_step (merged_segments : list Segment) (segment : Segment) : list Segment :=
  match last merged_segments with
  | None => merged_segments ++ [segment]
  | Some last_segment =>
      if start segment <=? end_ last_segment then
        removelast merged_segments ++ [absorb last_segment segment]
      else merged_segments ++ [segment]
  end.

(** Lines 257-274. *)
Definition merge_segments (segments : list Segment) : list Segment :=
  fold_left merge_step (sort_by_start segments) [].

(** The closed segments of a video, and the merged ones. *)
Definition closed_segments (skip_frames buffer_frames total_frames : Z) (fs : list Frame)
    : list Segment :=
  segments (close_final buffer_frames total_frames (track_frames skip_frames buffer_frames 0 fs idle)).

Definition merged_segments (skip_frames buffer_frames total_frames : Z) (fs : list Frame)
    : list Segment :=
  merge_segments (closed_segments skip_frames buffer_frames total_frames fs).

(** Lines 292-305: the name of the clip of segment number [i] (from zero). *)
Definition time_str (t : Q) : string :=
  Py.remove_char ":" (Py.timedelta_str (Py.int t)).

Definition segment_name (video_name : string) (i : nat) (fps : Q) (segment : Segment) : string :=
  let start_time := (inject_Z (start segment) / fps)%Q in
  let end_time := (inject_Z (end_ segment) / fps)%Q in
  (video_name +:+ "_seg" +:+ Py.zfill 3 (Z.of_nat i + 1) +:+ "_" +:+ time_str start_time
     +:+ "_" +:+ time_str end_time
     +:+ (if objects segment then "_obj" else EmptyString)
     +:+ (if motion segment then "_mot" else EmptyString))%string.

Definition clip_file_name (video_name : string) (i : nat) (fps : Q) (segment : Segment) : string :=
  (segment_name video_name i fps segment +:+ ".mp4")%string.

(** Lines 279-336: one turn of the extraction loop.  [cut] is the media
    library writing the sub-clip; when it raises, the segment is logged and
    skipped.  A zero [fps] makes the first division raise, inside the same
    [try]. *)
Definition extract_segment (cut : string -> Q -> Q -> bool)
    (video_name output_dir : string) (fps : Q) (i : nat) (segment : Segment)
    : list Event * option Clip :=
  if Qeq_bool fps 0 then ([], None)
  else
    let segment_duration := (inject_Z (end_ segment - start segment) / fps)%Q in
    if Py.Qltb segment_duration 1 then ([], None)
    else
      let start_time := (inject_Z (start segment) / fps)%Q in
      let end_time := (inject_Z (end_ segment) / fps)%Q in
      let output_path := Py.path_join output_dir (clip_file_name video_name i fps segment) in
      if cut output_path start_time end_time then
        ([WriteVideofile output_path start_time end_time true],
         Some (mkClip output_path start_time end_time segment_duration
                 (if objects segment then 1 else 0) (if motion segment then 1 else 0)))
      else ([WriteVideofile output_path start_time end_time false], None).

Fixpoint extract_from (cut : string -> Q -> Q -> bool)
    (video_name output_dir : string) (fps : Q) (i : nat) (merged : list Segment)
    : list Event * list Clip :=
  match merged with
  | [] => ([], [])
  | segment :: rest =>
      let '(ev, c) := extract_segment cut video_name output_dir fps i segment in
      let '(evs, cs) := extract_from cut video_name output_dir fps (S i) rest in
      (ev ++ evs, match c with Some clip => clip :: cs | None => cs end)
  end.

(** The keyword arguments of [process_video] that the segmentation reads. *)
Record Config : Type := mkConfig {
  buffer_seconds : Q;
  skip_frames : Z;
  adaptive_skip : bool
}.

(** Lines 106-233 with the progress callback and the detection counter. *)
Record Loop : Type := mkLoop {
  tracking : Tracking;
  detection_count : nat;
  trace : list Event
}.

Definition loop_frame (has_callback : bool) (skip_frames buffer_frames total_frames : Z)
    (current_frame_idx : Z) (f : Frame) (st : Loop) : Loop :=
  if analysed skip_frames current_frame_idx then
    let trace' :=
      if has_callback
      then trace st ++ [Progress current_frame_idx total_frames (detection_count st)
                          (segment_count (tracking st))]
      else trace st in
    let objects := objects_detected skip_frames current_frame_idx f in
    mkLoop (track buffer_frames current_frame_idx (motion_detected f) objects (tracking st))
      (if objects then S (detection_count st) else detection_count st)
      trace'
  else st.

Fixpoint loop_frames (has_callback : bool) (skip_frames buffer_frames total_frames : Z)
    (current_frame_idx : Z) (fs : list Frame) (st : Loop) : Loop :=
  match fs with
  | [] => st
  | f :: fs' =>
      loop_frames has_callback skip_frames buffer_frames total_frames (current_frame_idx + 1) fs'
        (loop_frame has_callback skip_frames buffer_frames total_frames current_frame_idx f st)
  end.

(** [process_video]: [cap] is [None] when the file cannot be opened.  The
    result is the trace of callbacks and writes, and the returned clips or
    the exception that escapes: the stride is a divisor on line 108 and the
    frame count on line 120, both reached on the first decoded frame.  What
    the decoder, the detector or the callback may raise is not in this
    function; [Processor.process_single_video] takes any outcome. *)
Definition process_video (cap : option Capture) (video_name output_dir : string)
    (config : Config) (has_callback : bool) (cut : string -> Q -> Q -> bool)
    : list Event * (exn + list Clip) :=
  match cap with
  | None => ([], inr [])
  | Some v =>
      let skip := adaptive_skip_frames (adaptive_skip config) (fps v) (skip_frames config) in
      let buffer := buffer_frames (buffer_seconds config) (fps v) in
      if skip =? 0 then ([], inl (ZeroDivisionError "integer modulo by zero"))
      else if negb (Nat.eqb (length (frames v)) 0) && (total_frames v =? 0) then
        ([], inl (ZeroDivisionError "division by zero"))
      else
        let st := loop_frames has_callback skip buffer (total_frames v) 0 (frames v)
                    (mkLoop idle 0 []) in
        let final := close_final buffer (total_frames v) (tracking st) in
        let '(evs, clips) :=
          extract_from cut video_name output_dir (fps v) 0 (merge_segments (segments final)) in
        (trace st ++ evs ++
           (if has_callback then [ProgressDone (detection_count st) (segment_count final)] else []),
         inr clips)
  end.

End Video.

(** ** utils/csv_logger.py *)

Module CsvLogger.

(** One row of [processing_log.csv], under the header
    [filename, processed_datetime, objects, motion, segment_files]. *)
Record Row : Type := mkRow {
  filename : string;
  processed_datetime : string;
  objects : string;
  motion : string;
  segment_files : string
}.

(** The file: [None] when it does not exist, else its rows in order. *)
Definition LogFile : Type := option (list Row).

(** The value under ['segment_files'] in the dictionary that
    [initialize_processing_log] returns: the cell as read, or the list that
    [json.loads] made of it. *)
Inductive SegmentFiles : Type :=
| Cell (s : string)
| Files (l : list string).

Record Entry : Type := mkEntry {
  entry_filename : string;
  entry_processed_datetime : string;
  entry_objects : string;
  entry_motion : string;
  entry_segment_files : SegmentFiles
}.

(** The [data] argument of [update_processing_log]: a dictionary over the
    four keys of its docstring; [segment_files] is a list or a string. *)
Record Data : Type := mkData {
  data_processed_datetime : option string;
  data_objects : option string;
  data_motion : option string;
  data_segment_files : option SegmentFiles
}.

Definition empty_row (filename : string) : Row :=
  mkRow filename EmptyString EmptyString EmptyString EmptyString.

(** The record of a file in the table: the last row under its name, which is
    the one that the reading loop of lines 35-37 leaves in the dictionary. *)
Fixpoint record_of (rows : list Row) (file : string) : option Row :=
  match rows with
  | [] => None
  | row :: rows' =>
      match record_of rows' file with
      | Some r => Some r
      | None => if String.eqb (filename row) file then Some row else None
      end
  end.

Section Initialize.

(** [json.loads] on a cell: [None] stands for [JSONDecodeError]. *)
Variable json_loads : string -> option (list string).

(** Lines 35-43: the dictionary entry of a row read from the file. *)
Definition entry_of_row (row : Row) : Entry :=
  mkEntry (filename row) (processed_datetime row) (objects row) (motion row)
    (if Py.truthy (segment_files row) && Py.strip_truthy (segment_files row) then
       match json_loads (segment_files row) with
       | Some l => Files l
       | None => Files []
       end
     else Cell (segment_files row)).

Definition read_rows (rows : list Row) : gmap string Entry :=
  fold_left (fun processed_files row => <[filename row := entry_of_row row]> processed_files)
    rows ∅.

(** Lines 59-71: one video file that may be new to the log. *)
Definition add_new_file (acc : gmap string Entry * list Row) (video_path : string)
    : gmap string Entry * list Row :=
  let '(processed_files, rows) := acc in
  let filename := Py.basename video_path in
  match processed_files !! filename with
  | Some _ => acc
  | None =>
      (<[filename := mkEntry filename EmptyString EmptyString EmptyString (Cell EmptyString)]>
         processed_files,
       rows ++ [empty_row filename])
  end.

(** [initialize_processing_log]: the returned dictionary and the file as it
    is left. *)
Definition initialize_processing_log (log : LogFile) (video_files : list string)
    : gmap string Entry * list Row :=
  let rows := match log with Some rows => rows | None => [] end in
  fold_left add_new_file video_files (read_rows rows, rows).

End Initialize.

(** Lines 92-94. *)
Definition dump_segment_files (v : SegmentFiles) : string :=
  match v with
  | Files l => Py.json_dumps l
  | Cell s => s
  end.

(** Lines 107-108 and 125-126: [row[key] = value] for every item of [data]. *)
Definition apply_data (data : Data) (row : Row) : Row :=
  mkRow (filename row)
    (match data_processed_datetime data with Some v => v | None => processed_datetime row end)
    (match data_objects data with Some v => v | None => objects row end)
    (match data_motion data with Some v => v | None => motion row end)
    (match data_segment_files data with
     | Some v => dump_segment_files v
     | None => segment_files row
     end).

Definition update_row (file : string) (data : Data) (row : Row) : Row :=
  if String.eqb (filename row) file then apply_data data row else row.

(** [update_processing_log]: the file after [os.replace], or the exception
    of [open] when there is no log to read. *)
Definition update_processing_log (log : LogFile) (file : string) (data : Data)
    : exn + list Row :=
  match log with
  | None => inl (FileNotFoundError "processing_log.csv")
  | Some rows =>
      let temp := map (update_row file data) rows in
      let updated := existsb (fun row => String.eqb (filename row) file) rows in
      inr (if updated then temp else temp ++ [apply_data data (empty_row file)])
  end.

End CsvLogger.

(** ** core/processor.py *)

Module Processor.

Import CsvLogger.

(** What a file task hands back: [(i, video_name, clips, error)]. *)
Record TaskResult : Type := mkTaskResult {
  index : nat;
  video_name : string;
  clips : list Video.Clip;
  error : option string
}.

(** The transient aggregate of one run. *)
Record BatchRun : Type := mkBatchRun {
  completed_count : nat;
  all_clips : list Video.Clip;
  errors : list (string * string)
}.

(** Lines 187-208: the record of a file that went through. *)
Definition success_data (now : string) (clips : list Video.Clip) : Data :=
  let total_objects := fold_left (fun n c => n + Video.clip_objects c) clips 0 in
  let total_motion := fold_left (fun n c => n + Video.clip_motion c) clips 0 in
  mkData (Some now) (Some (Py.str_Z total_objects)) (Some (Py.str_Z total_motion))
    (Some (Files (map (fun c => Py.basename (Video.filename c)) clips))).

(** Lines 246-251: the record of a file that failed. *)
Definition failure_data : Data :=
  mkData (Some EmptyString) (Some "0"%string) (Some "0"%string) (Some (Files [])).

(** Lines 227-254: the [except Exception] clause. *)
Definition on_error (log : LogFile) (i : nat) (video_name : string) (e : exn)
    : LogFile * (exn + TaskResult) :=
  match update_processing_log log video_name failure_data with
  | inr rows => (Some rows, inr (mkTaskResult i video_name [] (Some (str_exn e))))
  | inl e' => (log, inl e')
  end.

(** [process_single_video]: [outcome] is what [process_video] did for this
    file, its clips or the exception it let escape; [now] is the time stamp
    taken on success. *)
Definition process_single_video (log : LogFile) (now : string) (i : nat) (video_path : string)
    (outcome : exn + list Video.Clip) : LogFile * (exn + TaskResult) :=
  let video_name := Py.basename video_path in
  match outcome with
  | inr clips =>
      match update_processing_log log video_name (success_data now clips) with
      | inr rows => (Some rows, inr (mkTaskResult i video_name clips None))
      | inl e => on_error log i video_name e
      end
  | inl e => on_error log i video_name e
  end.

(** Lines 66-72: the files that are not done yet. *)
Definition is_done (processed_files_log : gmap string Entry) (video_path : string) : bool :=
  match processed_files_log !! Py.basename video_path with
  | Some entry => Py.truthy (entry_processed_datetime entry)
  | None => false
  end.

Definition files_to_process (processed_files_log : gmap string Entry) (video_files : list string)
    : list string :=
  filter (fun video_path => is_done processed_files_log video_path = false) video_files.

(** Lines 283-305: one completed task folded into the run. *)
Definition aggregate (run : BatchRun) (r : TaskResult) : BatchRun :=
  mkBatchRun (S (completed_count run)) (all_clips run ++ clips r)
    (match error r with
     | Some msg => if Py.truthy msg then errors run ++ [(video_name r, msg)] else errors run
     | None => errors run
     end).

(** Lines 269-305: the tasks, one after the other; an exception that leaves
    a task is raised again by [future.result()]. *)
Fixpoint run_tasks (pipeline : string -> exn + list Video.Clip) (now : string -> string)
    (i : nat) (video_files : list string) (log : LogFile) (run : BatchRun)
    : LogFile * (exn + BatchRun) :=
  match video_files with
  | [] => (log, inr run)
  | video_path :: rest =>
      match process_single_video log (now video_path) i video_path (pipeline video_path) with
      | (log', inr r) => run_tasks pipeline now (S i) rest log' (aggregate run r)
      | (log', inl e) => (log', inl e)
      end
  end.

Section Subfolder.

Variable json_loads : string -> option (list string).

(** Lines 55-56. *)
Definition list_videos (subfolder_path : string) (listing : list string) : list string :=
  map (Py.path_join subfolder_path)
    (filter (fun f => Py.endswith (Py.lower f) ".mp4" = true) listing).

(** Lines 62-79: the work list of a run over the files [video_files]. *)
Definition work_list (log : LogFile) (video_files : list string) : list string :=
  files_to_process (fst (initialize_processing_log json_loads log video_files)) video_files.

(** [process_subfolder], without a cancellation request: the log file as it
    is left, and the aggregate of the run or the exception that ends it. *)
Definition process_subfolder (log : LogFile) (subfolder_path : string) (listing : list string)
    (pipeline : string -> exn + list Video.Clip) (now : string -> string)
    : LogFile * (exn + BatchRun) :=
  let video_files := list_videos subfolder_path listing in
  match video_files with
  | [] => (log, inr (mkBatchRun 0 [] []))
  | _ :: _ =>
      let '(processed_files_log, rows) := initialize_processing_log json_loads log video_files in
      match files_to_process processed_files_log video_files with
      | [] => (Some rows, inr (mkBatchRun 0 [] []))
      | todo => run_tasks pipeline now 0 (Py.sort_str todo) (Some rows) (mkBatchRun 0 [] [])
      end
  end.

End Subfolder.

End Processor.

(** ** Vocabulary for the statements *)

(** Frame streams: which frames the builder sees as activity. *)
Module Stream.

Import Video.

(** The condition of line 204 for an analysed frame. *)
Definition active (skip_frames current_frame_idx : Z) (f : Frame) : bool :=
  motion_detected f || objects_detected skip_frames current_frame_idx f.

(** Every analysed frame of [fs], the frames from index [idx] on, is
    without activity. *)
Fixpoint all_idle (skip_frames idx : Z) (fs : list Frame) : bool :=
  match fs with
  | [] => true
  | f :: fs' =>
      (negb (analysed skip_frames idx) || negb (active skip_frames idx f))
      && all_idle skip_frames (idx + 1) fs'
  end.

(** Every analysed frame of [fs] shows activity. *)
Fixpoint all_active (skip_frames idx : Z) (fs : list Frame) : bool :=
  match fs with
  | [] => true
  | f :: fs' =>
      (negb (analysed skip_frames idx) || active skip_frames idx f)
      && all_active skip_frames (idx + 1) fs'
  end.

(** A burst of activity: a non-empty run of frames that begins and ends on
    an analysed frame and whose analysed frames all show activity. *)
Definition burst (skip_frames idx : Z) (fs : list Frame) : bool :=
  negb (Nat.eqb (length fs) 0)
  && analysed skip_frames idx
  && analysed skip_frames (idx + Z.of_nat (length fs) - 1)
  && all_active skip_frames idx fs.

(** A frame without motion or detection, and a frame with motion. *)
Definition quiet : Frame := mkFrame false false.
Definition moving : Frame := mkFrame true false.

(** Two bursts [b1] and [b2] with the gap [gap] between them, in a stream
    that is quiet before and after. *)
Definition two_bursts (pre b1 gap b2 post : list Frame) : list Frame :=
  pre ++ b1 ++ gap ++ b2 ++ post.

Definition two_bursts_ok (skip_frames : Z) (pre b1 gap b2 post : list Frame) : bool :=
  let i1 := Z.of_nat (length pre) in
  let i2 := i1 + Z.of_nat (length b1) in
  let i3 := i2 + Z.of_nat (length gap) in
  let i4 := i3 + Z.of_nat (length b2) in
  all_idle skip_frames 0 pre
  && burst skip_frames i1 b1
  && all_idle skip_frames i2 gap
  && burst skip_frames i3 b2
  && all_idle skip_frames i4 post.

(** The builder after a quiet frame beyond the buffer of the open segment
    [seg] (lines 221-230). *)
Definition closed_by_gap (buffer_frames : Z) (t : Tracking) (seg : Segment) : Tracking :=
  mkTracking
    (segments t ++
       [mkSegment (start seg) (end_ seg + buffer_frames) (motion seg) (objects seg)])
    None (S (segment_count t)).

End Stream.

(** Segment lists: the order the sort leaves, and the shape the merge
    leaves. *)
Module Segments.

Import Video.

(** The merge loop as a recursion over the sorted list, the last accepted
    segment held apart from the ones accepted before it. *)
Fixpoint coalesce (last_segment : Segment) (rest : list Segment) : list Segment :=
  match rest with
  | [] => [last_segment]
  | segment :: rest' =>
      if start segment <=? end_ last_segment then coalesce (absorb last_segment segment) rest'
      else last_segment :: coalesce segment rest'
  end.

Fixpoint ascending (l : list Segment) : Prop :=
  match l with
  | x :: (y :: _) as l' => start x <= start y /\ ascending l'
  | _ => True
  end.

Fixpoint disjoint (l : list Segment) : Prop :=
  match l with
  | x :: (y :: _) as l' => end_ x < start y /\ disjoint l'
  | _ => True
  end.

(** [m] covers [s]: its range holds the range of [s], and it carries the
    flags of [s]. *)
Definition covers (m s : Segment) : Prop :=
  start m <= start s /\ end_ s <= end_ m
  /\ (motion s = true -> motion m = true)
  /\ (objects s = true -> objects m = true).

End Segments.

(** The invariant of the data model. *)
Definition seg_ok (s : Video.Segment) : Prop := Video.start s <= Video.end_ s.

(** The builder before frame [idx] is decoded: closed segments satisfy
    the invariant, and the open one ends on a frame already seen. *)
Definition builder_inv (idx : Z) (t : Video.Tracking) : Prop :=
  Forall seg_ok (Video.segments t)
  /\ forall seg, Video.current_segment t = Some seg ->
       seg_ok seg /\ Video.end_ seg < idx.


(** The time code that [time_str] yields for a time of day: the hours as
    they are, then minutes and seconds on two digits each. *)
Definition hmmss (t : Z) : string :=
  (Py.str_Z (t / 3600) +:+ Py.zfill 2 ((t / 60) mod 60) +:+ Py.zfill 2 (t mod 60))%string.

(** ** The statements of the specification, in its own words

    These follow the text of the specification, not the sources; they are
    what the sources are compared with. *)

Module Spec.

(** Frame sampler: [S' = S * (fps / 30)] above 30 fps,
    [S' = max(1, S * (fps / 30))] below 15 fps, [S' = S] otherwise. *)
Definition effective_stride (fps : Q) (S : Z) : Q :=
  let scaled := (inject_Z S * (fps / 30))%Q in
  if Py.Qltb 30 fps then scaled
  else if Py.Qltb fps 15 then (if Py.Qltb scaled 1 then 1%Q else scaled)
  else inject_Z S.

(** A time stamp as six zero-padded digits, [HHMMSS]. *)
Definition hhmmss (t : Z) : string :=
  (Py.zfill 2 (t / 3600) +:+ Py.zfill 2 ((t / 60) mod 60) +:+ Py.zfill 2 (t mod 60))%string.

(** [{sourceBaseName}_seg{ordinal:03d}_{startHHMMSS}_{endHHMMSS}[_obj][_mot].{ext}] *)
Definition clip_file_name (sourceBaseName : string) (ordinal : Z) (start_seconds end_seconds : Z)
    (object_flag motion_flag : bool) (ext : string) : string :=
  (sourceBaseName +:+ "_seg" +:+ Py.zfill 3 ordinal +:+ "_" +:+ hhmmss start_seconds
     +:+ "_" +:+ hhmmss end_seconds
     +:+ (if object_flag then "_obj" else EmptyString)
     +:+ (if motion_flag then "_mot" else EmptyString)
     +:+ "." +:+ ext)%string.

End Spec.

(** The batch: what a run over [video_files] owes to the outcomes of the
    single files. *)
Module Batch.




(** The row that a failure leaves for a file. *)
Definition failure_row (file : string) : CsvLogger.Row :=
  CsvLogger.mkRow file EmptyString "0" "0" "[]".

End Batch.
From Stdlib Require Import Lqa Sorting.Sorted DecimalPos.

(** ** core/video.py: the motion block and the detection block

    The two blocks that compute [motion_detected] and [objects_detected]
    for an analysed frame, from the grey image of the frame and from what
    the detector returns for it. *)

Module Motion.

(** A grey image (after the resize, the crop and [cvtColor]), row after
    row: values from 0 to 255.  The frames of one video have one width, so
    that two of them have one shape when they have one length. *)
Definition Gray : Type := list Z.

(** Lines 142-145: [absdiff] and the binary threshold at 30, for a pixel. *)
Definition thresh_pixel (a b : Z) : Z := if Z.abs (a - b) >? 30 then 255 else 0.

Fixpoint thresh (gray prev_frame : Gray) : list Z :=
  match gray, prev_frame with
  | a :: gray', b :: prev' => thresh_pixel a b :: thresh gray' prev'
  | _, _ => []
  end.

Definition sum_Z (l : list Z) : Z := fold_left Z.add l 0.

(** The pixels that differ by more than 30 from those of the frame before. *)
Fixpoint changed_pixels (gray prev_frame : Gray) : Z :=
  match gray, prev_frame with
  | a :: gray', b :: prev' =>
      (if Z.abs (a - b) >? 30 then 1 else 0) + changed_pixels gray' prev'
  | _, _ => 0
  end.

(** Line 148, on two images of one shape. *)
Definition motion_score (gray prev_frame : Gray) : Q :=
  (inject_Z (sum_Z (thresh gray prev_frame)) / inject_Z (Z.of_nat (length gray) * 255))%Q.

(** Lines 151-153: [append], then [pop(0)] beyond ten scores. *)
Definition push (motion_history : list Q) (motion_score : Q) : list Q :=
  let h := motion_history ++ [motion_score] in
  if (10 <? length h)%nat then tail h else h.

(** Line 156: [sum(motion_history) / len(motion_history)]. *)
Definition sum_Q (l : list Q) : Q := fold_left Qplus l 0%Q.

Definition avg_motion (motion_history : list Q) : Q :=
  (sum_Q motion_history / inject_Z (Z.of_nat (length motion_history)))%Q.

(** Two images of one shape that differ by at most 30 in every pixel. *)
Definition close (g1 g2 : Gray) : Prop :=
  Forall2 (fun a b => Z.abs (a - b) <= 30) g1 g2.

(** The scores of a run of analysed frames, each against the one before it;
    [prev_frame] is the frame before the first. *)
Fixpoint pair_scores (prev_frame : Gray) (grays : list Gray) : list Q :=
  match grays with
  | [] => []
  | gray :: grays' => motion_score gray prev_frame :: pair_scores gray grays'
  end.

Definition consecutive_scores (grays : list Gray) : list Q :=
  match grays with
  | [] => []
  | gray :: grays' => pair_scores gray grays'
  end.

(** The state that the block keeps from one analysed frame to the next. *)
Record State : Type := mkState {
  prev_frame : option Gray;
  motion_history : list Q
}.

Definition initial : State := mkState None [].

(** Lines 135-160 for one analysed frame: [motion_detected] and the new
    state.  [cvtColor] raises on an empty image and [absdiff] on images of
    two shapes. *)
Definition step (motion_threshold : Q) (gray : Gray) (st : State) : exn + (bool * State) :=
  match gray with
  | [] => inl (Exception "cv2.error: empty image")
  | _ :: _ =>
      match prev_frame st with
      | None => inr (false, mkState (Some gray) (motion_history st))
      | Some prev =>
          if Nat.eqb (length gray) (length prev) then
            let h := push (motion_history st) (motion_score gray prev) in
            inr (Py.Qltb motion_threshold (avg_motion h), mkState (Some gray) h)
          else inl (Exception "cv2.error: sizes of input arguments do not match")
      end
  end.

End Motion.

(** The same block with its floats in binary64: the score of line 148 is a
    quotient of two integers rounded once, the sum of line 156 is taken from
    the left, starting from zero, each addition rounded, and the average is
    that sum divided by the length and rounded.  The flag of line 157 is the
    comparison of two doubles. *)
Module Motion64.

Definition motion_score (gray prev_frame : Motion.Gray) : float :=
  PrimFloat.div (F64.of_Z (Motion.sum_Z (Motion.thresh gray prev_frame)))
    (F64.of_Z (Z.of_nat (length gray) * 255)).

Definition push (motion_history : list float) (motion_score : float) : list float :=
  let h := motion_history ++ [motion_score] in
  if (10 <? length h)%nat then tail h else h.

Definition sum (l : list float) : float := fold_left PrimFloat.add l (F64.of_Z 0).

Definition avg_motion (motion_history : list float) : float :=
  PrimFloat.div (sum motion_history) (F64.of_Z (Z.of_nat (length motion_history))).

Fixpoint pair_scores (prev_frame : Motion.Gray) (grays : list Motion.Gray) : list float :=
  match grays with
  | [] => []
  | gray :: grays' => motion_score gray prev_frame :: pair_scores gray grays'
  end.

Definition consecutive_scores (grays : list Motion.Gray) : list float :=
  match grays with
  | [] => []
  | gray :: grays' => pair_scores gray grays'
  end.

Record State : Type := mkState {
  prev_frame : option Motion.Gray;
  motion_history : list float
}.

Definition initial : State := mkState None [].

(** Lines 135-160 for one analysed frame. *)
Definition step (motion_threshold : float) (gray : Motion.Gray) (st : State)
    : exn + (bool * State) :=
  match gray with
  | [] => inl (Exception "cv2.error: empty image")
  | _ :: _ =>
      match prev_frame st with
      | None => inr (false, mkState (Some gray) (motion_history st))
      | Some prev =>
          if Nat.eqb (length gray) (length prev) then
            let h := push (motion_history st) (motion_score gray prev) in
            inr (PrimFloat.ltb motion_threshold (avg_motion h), mkState (Some gray) h)
          else inl (Exception "cv2.error: sizes of input arguments do not match")
      end
  end.

End Motion64.

Module Detection.

(** One box of a detector result: class, confidence and corners. *)
Record Box : Type := mkBox {
  cls : Z;
  conf : Q;
  x1 : Q;
  y1 : Q;
  x2 : Q;
  y2 : Q
}.

Record Filter : Type := mkFilter {
  confidence : Q;
  target_classes : option (list Z);
  min_object_area : Q
}.

(** Line 99. *)
Definition min_area (min_object_area_ratio : Q) (frame_width frame_height : Z) : Q :=
  (min_object_area_ratio * inject_Z frame_width * inject_Z frame_height)%Q.

Definition object_area (b : Box) : Q := ((x2 b - x1 b) * (y2 b - y1 b))%Q.

Definition in_classes (c : Z) (classes : list Z) : bool := existsb (Z.eqb c) classes.

(** Lines 172-198: the loop over the boxes of one result, with its three
    [continue] and its [break]. *)
Fixpoint scan_boxes (flt : Filter) (boxes : list Box) : bool :=
  match boxes with
  | [] => false
  | box :: rest =>
      if match target_classes flt with
         | Some classes => negb (in_classes (cls box) classes)
         | None => false
         end
      then scan_boxes flt rest
      else if Py.Qltb (conf box) (confidence flt) then scan_boxes flt rest
      else if Py.Qltb (object_area box) (min_object_area flt) then scan_boxes flt rest
      else true
  end.

(** Lines 170-201: the loop over the results, left at the first hit. *)
Fixpoint scan_results (flt : Filter) (results : list (list Box)) : bool :=
  match results with
  | [] => false
  | boxes :: rest => if scan_boxes flt boxes then true else scan_results flt rest
  end.

(** A box that the three tests let through. *)
Definition passes (flt : Filter) (b : Box) : Prop :=
  match target_classes flt with
  | Some classes => In (cls b) classes
  | None => True
  end
  /\ (confidence flt <= conf b)%Q
  /\ (min_object_area flt <= object_area b)%Q.

End Detection.

(** The analysis of the frames of a video: from what is decoded and what
    the detector would return, to the flags that the segment builder reads. *)
Module Analysis.

Record RawFrame : Type := mkRawFrame {
  gray : Motion.Gray;
  results : list (list Detection.Box)
}.

(** Lines 106-201 over the frames from [current_frame_idx] on.  A frame
    that is skipped is not decoded and leaves the motion state alone; its
    flags are never read. *)
Fixpoint analyse (motion_threshold : Q) (flt : Detection.Filter) (skip_frames : Z)
    (current_frame_idx : Z) (raw : list RawFrame) (st : Motion.State)
    : exn + list Video.Frame :=
  match raw with
  | [] => inr []
  | r :: raw' =>
      if Video.analysed skip_frames current_frame_idx then
        match Motion.step motion_threshold (gray r) st with
        | inl e => inl e
        | inr (motion_detected, st') =>
            match analyse motion_threshold flt skip_frames (current_frame_idx + 1) raw' st' with
            | inl e => inl e
            | inr fs =>
                inr (Video.mkFrame motion_detected (Detection.scan_results flt (results r)) :: fs)
            end
        end
      else
        match analyse motion_threshold flt skip_frames (current_frame_idx + 1) raw' st with
        | inl e => inl e
        | inr fs => inr (Video.mkFrame false false :: fs)
        end
  end.

(** The frames that line 108 lets through, of the frames from
    [current_frame_idx] on. *)
Fixpoint sampled (skip_frames current_frame_idx : Z) (raw : list RawFrame) : list RawFrame :=
  match raw with
  | [] => []
  | r :: raw' =>
      if Video.analysed skip_frames current_frame_idx
      then r :: sampled skip_frames (current_frame_idx + 1) raw'
      else sampled skip_frames (current_frame_idx + 1) raw'
  end.

End Analysis.

(** The loop of lines 106-201 with the motion block in binary64. *)
Module Analysis64.

Fixpoint analyse (motion_threshold : float) (flt : Detection.Filter) (skip_frames : Z)
    (current_frame_idx : Z) (raw : list Analysis.RawFrame) (st : Motion64.State)
    : exn + list Video.Frame :=
  match raw with
  | [] => inr []
  | r :: raw' =>
      if Video.analysed skip_frames current_frame_idx then
        match Motion64.step motion_threshold (Analysis.gray r) st with
        | inl e => inl e
        | inr (motion_detected, st') =>
            match analyse motion_threshold flt skip_frames (current_frame_idx + 1) raw' st' with
            | inl e => inl e
            | inr fs =>
                inr (Video.mkFrame motion_detected
                       (Detection.scan_results flt (Analysis.results r)) :: fs)
            end
        end
      else
        match analyse motion_threshold flt skip_frames (current_frame_idx + 1) raw' st with
        | inl e => inl e
        | inr fs => inr (Video.mkFrame false false :: fs)
        end
  end.

End Analysis64.

(** What the callback and the media library see of one call of
    [process_video]. *)
Module Trace.

Import Video.

Definition is_progress (e : Event) : bool :=
  match e with
  | Progress _ _ _ _ => true
  | _ => false
  end.

Definition is_write (e : Event) : bool :=
  match e with
  | WriteVideofile _ _ _ _ => true
  | _ => false
  end.

(** The path of a write that went through. *)
Definition written (e : Event) : option string :=
  match e with
  | WriteVideofile output_path _ _ true => Some output_path
  | _ => None
  end.



(** The frames that line 108 lets through, counted, and those of them on
    which the detection block reports an object. *)
Fixpoint count_analysed (skip_frames current_frame_idx : Z) (fs : list Frame) : nat :=
  match fs with
  | [] => 0
  | _ :: fs' =>
      (if analysed skip_frames current_frame_idx then 1 else 0)
      + count_analysed skip_frames (current_frame_idx + 1) fs'
  end.

Fixpoint detections (skip_frames current_frame_idx : Z) (fs : list Frame) : nat :=
  match fs with
  | [] => 0
  | f :: fs' =>
      (if analysed skip_frames current_frame_idx
          && objects_detected skip_frames current_frame_idx f then 1 else 0)
      + detections skip_frames (current_frame_idx + 1) fs'
  end.

End Trace.

(** Vocabulary for the lists of closed segments. *)
Module Closed.

Import Video.

(** [s] holds frame [i] and carries the flags [m] and [o]. *)
Definition holds (i : Z) (m o : bool) (s : Segment) : Prop :=
  start s <= i <= end_ s
  /\ (m = true -> motion s = true)
  /\ (o = true -> objects s = true).

(** [b] begins after [a] begins, and less than [B] frames before [a] ends. *)
Definition follows (B : Z) (a b : Segment) : Prop :=
  start a < start b /\ end_ a - B < start b.


(** Frame [a] of [fs] is an analysed frame that shows activity. *)
Definition active_at (skip_frames : Z) (fs : list Frame) (a : Z) : Prop :=
  exists i f,
    a = Z.of_nat i /\ fs !! i = Some f
    /\ analysed skip_frames a = true
    /\ (motion_detected f || objects_detected skip_frames a f) = true.

(** [s] begins the buffer before a frame with activity, or on frame zero,
    and ends the buffer after a frame with activity, or where the end of the
    stream cuts it. *)
Definition from_activity (act : Z -> Prop) (B total : Z) (s : Segment) : Prop :=
  (exists a, act a /\ start s = Z.max 0 (a - B))
  /\ (exists a, act a /\ (end_ s = a + B \/ end_ s = Z.min (a + B) (total - 1))).

(** [R] relates every segment of [l] to the next one. *)
Definition chain (R : Segment -> Segment -> Prop) (l : list Segment) : Prop :=
  forall k a b, l !! k = Some a -> l !! S k = Some b -> R a b.

End Closed.

(** Names as [os.listdir] gives them: without a slash. *)
Module Paths.

Fixpoint no_slash (s : string) : bool :=
  match s with
  | EmptyString => true
  | String c s' => negb (Ascii.eqb c "/") && no_slash s'
  end.


(** Reading the ordinal of a clip name back: the decimal digits at the head
    of a string, and the number that they write. *)
Definition is_digit (c : ascii) : bool :=
  let n := N_of_ascii c in ((48 <=? n) && (n <=? 57))%N.

Fixpoint take_digits (s : string) : string :=
  match s with
  | EmptyString => EmptyString
  | String c s' => if is_digit c then String c (take_digits s') else EmptyString
  end.

Definition parse_Z (s : string) : option Z :=
  option_map Z.of_uint (NilEmpty.uint_of_string s).

End Paths.

(** core/processor.py, lines 85-95 and 269: the size of the worker pool. *)
Module Workers.

Definition max_workers (given : option Z) (cuda_available : bool) (cpu_count : Z) : Z :=
  match given with
  | Some w => w
  | None =>
      if cuda_available then Z.max 2 (Z.min 6 (cpu_count / 2))
      else Z.max 1 (Z.min 4 (cpu_count / 2))
  end.

(** [ThreadPoolExecutor(max_workers=w)]: a size of zero or less is refused. *)
Definition executor (w : Z) : exn + Z :=
  if w <=? 0 then inl (Exception "ValueError: max_workers must be greater than 0")
  else inr w.

End Workers.

(** A reader for the JSON text of a list of strings, to say what a
    [segment_files] cell holds: the grammar of RFC 8259 restricted to such
    lists, as [json.dumps] lays them out (one space after each comma), with
    [\u] escapes of code points below 256. *)
Module Json.

Inductive State : Type :=
| Open                                   (* before the bracket *)
| First                                  (* after the bracket *)
| Str (acc : string)                     (* inside a string *)
| Esc (acc : string)                     (* after a backslash *)
| Uni (acc : string) (k : nat) (v : N)   (* after [\u] and [k] hex digits *)
| After                                  (* after a string *)
| Comma                                  (* after a comma *)
| Next                                   (* after the space of a comma *)
| Closed.                                (* after the closing bracket *)

Definition hex_value (c : ascii) : option N :=
  let n := N_of_ascii c in
  if ((48 <=? n) && (n <=? 57))%N then Some (n - 48)%N
  else if ((97 <=? n) && (n <=? 102))%N then Some (n - 87)%N
  else if ((65 <=? n) && (n <=? 70))%N then Some (n - 55)%N
  else None.

Definition unescape (c : ascii) : option ascii :=
  let n := N_of_ascii c in
  if (n =? 34)%N then Some Py.dquote
  else if (n =? 92)%N then Some (ascii_of_N 92)
  else if (n =? 47)%N then Some (ascii_of_N 47)
  else if (n =? 110)%N then Some (ascii_of_N 10)
  else if (n =? 114)%N then Some (ascii_of_N 13)
  else if (n =? 116)%N then Some (ascii_of_N 9)
  else if (n =? 98)%N then Some (ascii_of_N 8)
  else if (n =? 102)%N then Some (ascii_of_N 12)
  else None.

Definition snoc (acc : string) (c : ascii) : string := (acc +:+ String c EmptyString)%string.

Fixpoint read (st : State) (items : list string) (s : string) : option (list string) :=
  match s with
  | EmptyString =>
      match st with
      | Closed => Some items
      | _ => None
      end
  | String c s' =>
      let n := N_of_ascii c in
      match st with
      | Open => if (n =? 91)%N then read First items s' else None
      | First =>
          if (n =? 34)%N then read (Str EmptyString) items s'
          else if (n =? 93)%N then read Closed items s'
          else None
      | Str acc =>
          if (n =? 34)%N then read After (items ++ [acc]) s'
          else if (n =? 92)%N then read (Esc acc) items s'
          else if (n <? 32)%N then None
          else read (Str (snoc acc c)) items s'
      | Esc acc =>
          if (n =? 117)%N then read (Uni acc 0 0) items s'
          else
            match unescape c with
            | Some a => read (Str (snoc acc a)) items s'
            | None => None
            end
      | Uni acc k v =>
          match hex_value c with
          | Some h =>
              let v' := (16 * v + h)%N in
              match k with
              | 3%nat => if (v' <? 256)%N then read (Str (snoc acc (ascii_of_N v'))) items s'
                         else None
              | _ => read (Uni acc (S k) v') items s'
              end
          | None => None
          end
      | After =>
          if (n =? 44)%N then read Comma items s'
          else if (n =? 93)%N then read Closed items s'
          else None
      | Comma => if (n =? 32)%N then read Next items s' else None
      | Next => if (n =? 34)%N then read (Str EmptyString) items s' else None
      | Closed => None
      end
  end.

Definition read_list (s : string) : option (list string) := read Open [] s.

End Json.

(** * Properties *)

(** ** The segment builder *)

Section Builder.

Import Video Stream.

Variables skip B : Z.

Lemma track_frames_app idx (l1 l2 : list Frame) t :
  track_frames skip B idx (l1 ++ l2) t =
  track_frames skip B (idx + Z.of_nat (length l1)) l2 (track_frames skip B idx l1 t).
Proof.
  revert idx t. induction l1 as [|f l1 IH]; intros idx t; simpl.
  - f_equal. lia.
  - rewrite IH. f_equal. lia.
Qed.

(** A quiet stretch leaves a builder without an open segment as it is. *)
Lemma idle_stays_idle idx fs t :
  all_idle skip idx fs = true -> current_segment t = None ->
  track_frames skip B idx fs t = t.
Proof.
  revert idx t. induction fs as [|f fs IH]; intros idx t Hq Hc; simpl in *; [done|].
  apply andb_true_iff in Hq as [Hf Hq].
  assert (track_frame skip B idx f t = t) as ->; [|by apply IH].
  unfold track_frame, track. destruct (analysed skip idx); [|done].
  simpl in Hf. apply negb_true_iff in Hf. unfold active in Hf. rewrite Hf, Hc. done.
Qed.

(** A quiet stretch that stays within the buffer of the open segment leaves
    the builder as it is. *)
Lemma idle_within_buffer idx fs t seg :
  all_idle skip idx fs = true -> current_segment t = Some seg ->
  idx + Z.of_nat (length fs) - 1 - end_ seg <= B ->
  track_frames skip B idx fs t = t.
Proof.
  revert idx. induction fs as [|f fs IH]; intros idx Hq Hc Hlen; simpl in *; [done|].
  apply andb_true_iff in Hq as [Hf Hq].
  assert (track_frame skip B idx f t = t) as ->; [|apply IH; [done..|lia]].
  unfold track_frame, track. destruct (analysed skip idx); [|done].
  simpl in Hf. apply negb_true_iff in Hf. unfold active in Hf. rewrite Hf, Hc.
  destruct (idx - end_ seg >? B) eqn:Hgt; [|done].
  apply Z.gtb_lt in Hgt. lia.
Qed.

(** A quiet stretch either leaves the open segment open and untouched, or
    closes it with the trailing buffer. *)
Lemma idle_open_cases idx fs t seg :
  all_idle skip idx fs = true -> current_segment t = Some seg ->
  track_frames skip B idx fs t = t \/
  track_frames skip B idx fs t = closed_by_gap B t seg.
Proof.
  revert idx. induction fs as [|f fs IH]; intros idx Hq Hc; simpl in *; [by left|].
  apply andb_true_iff in Hq as [Hf Hq].
  unfold track_frame, track. destruct (analysed skip idx); [|by apply IH].
  simpl in Hf. apply negb_true_iff in Hf. unfold active in Hf. rewrite Hf, Hc.
  destruct (idx - end_ seg >? B); [|by apply IH].
  right. by apply idle_stays_idle.
Qed.

(** When the last frame of the quiet stretch is analysed and lies beyond the
    buffer, the segment is closed. *)
Lemma idle_beyond_buffer idx fs t seg :
  all_idle skip idx fs = true -> current_segment t = Some seg ->
  fs <> [] -> analysed skip (idx + Z.of_nat (length fs) - 1) = true ->
  idx + Z.of_nat (length fs) - 1 - end_ seg > B ->
  track_frames skip B idx fs t = closed_by_gap B t seg.
Proof.
  revert idx. induction fs as [|f fs IH]; intros idx Hq Hc Hne Hlast Hlen; [done|].
  simpl in Hq. apply andb_true_iff in Hq as [Hf Hq].
  change (track_frames skip B idx (f :: fs) t)
    with (track_frames skip B (idx + 1) fs (track_frame skip B idx f t)).
  destruct fs as [|g fs].
  - assert (He : idx + Z.of_nat (length [f]) - 1 = idx) by (simpl length; lia).
    rewrite He in Hlast, Hlen. rewrite Hlast in Hf. simpl in Hf.
    apply negb_true_iff in Hf. unfold active in Hf.
    simpl. unfold track_frame, track. rewrite Hlast, Hf, Hc.
    destruct (idx - end_ seg >? B) eqn:Hgt; [done|].
    rewrite Z.gtb_ltb in Hgt. apply Z.ltb_ge in Hgt. lia.
  - assert (Hlen' : idx + 1 + Z.of_nat (length (g :: fs)) - 1 = idx + Z.of_nat (length (f :: g :: fs)) - 1)
      by (simpl length; lia).
    unfold track_frame at 1, track. destruct (analysed skip idx) eqn:Ha.
    + simpl in Hf. apply negb_true_iff in Hf. unfold active in Hf. rewrite Hf, Hc.
      destruct (idx - end_ seg >? B).
      * by apply idle_stays_idle.
      * apply IH; try done; rewrite Hlen'; done.
    + apply IH; try done; rewrite Hlen'; done.
Qed.

(** Activity on every analysed frame keeps an open segment open, with its
    start, and moves its end to the last analysed frame. *)
Lemma active_extends idx fs t seg :
  all_active skip idx fs = true -> current_segment t = Some seg ->
  exists seg',
    track_frames skip B idx fs t = mkTracking (segments t) (Some seg') (segment_count t)
    /\ start seg' = start seg
    /\ (end_ seg' = end_ seg \/ idx <= end_ seg' < idx + Z.of_nat (length fs))
    /\ (fs <> [] -> analysed skip (idx + Z.of_nat (length fs) - 1) = true ->
        end_ seg' = idx + Z.of_nat (length fs) - 1).
Proof.
  revert idx t seg. induction fs as [|f fs IH]; intros idx t seg Ha Hc.
  - exists seg. simpl. destruct t; simpl in *; subst. repeat split; auto. done.
  - simpl in Ha. apply andb_true_iff in Ha as [Hf Ha].
    change (track_frames skip B idx (f :: fs) t)
      with (track_frames skip B (idx + 1) fs (track_frame skip B idx f t)).
    destruct (analysed skip idx) eqn:Han.
    + simpl in Hf. unfold active in Hf.
      set (seg1 := mkSegment (start seg) idx (motion seg || motion_detected f)
                     (objects seg || objects_detected skip idx f)).
      assert (Ht : track_frame skip B idx f t = mkTracking (segments t) (Some seg1) (segment_count t)).
      { unfold track_frame, track. rewrite Han, Hf, Hc. done. }
      rewrite Ht.
      destruct (IH (idx + 1) (mkTracking (segments t) (Some seg1) (segment_count t)) seg1 Ha eq_refl)
        as (seg' & Hrun & Hst & Hend & Hlast).
      exists seg'. simpl in *. repeat split; auto.
      * right. destruct Hend as [->|?]; simpl; lia.
      * intros _ Hl. destruct fs as [|g fs].
        -- simpl in *. inversion Hrun; subst. simpl. lia.
        -- rewrite Hlast; [simpl length; lia|done|].
           replace (idx + 1 + Z.of_nat (length (g :: fs)) - 1)
             with (idx + Z.of_nat (S (length (g :: fs))) - 1) by lia. done.
    + assert (Ht : track_frame skip B idx f t = t) by (unfold track_frame; by rewrite Han).
      rewrite Ht.
      destruct (IH (idx + 1) t seg Ha Hc) as (seg' & Hrun & Hst & Hend & Hlast).
      exists seg'. repeat split; auto.
      * destruct Hend as [?|?]; [by left|right; simpl length; lia].
      * intros _ Hl. destruct fs as [|g fs].
        -- assert (He : idx + Z.of_nat (length [f]) - 1 = idx) by (simpl length; lia).
           rewrite He in Hl. congruence.
        -- rewrite Hlast; [simpl length; lia|done|].
           replace (idx + 1 + Z.of_nat (length (g :: fs)) - 1)
             with (idx + Z.of_nat (S (length (g :: fs))) - 1) by lia. done.
Qed.

(** A burst met without an open segment opens one, [B] frames before its
    first frame, and leaves it open on its last frame. *)
Lemma burst_opens idx fs t :
  burst skip idx fs = true -> current_segment t = None ->
  exists seg,
    track_frames skip B idx fs t = mkTracking (segments t) (Some seg) (segment_count t)
    /\ start seg = Z.max 0 (idx - B)
    /\ end_ seg = idx + Z.of_nat (length fs) - 1.
Proof.
  unfold burst. intros Hb Hc.
  apply andb_true_iff in Hb as [Hb Hact]. apply andb_true_iff in Hb as [Hb Hlast].
  apply andb_true_iff in Hb as [Hne Hfirst].
  destruct fs as [|f fs]; [done|].
  simpl in Hact. rewrite Hfirst in Hact. simpl in Hact.
  apply andb_true_iff in Hact as [Hf Hact].
  change (track_frames skip B idx (f :: fs) t)
    with (track_frames skip B (idx + 1) fs (track_frame skip B idx f t)).
  set (seg1 := mkSegment (Z.max 0 (idx - B)) idx (motion_detected f) (objects_detected skip idx f)).
  assert (Ht : track_frame skip B idx f t = mkTracking (segments t) (Some seg1) (segment_count t)).
  { unfold track_frame, track. unfold active in Hf. rewrite Hfirst, Hf, Hc. done. }
  rewrite Ht.
  destruct (active_extends (idx + 1) fs (mkTracking (segments t) (Some seg1) (segment_count t))
              seg1 Hact eq_refl) as (seg' & Hrun & Hst & _ & Hl).
  exists seg'. simpl in *. repeat split; auto.
  destruct fs as [|g fs].
  - simpl in Hrun. inversion Hrun; subst. simpl. lia.
  - rewrite Hl; [simpl length; lia|done|].
    replace (idx + 1 + Z.of_nat (length (g :: fs)) - 1)
      with (idx + Z.of_nat (S (length (g :: fs))) - 1) by lia. done.
Qed.

(** A burst met with an open segment extends it to its last frame. *)
Lemma burst_extends idx fs t seg :
  burst skip idx fs = true -> current_segment t = Some seg ->
  exists seg',
    track_frames skip B idx fs t = mkTracking (segments t) (Some seg') (segment_count t)
    /\ start seg' = start seg
    /\ end_ seg' = idx + Z.of_nat (length fs) - 1.
Proof.
  unfold burst. intros Hb Hc.
  apply andb_true_iff in Hb as [Hb Hact]. apply andb_true_iff in Hb as [Hb Hlast].
  apply andb_true_iff in Hb as [Hne Hfirst].
  destruct (active_extends idx fs t seg Hact Hc) as (seg' & Hrun & Hst & _ & Hl).
  exists seg'. repeat split; auto. apply Hl; [|done].
  destruct fs; [done|done].
Qed.

End Builder.

(** ** The segment merger *)

Section Merger.

Import Video Segments.

Lemma merge_step_nil s : merge_step [] s = [s].
Proof. reflexivity. Qed.

Lemma merge_step_snoc acc x s :
  merge_step (acc ++ [x]) s =
  if start s <=? end_ x then acc ++ [absorb x s] else acc ++ [x; s].
Proof.
  unfold merge_step. rewrite last_snoc, removelast_last.
  destruct (start s <=? end_ x); [done|]. by rewrite <- app_assoc.
Qed.

Lemma fold_merge_step acc x rest :
  fold_left merge_step rest (acc ++ [x]) = acc ++ coalesce x rest.
Proof.
  revert acc x. induction rest as [|s rest IH]; intros acc x; simpl; [done|].
  rewrite merge_step_snoc. destruct (start s <=? end_ x).
  - apply IH.
  - change (acc ++ [x; s]) with (acc ++ [x] ++ [s]). rewrite app_assoc, IH.
    by rewrite <- app_assoc.
Qed.

Lemma merge_segments_coalesce l :
  merge_segments l =
  match sort_by_start l with
  | [] => []
  | x :: rest => coalesce x rest
  end.
Proof.
  unfold merge_segments. destruct (sort_by_start l) as [|x rest]; [done|].
  simpl. rewrite merge_step_nil. apply (fold_merge_step [] x rest).
Qed.

(** The sort. *)
Lemma insert_ascending s l : ascending l -> ascending (insert_by_start s l).
Proof.
  induction l as [|x l IH]; intros Hl; simpl; [done|].
  destruct (start s <=? start x) eqn:Hle.
  - apply Z.leb_le in Hle. simpl. split; [done|]. exact Hl.
  - apply Z.leb_gt in Hle.
    destruct l as [|y l]; simpl in *.
    + split; [lia|done].
    + destruct Hl as [Hxy Hl]. specialize (IH Hl).
      destruct (start s <=? start y) eqn:Hsy.
      * apply Z.leb_le in Hsy. simpl. repeat split; try lia. exact Hl.
      * split; [lia|]. exact IH.
Qed.

Lemma sort_ascending l : ascending (sort_by_start l).
Proof. induction l as [|s l IH]; simpl; [done|]. by apply insert_ascending. Qed.

Lemma sort_ascending_id l : ascending l -> sort_by_start l = l.
Proof.
  induction l as [|x l IH]; intros Hl; simpl; [done|].
  destruct l as [|y l]; [done|].
  destruct Hl as [Hxy Hl]. rewrite (IH Hl). simpl.
  apply Z.leb_le in Hxy. by rewrite Hxy.
Qed.

Lemma sort_Forall (P : Segment -> Prop) l : Forall P l -> Forall P (sort_by_start l).
Proof.
  induction 1 as [|s l Hs Hl IH]; simpl; [constructor|].
  clear Hl. induction IH as [|x l' Hx Hl' IH']; simpl.
  - by repeat constructor.
  - destruct (start s <=? start x); by repeat constructor.
Qed.

Lemma sort_length l : length (sort_by_start l) = length l.
Proof.
  induction l as [|s l IH]; simpl; [done|]. rewrite <- IH.
  generalize (sort_by_start l). intros l'. induction l' as [|x l' IH']; simpl; [done|].
  destruct (start s <=? start x); simpl; [done|]. by rewrite IH'.
Qed.

(** The walk. *)
Lemma coalesce_head x rest :
  exists y l, coalesce x rest = y :: l /\ start y = start x.
Proof.
  revert x. induction rest as [|s rest IH]; intros x; simpl.
  - by exists x, [].
  - destruct (start s <=? end_ x).
    + destruct (IH (absorb x s)) as (y & l & -> & Hy). by exists y, l.
    + by exists x, (coalesce s rest).
Qed.

Lemma coalesce_ascending x rest :
  ascending (x :: rest) -> ascending (coalesce x rest).
Proof.
  revert x. induction rest as [|s rest IH]; intros x Hl; simpl; [done|].
  destruct Hl as [Hxs Hl].
  destruct (start s <=? end_ x).
  - apply IH. destruct rest as [|r rest]; [done|].
    destruct Hl as [Hsr Hl]. split; [simpl; lia|exact Hl].
  - specialize (IH s Hl).
    destruct (coalesce_head s rest) as (y & l & Heq & Hy).
    rewrite Heq in *. split; [lia|exact IH].
Qed.

Lemma coalesce_disjoint x rest : disjoint (coalesce x rest).
Proof.
  revert x. induction rest as [|s rest IH]; intros x; simpl; [done|].
  destruct (start s <=? end_ x) eqn:Hle; [apply IH|].
  apply Z.leb_gt in Hle. specialize (IH s).
  destruct (coalesce_head s rest) as (y & l & Heq & Hy).
  rewrite Heq in *. split; [lia|exact IH].
Qed.

Lemma coalesce_disjoint_id x rest : disjoint (x :: rest) -> coalesce x rest = x :: rest.
Proof.
  revert x. induction rest as [|s rest IH]; intros x Hl; simpl; [done|].
  destruct Hl as [Hxs Hl]. apply Z.leb_gt in Hxs. rewrite Hxs.
  by rewrite IH.
Qed.

Lemma merge_ascending l : ascending (merge_segments l).
Proof.
  rewrite merge_segments_coalesce.
  pose proof (sort_ascending l) as Hs.
  destruct (sort_by_start l) as [|x rest]; [done|]. by apply coalesce_ascending.
Qed.

Lemma merge_disjoint l : disjoint (merge_segments l).
Proof.
  rewrite merge_segments_coalesce.
  destruct (sort_by_start l) as [|x rest]; [done|]. apply coalesce_disjoint.
Qed.

Lemma merge_fixed l : ascending l -> disjoint l -> merge_segments l = l.
Proof.
  intros Ha Hd. rewrite merge_segments_coalesce, (sort_ascending_id l Ha).
  destruct l as [|x rest]; [done|]. by apply coalesce_disjoint_id.
Qed.




(** C3. The merge of lines 257-274 is idempotent: applied to its own
    output, whatever the list of closed segments it started from, it returns
    that output. *)
Theorem merge_segments_idempotent (l : list Segment) :
  merge_segments (merge_segments l) = merge_segments l.
Proof. apply merge_fixed; [apply merge_ascending|apply merge_disjoint]. Qed.

End Merger.

(** ** The invariant of segments *)

Section Invariant.

Import Video Stream.

Variables skip B : Z.
Hypothesis HB : 0 <= B.

Lemma track_frame_inv idx f t :
  0 <= idx -> builder_inv idx t -> builder_inv (idx + 1) (track_frame skip B idx f t).
Proof.
  intros Hidx [Hsegs Hcur]. unfold track_frame, track.
  destruct (analysed skip idx).
  - destruct (motion_detected f || objects_detected skip idx f).
    + destruct (current_segment t) as [seg|] eqn:Hc; split; simpl; auto.
      * intros s [= <-]. destruct (Hcur seg eq_refl) as [Hok He].
        unfold seg_ok in *. simpl. lia.
      * intros s [= <-]. unfold seg_ok. simpl. lia.
    + destruct (current_segment t) as [seg|] eqn:Hc.
      * destruct (Hcur seg eq_refl) as [Hok He].
        destruct (idx - end_ seg >? B); split; simpl.
        -- apply Forall_app. split; [done|]. constructor; [|constructor].
           unfold seg_ok in *. simpl. lia.
        -- intros s [=].
        -- done.
        -- intros s Hs. rewrite Hc in Hs. injection Hs as <-. split; [done|lia].
      * split; [done|]. intros s Hs. rewrite Hc in Hs. done.
  - split; [done|]. intros s Hs. destruct (Hcur s Hs). split; [done|lia].
Qed.

Lemma track_frames_inv idx fs t :
  0 <= idx -> builder_inv idx t ->
  builder_inv (idx + Z.of_nat (length fs)) (track_frames skip B idx fs t).
Proof.
  revert idx t. induction fs as [|f fs IH]; intros idx t Hidx Hinv.
  - simpl. by rewrite Z.add_0_r.
  - replace (idx + Z.of_nat (length (f :: fs)))
      with (idx + 1 + Z.of_nat (length fs)) by (simpl length; lia).
    apply IH; [lia|]. by apply track_frame_inv.
Qed.

Lemma idle_inv : builder_inv 0 idle.
Proof. split; [constructor|]. intros seg [=]. Qed.






End Invariant.


(** C8 as stated fails.  The clamp of line 247 takes the frame count of the
    container: with four decoded frames against a reported count of two and
    no buffer, the segment opened on frame 3 is closed at the end of the
    stream with its end on frame 1, before its start. *)
Theorem short_frame_count_breaks_order :
  Video.closed_segments 1 0 2 [Stream.quiet; Stream.quiet; Stream.quiet; Stream.moving]
  = [Video.mkSegment 3 1 true false]
  /\ Video.merged_segments 1 0 2 [Stream.quiet; Stream.quiet; Stream.quiet; Stream.moving]
     = [Video.mkSegment 3 1 true false]
  /\ ~ seg_ok (Video.mkSegment 3 1 true false).
Proof. split; [reflexivity|]. split; [reflexivity|]. unfold seg_ok. simpl. lia. Qed.

(** ** Bursts and gaps *)

Section Bursts.

Import Video Stream Segments.

Variables skip B total : Z.

Lemma all_idle_app idx (l1 l2 : list Frame) :
  all_idle skip idx (l1 ++ l2) =
  all_idle skip idx l1 && all_idle skip (idx + Z.of_nat (length l1)) l2.
Proof.
  revert idx. induction l1 as [|f l1 IH]; intros idx.
  - simpl. by rewrite Z.add_0_r.
  - simpl app. simpl all_idle. rewrite IH, andb_assoc.
    by replace (idx + 1 + Z.of_nat (length l1)) with (idx + Z.of_nat (length (f :: l1)))
      by (simpl length; lia).
Qed.

(** The stream ends on a quiet stretch: the open segment is the last closed
    one, with a trailing buffer that the frame count may cut. *)
Lemma closed_after_idle idx fs t seg :
  all_idle skip idx fs = true -> current_segment t = Some seg ->
  exists e',
    segments (close_final B total (track_frames skip B idx fs t)) =
      segments t ++ [mkSegment (start seg) e' (motion seg) (objects seg)]
    /\ (e' = end_ seg + B \/ e' = Z.min (end_ seg + B) (total - 1)).
Proof.
  intros Hq Hc. destruct (idle_open_cases skip B idx fs t seg Hq Hc) as [-> | ->].
  - exists (Z.min (end_ seg + B) (total - 1)). unfold close_final. rewrite Hc. simpl. auto.
  - exists (end_ seg + B). simpl. auto.
Qed.

Lemma merge_one s : merge_segments [s] = [s].
Proof. reflexivity. Qed.

Lemma merge_two s1 s2 :
  start s1 <= start s2 ->
  merge_segments [s1; s2] = if start s2 <=? end_ s1 then [absorb s1 s2] else [s1; s2].
Proof.
  intros Hle. rewrite merge_segments_coalesce. simpl.
  apply Z.leb_le in Hle. rewrite Hle. simpl. by destruct (start s2 <=? end_ s1).
Qed.

(** A gap whose last frame is not analysed acts as the gap without it. *)
Lemma track_frames_unanalysed_last idx fs f t :
  analysed skip (idx + Z.of_nat (length fs)) = false ->
  track_frames skip B idx (fs ++ [f]) t = track_frames skip B idx fs t.
Proof.
  intros Hna. rewrite track_frames_app. simpl. unfold track_frame. by rewrite Hna.
Qed.

Variables pre b1 gap b2 post : list Frame.
Hypothesis HB : 0 <= B.
Hypothesis Hok : two_bursts_ok skip pre b1 gap b2 post = true.

Let i1 := Z.of_nat (length pre).
Let i2 := i1 + Z.of_nat (length b1).
Let i3 := i2 + Z.of_nat (length gap).
Let i4 := i3 + Z.of_nat (length b2).

Lemma two_bursts_parts :
  all_idle skip 0 pre = true /\ burst skip i1 b1 = true /\ all_idle skip i2 gap = true
  /\ burst skip i3 b2 = true /\ all_idle skip i4 post = true.
Proof.
  unfold two_bursts_ok in Hok. fold i1 i2 i3 i4 in Hok.
  repeat (apply andb_true_iff in Hok as [Hok ?]). done.
Qed.

Lemma burst_nonempty idx fs : burst skip idx fs = true -> (0 < length fs)%nat.
Proof.
  unfold burst. intros Hb. repeat (apply andb_true_iff in Hb as [Hb ?]).
  destruct fs; [done|simpl; lia].
Qed.

(** The builder after the first burst. *)
Lemma after_first_burst :
  exists seg1,
    track_frames skip B 0 (pre ++ b1) idle = mkTracking [] (Some seg1) 0
    /\ start seg1 = Z.max 0 (i1 - B) /\ end_ seg1 = i2 - 1.
Proof.
  destruct two_bursts_parts as (Hpre & Hb1 & _).
  rewrite track_frames_app, (idle_stays_idle skip B 0 pre idle Hpre eq_refl).
  destruct (burst_opens skip B (0 + i1) b1 idle Hb1 eq_refl) as (seg1 & Hrun & Hs & He).
  exists seg1. repeat split; [exact Hrun|rewrite Hs; f_equal; lia|rewrite He; unfold i2; lia].
Qed.

(** A gap within the buffer: one segment. *)
Lemma gap_within_buffer :
  Z.of_nat (length gap) <= B ->
  exists s, closed_segments skip B total (two_bursts pre b1 gap b2 post) = [s].
Proof.
  intros Hg. destruct two_bursts_parts as (Hpre & Hb1 & Hgap & Hb2 & Hpost).
  destruct after_first_burst as (seg1 & Hrun1 & Hs1 & He1).
  unfold closed_segments, two_bursts.
  rewrite app_assoc, track_frames_app, Hrun1.
  rewrite track_frames_app.
  assert (Hi2 : 0 + Z.of_nat (length (pre ++ b1)) = i2)
    by (rewrite length_app; unfold i2, i1; lia).
  rewrite Hi2.
  rewrite (idle_within_buffer skip B i2 gap _ seg1); [|done|done|rewrite He1; lia].
  fold i3.
  destruct (burst_extends skip B i3 b2 (mkTracking [] (Some seg1) 0) seg1 Hb2 eq_refl)
    as (seg2 & Hrun2 & Hs2 & He2).
  simpl in Hrun2. rewrite track_frames_app, Hrun2. fold i4.
  destruct (closed_after_idle i4 post (mkTracking [] (Some seg2) 0) seg2 Hpost eq_refl)
    as (e' & Hfin & _).
  rewrite Hfin. simpl. eauto.
Qed.

(** A gap beyond the buffer whose last frame is analysed: the builder closes
    the first segment there and opens a second one for the second burst. *)
Lemma gap_beyond_buffer :
  B < Z.of_nat (length gap) -> analysed skip (i3 - 1) = true ->
  exists s1 s2,
    closed_segments skip B total (two_bursts pre b1 gap b2 post) = [s1; s2]
    /\ start s1 = Z.max 0 (i1 - B) /\ end_ s1 = i2 - 1 + B
    /\ start s2 = i3 - B.
Proof.
  intros Hg Hlast. destruct two_bursts_parts as (Hpre & Hb1 & Hgap & Hb2 & Hpost).
  destruct after_first_burst as (seg1 & Hrun1 & Hs1 & He1).
  unfold closed_segments, two_bursts.
  rewrite app_assoc, track_frames_app, Hrun1.
  rewrite track_frames_app.
  assert (Hi2 : 0 + Z.of_nat (length (pre ++ b1)) = i2)
    by (rewrite length_app; unfold i2, i1; lia).
  rewrite Hi2.
  rewrite (idle_beyond_buffer skip B i2 gap _ seg1); [|done|done| | |].
  2:{ destruct gap; [simpl in Hg; lia|done]. }
  2:{ by replace (i2 + Z.of_nat (length gap) - 1) with (i3 - 1) by (unfold i3; lia). }
  2:{ rewrite He1. lia. }
  rewrite track_frames_app. fold i3.
  destruct (burst_opens skip B i3 b2 (closed_by_gap B (mkTracking [] (Some seg1) 0) seg1))
    as (seg2 & Hrun2 & Hs2 & He2); [done|done|].
  simpl in Hrun2. rewrite Hrun2. fold i4.
  destruct (closed_after_idle i4 post
              (mkTracking [mkSegment (start seg1) (end_ seg1 + B) (motion seg1) (objects seg1)]
                 (Some seg2) 1) seg2 Hpost eq_refl)
    as (e' & Hfin & _).
  rewrite Hfin. simpl. eexists _, _. split; [reflexivity|]. simpl.
  repeat split; [done|lia|]. rewrite Hs2. pose proof (burst_nonempty _ _ Hb1). lia.
Qed.

(** The number of closed and of merged segments, by the length of the gap. *)
Lemma two_bursts_count :
  (Z.of_nat (length gap) <= B ->
     length (closed_segments skip B total (two_bursts pre b1 gap b2 post)) = 1%nat
     /\ length (merged_segments skip B total (two_bursts pre b1 gap b2 post)) = 1%nat)
  /\ (B < Z.of_nat (length gap) -> analysed skip (i3 - 1) = true ->
     length (closed_segments skip B total (two_bursts pre b1 gap b2 post)) = 2%nat
     /\ length (merged_segments skip B total (two_bursts pre b1 gap b2 post)) =
        if Z.of_nat (length gap) <? 2 * B then 1%nat else 2%nat).
Proof.
  split.
  - intros Hg. destruct (gap_within_buffer Hg) as (s & Hs).
    unfold merged_segments. by rewrite Hs.
  - intros Hg Hlast. destruct (gap_beyond_buffer Hg Hlast) as (s1 & s2 & Hs & Hs1 & He1 & Hs2).
    unfold merged_segments. rewrite Hs. split; [done|].
    rewrite merge_two by (unfold i3 in Hs2; lia).
    destruct (start s2 <=? end_ s1) eqn:Hm; destruct (Z.of_nat (length gap) <? 2 * B) eqn:Hc;
      try done.
    + apply Z.leb_le in Hm. apply Z.ltb_ge in Hc. unfold i3 in Hs2. lia.
    + apply Z.leb_gt in Hm. apply Z.ltb_lt in Hc. unfold i3 in Hs2. lia.
Qed.

(** A gap of one frame more than the buffer whose last frame is not
    analysed is not seen as beyond the buffer. *)
Lemma gap_unseen :
  Z.of_nat (length gap) = B + 1 -> analysed skip (i3 - 1) = false ->
  exists s, closed_segments skip B total (two_bursts pre b1 gap b2 post) = [s].
Proof.
  intros Hg Hlast. destruct two_bursts_parts as (Hpre & Hb1 & Hgap & Hb2 & Hpost).
  destruct after_first_burst as (seg1 & Hrun1 & Hs1 & He1).
  destruct (exists_last (l := gap)) as (gap' & f & Hgap'); [destruct gap; [simpl in Hg; lia|done]|].
  assert (Hlen : Z.of_nat (length gap) = Z.of_nat (length gap') + 1)
    by (rewrite Hgap', length_app; simpl; lia).
  unfold closed_segments, two_bursts.
  rewrite app_assoc, track_frames_app, Hrun1.
  rewrite track_frames_app.
  assert (Hi2 : 0 + Z.of_nat (length (pre ++ b1)) = i2)
    by (rewrite length_app; unfold i2, i1; lia).
  rewrite Hi2.
  assert (Hgaprun : track_frames skip B i2 gap (mkTracking [] (Some seg1) 0)
                    = mkTracking [] (Some seg1) 0).
  { rewrite Hgap'. rewrite track_frames_unanalysed_last.
    - apply (idle_within_buffer skip B i2 gap' _ seg1); [|done|rewrite He1; lia].
      rewrite Hgap', all_idle_app in Hgap. by apply andb_true_iff in Hgap as [? _].
    - by replace (i2 + Z.of_nat (length gap')) with (i3 - 1) by (unfold i3; lia). }
  rewrite Hgaprun, track_frames_app. fold i3.
  destruct (burst_extends skip B i3 b2 (mkTracking [] (Some seg1) 0) seg1 Hb2 eq_refl)
    as (seg2 & Hrun2 & Hs2 & He2).
  simpl in Hrun2. rewrite Hrun2. fold i4.
  destruct (closed_after_idle i4 post (mkTracking [] (Some seg2) 0) seg2 Hpost eq_refl)
    as (e' & Hfin & _).
  rewrite Hfin. simpl. eauto.
Qed.

End Bursts.

(** C1 (amended). Two bursts with a quiet gap between them, in a stream
    quiet before and after.  A gap of exactly [B] frames gives one closed
    segment and one merged segment.  A gap of [B + 1] frames is seen by the
    builder when its last frame is analysed, as it always is at stride one:
    the builder then closes two segments, and the merge keeps them apart only
    when [B < 2]; from [B = 2] on their buffers meet and the final merged
    list has one segment. *)
Theorem burst_gap_segments (skip B total : Z) (pre b1 gap b2 post : list Video.Frame) :
  0 <= B ->
  Stream.two_bursts_ok skip pre b1 gap b2 post = true ->
  let fs := Stream.two_bursts pre b1 gap b2 post in
  let last_gap_frame :=
    Z.of_nat (length pre) + Z.of_nat (length b1) + Z.of_nat (length gap) - 1 in
  (Z.of_nat (length gap) = B ->
     length (Video.closed_segments skip B total fs) = 1%nat
     /\ length (Video.merged_segments skip B total fs) = 1%nat)
  /\ (Z.of_nat (length gap) = B + 1 ->
     length (Video.closed_segments skip B total fs) =
       (if Video.analysed skip last_gap_frame then 2%nat else 1%nat)
     /\ length (Video.merged_segments skip B total fs) =
       (if Video.analysed skip last_gap_frame && (B <? 2) then 2%nat else 1%nat)).
Proof.
  intros HB Hok fs last_gap_frame.
  destruct (two_bursts_count skip B total pre b1 gap b2 post HB Hok) as [Hin Hout].
  split.
  - intros Hg. apply Hin. lia.
  - intros Hg. subst fs. destruct (Video.analysed skip last_gap_frame) eqn:Hlast.
    + destruct Hout as [Hc Hm]; [lia|exact Hlast|].
      split; [exact Hc|]. rewrite Hm. simpl.
      destruct (Z.of_nat (length gap) <? 2 * B) eqn:H1; destruct (B <? 2) eqn:H2; try done.
      * apply Z.ltb_lt in H1, H2. lia.
      * apply Z.ltb_ge in H1, H2. lia.
    + destruct (gap_unseen skip B total pre b1 gap b2 post HB Hok Hg Hlast) as (s & Hs).
      unfold Video.merged_segments. rewrite Hs. done.
Qed.

Lemma burst_gap_segments_witness :
  length (Video.merged_segments 1 2 5
            (Stream.two_bursts [] [Stream.moving]
               [Stream.quiet; Stream.quiet; Stream.quiet] [Stream.moving] [])) = 1%nat.
Proof.
  exact (proj2 (proj2 (burst_gap_segments 1 2 5 [] [Stream.moving]
    [Stream.quiet; Stream.quiet; Stream.quiet] [Stream.moving] [] ltac:(lia) eq_refl) eq_refl)).
Defined.

(** C1 as stated fails.  One frame per second, [buffer_seconds = 2] and
    [skip_frames = 1] give a stride of one and a buffer of two frames.  Two
    single-frame bursts with three quiet frames between them, a gap of
    [bufferFrames + 1], leave the builder with the closed segments [0, 2]
    and [2, 4], and the final merged list with the one segment [0, 4]: one
    clip is cut, not two. *)
Lemma gap_plus_one_counterexample :
  Video.adaptive_skip_frames true 1 1 = 1
  /\ Video.buffer_frames 2 1 = 2
  /\ Stream.two_bursts_ok 1 [] [Stream.moving] [Stream.quiet; Stream.quiet; Stream.quiet]
       [Stream.moving] [] = true
  /\ Z.of_nat (length [Stream.quiet; Stream.quiet; Stream.quiet]) = 2 + 1
  /\ Video.closed_segments 1 2 5
       (Stream.two_bursts [] [Stream.moving] [Stream.quiet; Stream.quiet; Stream.quiet]
          [Stream.moving] [])
     = [Video.mkSegment 0 2 true false; Video.mkSegment 2 4 true false]
  /\ Video.merged_segments 1 2 5
       (Stream.two_bursts [] [Stream.moving] [Stream.quiet; Stream.quiet; Stream.quiet]
          [Stream.moving] [])
     = [Video.mkSegment 0 4 true false]
  /\ length (Video.merged_segments 1 2 5
       (Stream.two_bursts [] [Stream.moving] [Stream.quiet; Stream.quiet; Stream.quiet]
          [Stream.moving] [])) <> 2%nat
  /\ snd (Video.process_video
            (Some (Video.mkCapture 1 5
                     (Stream.two_bursts [] [Stream.moving]
                        [Stream.quiet; Stream.quiet; Stream.quiet] [Stream.moving] [])))
            "v" "out" (Video.mkConfig 2 1 true) false (fun _ _ _ => true))
     = inr [Video.mkClip "out/v_seg001_00000_00004_mot.mp4" 0%Q 4%Q 4%Q 0 1].
Proof. repeat split; vm_compute; congruence. Qed.

(** ** A single active frame *)

Section SingleFrame.

Import Video Stream.

Lemma all_idle_lookup skip idx (fs : list Frame) :
  (forall i g, fs !! i = Some g ->
     analysed skip (idx + Z.of_nat i) = true -> active skip (idx + Z.of_nat i) g = false) ->
  all_idle skip idx fs = true.
Proof.
  revert idx. induction fs as [|f fs IH]; intros idx H; simpl; [done|].
  apply andb_true_iff. split.
  - specialize (H 0%nat f eq_refl). rewrite Z.add_0_r in H.
    destruct (analysed skip idx); [|done]. simpl. by rewrite H.
  - apply IH. intros i g Hi. specialize (H (S i) g Hi).
    by replace (idx + 1 + Z.of_nat i) with (idx + Z.of_nat (S i)) by lia.
Qed.

(** C2. The only analysed frame that shows activity is frame 100;
    [buffer_seconds = 5] and [fps = 10] give a buffer of 50 frames; the
    frame count is at least 151.  Then the builder closes exactly one
    segment, from 50 to 150, and the merge leaves it alone. *)
Theorem single_frame_segment (skip total : Z) (fs : list Frame) (f : Frame) :
  fs !! 100%nat = Some f ->
  analysed skip 100 = true ->
  active skip 100 f = true ->
  (forall i g, i <> 100%nat -> fs !! i = Some g ->
     analysed skip (Z.of_nat i) = true -> active skip (Z.of_nat i) g = false) ->
  151 <= total ->
  buffer_frames 5 10 = 50
  /\ closed_segments skip (buffer_frames 5 10) total fs =
       [mkSegment 50 150 (motion_detected f) (objects_detected skip 100 f)]
  /\ merged_segments skip (buffer_frames 5 10) total fs =
       [mkSegment 50 150 (motion_detected f) (objects_detected skip 100 f)].
Proof.
  intros Hf Han Hact Hrest Htotal.
  assert (HB : buffer_frames 5 10 = 50) by reflexivity.
  rewrite HB. split; [done|].
  assert (Hclosed : closed_segments skip 50 total fs =
            [mkSegment 50 150 (motion_detected f) (objects_detected skip 100 f)]).
  { unfold closed_segments.
    rewrite <- (take_drop_middle fs 100 f Hf).
    assert (Hlen : length (take 100 fs) = 100%nat).
    { rewrite length_take. apply lookup_lt_Some in Hf. lia. }
    rewrite track_frames_app, Hlen.
    rewrite (idle_stays_idle skip 50 0 (take 100 fs) idle); [|apply all_idle_lookup|done].
    2:{ intros i g Hi. apply lookup_take_Some in Hi as [Hi Hlt]. simpl.
        apply Hrest; [lia|done]. }
    change (track_frames skip 50 (0 + Z.of_nat 100) (f :: drop 101 fs) idle)
      with (track_frames skip 50 101 (drop 101 fs) (track_frame skip 50 100 f idle)).
    assert (Ht : track_frame skip 50 100 f idle =
              mkTracking [] (Some (mkSegment 50 100 (motion_detected f)
                                     (objects_detected skip 100 f))) 0).
    { unfold track_frame, track. unfold active in Hact. rewrite Han, Hact. done. }
    rewrite Ht.
    destruct (closed_after_idle skip 50 total 101 (drop 101 fs)
                (mkTracking [] (Some (mkSegment 50 100 (motion_detected f)
                                        (objects_detected skip 100 f))) 0)
                (mkSegment 50 100 (motion_detected f) (objects_detected skip 100 f)))
      as (e' & Hfin & He'); [|done|].
    - apply all_idle_lookup. intros i g Hi. rewrite lookup_drop in Hi.
      replace (101 + Z.of_nat i) with (Z.of_nat (101 + i)) by lia.
      apply Hrest; [lia|done].
    - rewrite Hfin. simpl in *. do 2 f_equal. lia. }
  split; [exact Hclosed|].
  unfold merged_segments. rewrite Hclosed. reflexivity.
Qed.

End SingleFrame.

Lemma single_frame_segment_witness :
  Video.merged_segments 5 (Video.buffer_frames 5 10) 151
    (replicate 100 Stream.quiet ++ [Stream.moving])
  = [Video.mkSegment 50 150 true false].
Proof.
  refine (proj2 (proj2 (single_frame_segment 5 151
    (replicate 100 Stream.quiet ++ [Stream.moving])
    Stream.moving eq_refl eq_refl eq_refl _ ltac:(lia)))).
  intros i g Hne Hi _.
  destruct (decide (i < 100)%nat) as [Hlt|Hge].
  - rewrite lookup_app_l in Hi by (rewrite length_replicate; lia).
    apply lookup_replicate in Hi as [-> _].
    unfold Stream.active, Video.objects_detected. simpl. apply andb_false_r.
  - rewrite lookup_ge_None_2 in Hi; [done|].
    rewrite length_app, length_replicate. simpl. lia.
Defined.

(** ** The frame sampler *)

Section Sampler.

Lemma Qltb_lt a b : Py.Qltb a b = true <-> (a < b)%Q.
Proof.
  unfold Py.Qltb. rewrite negb_true_iff, <- not_true_iff_false, Qle_bool_iff.
  split; [apply Qnot_le_lt|apply Qlt_not_le].
Qed.

Lemma Qltb_ge a b : Py.Qltb a b = false <-> (b <= a)%Q.
Proof. unfold Py.Qltb. by rewrite negb_false_iff, Qle_bool_iff. Qed.

Lemma int_inject (z : Z) : Py.int (inject_Z z) = z.
Proof. unfold Py.int. simpl. apply Z.quot_1_r. Qed.



Lemma int_below_one (x : Q) : (x < 1)%Q -> Py.int x <= 0.
Proof.
  destruct x as [n d]. unfold Qlt, Py.int. simpl. intros Hn.
  destruct (Z_lt_le_dec n 0) as [Hneg|Hpos].
  - apply Z.quot_le_upper_bound; lia.
  - rewrite Z.quot_small; lia.
Qed.

Lemma int_from_one (x : Q) : (1 <= x)%Q -> 1 <= Py.int x.
Proof.
  destruct x as [n d]. unfold Qle, Py.int. simpl. intros Hn.
  apply Z.quot_le_lower_bound; lia.
Qed.

(** The stride of the sources is the formula of the specification cut to an
    integer. *)
Lemma adaptive_skip_int (fps : Q) (S : Z) :
  Video.adaptive_skip_frames true fps S = Py.int (Spec.effective_stride fps S).
Proof.
  unfold Video.adaptive_skip_frames, Spec.effective_stride.
  destruct (Py.Qltb 30 fps); [done|].
  destruct (Py.Qltb fps 15); [|by rewrite int_inject].
  destruct (Py.Qltb (inject_Z S * (fps / 30)) 1) eqn:Hs.
  - apply Qltb_lt in Hs. pose proof (int_below_one _ Hs).
    change (Py.int 1) with 1. lia.
  - apply Qltb_ge in Hs. pose proof (int_from_one _ Hs). lia.
Qed.

(** On the cases that the statements below evaluate, binary64 gives what
    the rationals give. *)
Lemma binary64_agrees :
  F64.adaptive_skip_frames true (F64.of_Z 60) 15 = Video.adaptive_skip_frames true 60 15
  /\ F64.adaptive_skip_frames true (F64.of_Z 10) 15 = Video.adaptive_skip_frames true 10 15
  /\ F64.adaptive_skip_frames true (F64.of_Z 24) 15 = Video.adaptive_skip_frames true 24 15
  /\ F64.adaptive_skip_frames true (F64.of_Z 50) 10 = Video.adaptive_skip_frames true 50 10
  /\ F64.adaptive_skip_frames true (F64.of_Z 1) 1 = Video.adaptive_skip_frames true 1 1
  /\ F64.buffer_frames (F64.of_Z 5) (F64.of_Z 10) = Video.buffer_frames 5 10
  /\ F64.buffer_frames (F64.of_Z 2) (F64.of_Z 1) = Video.buffer_frames 2 1
  /\ F64.seconds 50 (F64.of_Z 10) = Py.int (inject_Z 50 / 10)
  /\ F64.seconds 150 (F64.of_Z 10) = Py.int (inject_Z 150 / 10).
Proof. repeat split; vm_compute; reflexivity. Qed.

End Sampler.



(** ** Clip names *)

Section ClipNames.

Import Video.

Lemma append_assoc (x y z : string) : ((x +:+ y) +:+ z = x +:+ (y +:+ z))%string.
Proof.
  induction x as [|ch x IH]; [reflexivity|].
  change (String ch ((x +:+ y) +:+ z) = String ch (x +:+ (y +:+ z)))%string.
  by rewrite IH.
Qed.

Lemma remove_char_app c (a b : string) :
  Py.remove_char c (a +:+ b) = (Py.remove_char c a +:+ Py.remove_char c b)%string.
Proof.
  induction a as [|x a IH]; simpl; [done|].
  destruct (Ascii.eqb x c); simpl; by rewrite IH.
Qed.

(** Decimal digits, and so the numbers of a time stamp, hold no colon. *)
Lemma uint_no_colon d :
  Py.remove_char ":" (NilEmpty.string_of_uint d) = NilEmpty.string_of_uint d.
Proof. induction d; simpl; by rewrite ?IHd. Qed.

Lemma str_Z_no_colon n : 0 <= n -> Py.remove_char ":" (Py.str_Z n) = Py.str_Z n.
Proof.
  intros Hn. unfold Py.str_Z. destruct n as [|p|p]; [done| |lia].
  simpl. apply uint_no_colon.
Qed.

Lemma zeros_no_colon k : Py.remove_char ":" (Py.zeros k) = Py.zeros k.
Proof. induction k as [|k IH]; simpl; by rewrite ?IH. Qed.

Lemma zfill_no_colon w n : 0 <= n -> Py.remove_char ":" (Py.zfill w n) = Py.zfill w n.
Proof.
  intros Hn. unfold Py.zfill. by rewrite remove_char_app, zeros_no_colon, str_Z_no_colon.
Qed.

(** Within a day, [str(timedelta(...))] without its colons is [hmmss]. *)
Lemma timedelta_hmmss t :
  0 <= t < 86400 -> Py.remove_char ":" (Py.timedelta_str t) = hmmss t.
Proof.
  intros Ht. unfold Py.timedelta_str, hmmss.
  rewrite (Z.div_small t 86400), (Z.mod_small t 86400) by lia. simpl (0 =? 0).
  rewrite Z.div_div by lia. change (60 * 60) with 3600.
  assert (0 <= t / 3600) by (apply Z.div_pos; lia).
  assert (0 <= (t / 60) mod 60) by (apply Z.mod_pos_bound; lia).
  assert (0 <= t mod 60) by (apply Z.mod_pos_bound; lia).
  rewrite !remove_char_app, str_Z_no_colon, !zfill_no_colon by done.
  reflexivity.
Qed.

Lemma time_str_hmmss (x : Q) :
  0 <= Py.int x < 86400 -> time_str x = hmmss (Py.int x).
Proof. apply timedelta_hmmss. Qed.

(** One digit of hours under ten hours, two from ten hours on. *)
Lemma zfill2_one_digit h : 0 <= h < 10 -> Py.zfill 2 h = String "0" (Py.str_Z h).
Proof.
  intros Hh.
  assert (h = 0 \/ h = 1 \/ h = 2 \/ h = 3 \/ h = 4 \/ h = 5 \/ h = 6 \/ h = 7 \/ h = 8 \/ h = 9)
    as Hcases by lia.
  repeat (destruct Hcases as [-> | Hcases]; [reflexivity|]). by subst.
Qed.

Lemma zfill2_two_digits h : 10 <= h < 24 -> Py.zfill 2 h = Py.str_Z h.
Proof.
  intros Hh.
  assert (h = 10 \/ h = 11 \/ h = 12 \/ h = 13 \/ h = 14 \/ h = 15 \/ h = 16 \/ h = 17
          \/ h = 18 \/ h = 19 \/ h = 20 \/ h = 21 \/ h = 22 \/ h = 23) as Hcases by lia.
  repeat (destruct Hcases as [-> | Hcases]; [reflexivity|]). by subst.
Qed.

Lemma hmmss_short t : 0 <= t < 36000 -> String "0" (hmmss t) = Spec.hhmmss t.
Proof.
  intros Ht. unfold hmmss, Spec.hhmmss. rewrite (zfill2_one_digit (t / 3600)); [reflexivity|].
  split; [apply Z.div_pos; lia|apply Z.div_lt_upper_bound; lia].
Qed.

Lemma hmmss_long t : 36000 <= t < 86400 -> hmmss t = Spec.hhmmss t.
Proof.
  intros Ht. unfold hmmss, Spec.hhmmss. rewrite (zfill2_two_digits (t / 3600)); [reflexivity|].
  split; [apply Z.div_le_lower_bound; lia|apply Z.div_lt_upper_bound; lia].
Qed.

(** The name of a clip with the time stamps spelled out. *)
Lemma clip_file_name_hmmss video_name i fps seg :
  0 <= Py.int (inject_Z (start seg) / fps) < 86400 ->
  0 <= Py.int (inject_Z (end_ seg) / fps) < 86400 ->
  clip_file_name video_name i fps seg =
    (video_name +:+ "_seg" +:+ Py.zfill 3 (Z.of_nat i + 1)
       +:+ "_" +:+ hmmss (Py.int (inject_Z (start seg) / fps))
       +:+ "_" +:+ hmmss (Py.int (inject_Z (end_ seg) / fps))
       +:+ (if objects seg then "_obj" else EmptyString)
       +:+ (if motion seg then "_mot" else EmptyString) +:+ ".mp4")%string.
Proof.
  intros Hs He. unfold clip_file_name, segment_name.
  rewrite (time_str_hmmss _ Hs), (time_str_hmmss _ He).
  generalize (hmmss (Py.int (inject_Z (start seg) / fps))).
  generalize (hmmss (Py.int (inject_Z (end_ seg) / fps))).
  generalize (Py.zfill 3 (Z.of_nat i + 1)).
  intros a b c.
  by rewrite !append_assoc.
Qed.

(** From ten hours to a day the name is the pattern of the specification,
    with [mp4] for the extension. *)
Lemma clip_file_name_long video_name i fps seg :
  36000 <= Py.int (inject_Z (start seg) / fps) < 86400 ->
  36000 <= Py.int (inject_Z (end_ seg) / fps) < 86400 ->
  clip_file_name video_name i fps seg =
    Spec.clip_file_name video_name (Z.of_nat i + 1)
      (Py.int (inject_Z (start seg) / fps)) (Py.int (inject_Z (end_ seg) / fps))
      (objects seg) (motion seg) "mp4".
Proof.
  intros Hs He. rewrite clip_file_name_hmmss by lia.
  rewrite (hmmss_long _ Hs), (hmmss_long _ He). unfold Spec.clip_file_name.
  rewrite ?append_assoc. reflexivity.
Qed.

(** The extraction loop names clip number [i] after segment number [i]. *)
Lemma extract_from_clips cut video_name output_dir fps i0 merged clip :
  clip ∈ snd (extract_from cut video_name output_dir fps i0 merged) ->
  exists k seg,
    merged !! k = Some seg
    /\ filename clip = Py.path_join output_dir (clip_file_name video_name (i0 + k) fps seg)
    /\ clip_objects clip = (if objects seg then 1 else 0)
    /\ clip_motion clip = (if motion seg then 1 else 0).
Proof.
  revert i0. induction merged as [|seg rest IH]; intros i0; simpl.
  - intros H. by apply elem_of_nil in H.
  - destruct (extract_segment cut video_name output_dir fps i0 seg) as [ev c] eqn:Hseg.
    destruct (extract_from cut video_name output_dir fps (S i0) rest) as [evs cs] eqn:Hrest.
    simpl. intros Hin.
    assert (Htail : clip ∈ cs ->
      exists k seg', (seg :: rest) !! k = Some seg'
        /\ filename clip = Py.path_join output_dir (clip_file_name video_name (i0 + k) fps seg')
        /\ clip_objects clip = (if objects seg' then 1 else 0)
        /\ clip_motion clip = (if motion seg' then 1 else 0)).
    { intros Hcs. specialize (IH (S i0)). rewrite Hrest in IH.
      destruct (IH Hcs) as (k & seg' & Hk & Hname & Ho & Hm).
      exists (S k), seg'. repeat split; try done.
      by replace (i0 + S k)%nat with (S i0 + k)%nat by lia. }
    destruct c as [c|]; [|by apply Htail].
    apply elem_of_cons in Hin as [-> | Hin]; [|by apply Htail].
    exists 0%nat, seg. rewrite Nat.add_0_r. split; [done|].
    unfold extract_segment in Hseg.
    destruct (Qeq_bool fps 0); [done|].
    destruct (Py.Qltb _ 1); [done|].
    destruct (cut _ _ _); [|done].
    by injection Hseg as _ <-.
Qed.

(** The builder inside the loop of [process_video] is the builder alone. *)
Lemma loop_frames_tracking has_callback skip B total idx fs st :
  tracking (loop_frames has_callback skip B total idx fs st) =
  track_frames skip B idx fs (tracking st).
Proof.
  revert idx st. induction fs as [|f fs IH]; intros idx st; simpl; [done|].
  rewrite IH. f_equal. unfold loop_frame, track_frame.
  by destruct (analysed skip idx).
Qed.

(** The clips that [process_video] returns are cut from the merged segments
    of the video. *)
Lemma process_video_clips v video_name output_dir config has_callback cut tr clips :
  process_video (Some v) video_name output_dir config has_callback cut = (tr, inr clips) ->
  clips = snd (extract_from cut video_name output_dir (fps v) 0
                 (merged_segments
                    (adaptive_skip_frames (adaptive_skip config) (fps v) (skip_frames config))
                    (buffer_frames (buffer_seconds config) (fps v))
                    (total_frames v) (frames v))).
Proof.
  unfold process_video.
  destruct (adaptive_skip_frames _ _ _ =? 0); [done|].
  destruct (negb _ && _); [done|].
  rewrite loop_frames_tracking. simpl tracking.
  unfold merged_segments, closed_segments.
  destruct (extract_from _ _ _ _ _ _) as [evs cs]. simpl.
  by intros [= _ <-].
Qed.

End ClipNames.

(** C7 (amended). Every clip that [process_video] returns is named after a
    merged segment and its position [i] in the merged list: the file is
    [{video_name}_seg{i+1:03d}_{start}_{end}[_obj][_mot].mp4] in the output
    directory, [_obj] and [_mot] following the flags of the segment.  A time
    stamp within a day is the hours as they are, then minutes and seconds on
    two digits: five characters under ten hours (the six-digit stamp without
    its leading zero), six from ten hours on, where the name is the pattern
    of the specification with the extension [mp4]. *)
Theorem clip_file_name_format (v : Video.Capture) (video_name output_dir : string)
    (config : Video.Config) (has_callback : bool) (cut : string -> Q -> Q -> bool)
    (tr : list Video.Event) (clips : list Video.Clip) (clip : Video.Clip) :
  Video.process_video (Some v) video_name output_dir config has_callback cut = (tr, inr clips) ->
  clip ∈ clips ->
  exists (i : nat) (seg : Video.Segment),
    Video.merged_segments
      (Video.adaptive_skip_frames (Video.adaptive_skip config) (Video.fps v)
         (Video.skip_frames config))
      (Video.buffer_frames (Video.buffer_seconds config) (Video.fps v))
      (Video.total_frames v) (Video.frames v) !! i = Some seg
    /\ Video.filename clip =
         Py.path_join output_dir (Video.clip_file_name video_name i (Video.fps v) seg)
    /\ Video.clip_objects clip = (if Video.objects seg then 1 else 0)
    /\ Video.clip_motion clip = (if Video.motion seg then 1 else 0)
    /\ let s := Py.int (inject_Z (Video.start seg) / Video.fps v) in
       let e := Py.int (inject_Z (Video.end_ seg) / Video.fps v) in
       (0 <= s < 86400 -> 0 <= e < 86400 ->
        Video.clip_file_name video_name i (Video.fps v) seg =
          (video_name +:+ "_seg" +:+ Py.zfill 3 (Z.of_nat i + 1)
             +:+ "_" +:+ hmmss s +:+ "_" +:+ hmmss e
             +:+ (if Video.objects seg then "_obj" else EmptyString)
             +:+ (if Video.motion seg then "_mot" else EmptyString) +:+ ".mp4")%string)
       /\ (0 <= s < 36000 -> String "0" (hmmss s) = Spec.hhmmss s)
       /\ (0 <= e < 36000 -> String "0" (hmmss e) = Spec.hhmmss e)
       /\ (36000 <= s < 86400 -> 36000 <= e < 86400 ->
           Video.clip_file_name video_name i (Video.fps v) seg =
             Spec.clip_file_name video_name (Z.of_nat i + 1) s e
               (Video.objects seg) (Video.motion seg) "mp4").
Proof.
  intros Hrun Hin.
  rewrite (process_video_clips _ _ _ _ _ _ _ _ Hrun) in Hin.
  destruct (extract_from_clips _ _ _ _ _ _ _ Hin) as (k & seg & Hk & Hname & Ho & Hm).
  exists k, seg. simpl in Hname.
  repeat split; try done.
  - apply clip_file_name_hmmss.
  - apply hmmss_short.
  - apply hmmss_short.
  - apply clip_file_name_long.
Qed.

(** ** The processing log *)

Section ProcessingLog.

Import CsvLogger.

Lemma truthy_nonempty s : Py.truthy s = true <-> s <> EmptyString.
Proof. destruct s; simpl; split; congruence. Qed.

Lemma truthy_empty s : Py.truthy s = false <-> s = EmptyString.
Proof. destruct s; simpl; split; congruence. Qed.

Lemma string_eqb_refl s : String.eqb s s = true.
Proof. by apply String.eqb_eq. Qed.

Section Reading.

Variable json_loads : string -> option (list string).

(** The dictionary read from the file holds, under each name, the last row
    of that name. *)
Lemma fold_insert_lookup rows (d : gmap string Entry) file :
  fold_left (fun processed_files row => <[filename row := entry_of_row json_loads row]> processed_files)
    rows d !! file =
  match record_of rows file with
  | Some r => Some (entry_of_row json_loads r)
  | None => d !! file
  end.
Proof.
  revert d. induction rows as [|row rows IH]; intros d; simpl; [done|].
  rewrite IH. destruct (record_of rows file) as [r|]; [done|].
  destruct (String.eqb (filename row) file) eqn:Heq.
  - apply String.eqb_eq in Heq. subst. by rewrite lookup_insert_eq.
  - apply String.eqb_neq in Heq. by rewrite lookup_insert_ne.
Qed.

Lemma read_rows_lookup rows file :
  read_rows json_loads rows !! file = entry_of_row json_loads <$> record_of rows file.
Proof.
  unfold read_rows. rewrite fold_insert_lookup.
  destruct (record_of rows file); [done|]. by rewrite lookup_empty.
Qed.

Lemma add_new_file_eq (d : gmap string Entry) rows p :
  add_new_file (d, rows) p =
  match d !! Py.basename p with
  | Some _ => (d, rows)
  | None =>
      (<[Py.basename p :=
           mkEntry (Py.basename p) EmptyString EmptyString EmptyString (Cell EmptyString)]> d,
       rows ++ [empty_row (Py.basename p)])
  end.
Proof. reflexivity. Qed.

Lemma fold_add_new_file_cons p ps acc :
  fold_left add_new_file (p :: ps) acc = fold_left add_new_file ps (add_new_file acc p).
Proof. reflexivity. Qed.

(** Adding the new files keeps the entries that are there, and gives any
    other name no entry or an empty one. *)
Lemma add_new_files_known video_files (d : gmap string Entry) rows file e :
  d !! file = Some e ->
  fst (fold_left add_new_file video_files (d, rows)) !! file = Some e.
Proof.
  revert d rows. induction video_files as [|p ps IH]; intros d rows Hd; [done|].
  rewrite fold_add_new_file_cons, add_new_file_eq.
  destruct (d !! Py.basename p) eqn:Hp; [by apply IH|].
  apply IH. rewrite lookup_insert_ne; [done|]. intros Heq. rewrite Heq in Hp. congruence.
Qed.

Lemma add_new_files_unknown video_files (d : gmap string Entry) rows file :
  d !! file = None ->
  fst (fold_left add_new_file video_files (d, rows)) !! file = None
  \/ fst (fold_left add_new_file video_files (d, rows)) !! file
     = Some (mkEntry file EmptyString EmptyString EmptyString (Cell EmptyString)).
Proof.
  revert d rows. induction video_files as [|p ps IH]; intros d rows Hd; [by left|].
  rewrite fold_add_new_file_cons, add_new_file_eq.
  destruct (d !! Py.basename p) eqn:Hp; [by apply IH|].
  destruct (decide (Py.basename p = file)) as [<-|Hne].
  - right. apply add_new_files_known. by rewrite lookup_insert_eq.
  - apply IH. by rewrite lookup_insert_ne.
Qed.

(** A file is done for a run exactly when its record in the log has a time
    stamp. *)
Lemma is_done_record log video_files video_path :
  Processor.is_done (fst (initialize_processing_log json_loads log video_files)) video_path =
  match record_of (match log with Some rows => rows | None => [] end) (Py.basename video_path) with
  | Some row => Py.truthy (processed_datetime row)
  | None => false
  end.
Proof.
  unfold Processor.is_done, initialize_processing_log.
  set (rows := match log with Some rows => rows | None => [] end).
  pose proof (read_rows_lookup rows (Py.basename video_path)) as Hread.
  destruct (record_of rows (Py.basename video_path)) as [row|]; simpl in Hread.
  - by rewrite (add_new_files_known video_files _ rows _ _ Hread).
  - destruct (add_new_files_unknown video_files _ rows _ Hread) as [-> | ->]; done.
Qed.

Lemma work_list_elem log video_files video_path :
  video_path ∈ Processor.work_list json_loads log video_files <->
  video_path ∈ video_files /\
  match record_of (match log with Some rows => rows | None => [] end) (Py.basename video_path) with
  | Some row => processed_datetime row = EmptyString
  | None => True
  end.
Proof.
  unfold Processor.work_list, Processor.files_to_process.
  rewrite list_elem_of_filter, is_done_record.
  destruct (record_of _ _) as [row|].
  - rewrite truthy_empty. tauto.
  - tauto.
Qed.

End Reading.

(** What a rewrite of the log leaves as the record of the file. *)
Lemma update_row_filename file data row : filename (update_row file data row) = filename row.
Proof. unfold update_row. by destruct (String.eqb (filename row) file). Qed.

Lemma record_of_app l1 l2 file :
  record_of (l1 ++ l2) file =
  match record_of l2 file with
  | Some r => Some r
  | None => record_of l1 file
  end.
Proof.
  induction l1 as [|row l1 IH]; simpl.
  - by destruct (record_of l2 file).
  - rewrite IH. by destruct (record_of l2 file).
Qed.

Lemma record_of_map_update rows file data :
  record_of (map (update_row file data) rows) file = apply_data data <$> record_of rows file.
Proof.
  induction rows as [|row rows IH]; simpl; [done|].
  rewrite IH. destruct (record_of rows file) as [r|]; simpl; [done|].
  rewrite update_row_filename. unfold update_row.
  by destruct (String.eqb (filename row) file).
Qed.

Lemma record_of_none_existsb rows file :
  record_of rows file = None <-> existsb (fun row => String.eqb (filename row) file) rows = false.
Proof.
  induction rows as [|row rows IH]; simpl; [done|].
  destruct (record_of rows file) as [r|].
  - split; [done|]. intros H. apply orb_false_iff in H as [_ H]. by apply IH in H.
  - destruct (String.eqb (filename row) file); simpl; [done|]. tauto.
Qed.

Lemma record_after_update rows file data :
  exists rows' row,
    update_processing_log (Some rows) file data = inr rows'
    /\ record_of rows' file = Some (apply_data data row)
    /\ filename row = file.
Proof.
  unfold update_processing_log.
  destruct (existsb _ rows) eqn:Hex.
  - destruct (record_of rows file) as [row|] eqn:Hrec.
    + exists (map (update_row file data) rows), row. split; [done|].
      rewrite record_of_map_update, Hrec. split; [done|].
      clear Hex. induction rows as [|r rows IH]; simpl in Hrec; [done|].
      destruct (record_of rows file); [by apply IH|].
      destruct (String.eqb (filename r) file) eqn:Heq; [|done].
      injection Hrec as <-. by apply String.eqb_eq.
    + apply record_of_none_existsb in Hrec. congruence.
  - exists (map (update_row file data) rows ++ [apply_data data (empty_row file)]), (empty_row file).
    split; [done|]. rewrite record_of_app. simpl. by rewrite string_eqb_refl.
Qed.

End ProcessingLog.

(** C5. For a run over the files [video_files] of a subfolder: a file whose
    record in the processing log has a non-empty [processed_datetime] is not
    in the work list of the run, and a file whose record has an empty one is
    in it; so is a file that has no record yet. *)
Theorem work_list_resumable (json_loads : string -> option (list string))
    (log : CsvLogger.LogFile) (video_files : list string) (video_path : string) :
  video_path ∈ video_files ->
  (forall row,
     CsvLogger.record_of (match log with Some rows => rows | None => [] end)
       (Py.basename video_path) = Some row ->
     (CsvLogger.processed_datetime row <> EmptyString ->
      video_path ∉ Processor.work_list json_loads log video_files)
     /\ (CsvLogger.processed_datetime row = EmptyString ->
         video_path ∈ Processor.work_list json_loads log video_files))
  /\ (CsvLogger.record_of (match log with Some rows => rows | None => [] end)
        (Py.basename video_path) = None ->
      video_path ∈ Processor.work_list json_loads log video_files).
Proof.
  intros Hin. split.
  - intros row Hrow. split.
    + intros Hne Hwork. apply work_list_elem in Hwork as [_ Hrec].
      rewrite Hrow in Hrec. done.
    + intros He. apply work_list_elem. split; [done|]. by rewrite Hrow.
  - intros Hnone. apply work_list_elem. split; [done|]. by rewrite Hnone.
Qed.

Lemma work_list_resumable_witness :
  ("dir/a.mp4"%string ∉
     Processor.work_list (fun _ => None)
       (Some [CsvLogger.mkRow "a.mp4" "2026-01-01 00:00:00" "0" "0" "[]";
              CsvLogger.mkRow "b.mp4" EmptyString "0" "0" "[]"])
       ["dir/a.mp4"; "dir/b.mp4"]%string)
  /\ ("dir/b.mp4"%string ∈
       Processor.work_list (fun _ => None)
         (Some [CsvLogger.mkRow "a.mp4" "2026-01-01 00:00:00" "0" "0" "[]";
                CsvLogger.mkRow "b.mp4" EmptyString "0" "0" "[]"])
         ["dir/a.mp4"; "dir/b.mp4"]%string).
Proof.
  split.
  - destruct (work_list_resumable (fun _ => None)
                (Some [CsvLogger.mkRow "a.mp4" "2026-01-01 00:00:00" "0" "0" "[]";
                       CsvLogger.mkRow "b.mp4" EmptyString "0" "0" "[]"])
                ["dir/a.mp4"; "dir/b.mp4"]%string "dir/a.mp4"%string) as [Hrow _].
    + apply list_elem_of_here.
    + apply (Hrow (CsvLogger.mkRow "a.mp4" "2026-01-01 00:00:00" "0" "0" "[]") eq_refl).
      discriminate.
  - destruct (work_list_resumable (fun _ => None)
                (Some [CsvLogger.mkRow "a.mp4" "2026-01-01 00:00:00" "0" "0" "[]";
                       CsvLogger.mkRow "b.mp4" EmptyString "0" "0" "[]"])
                ["dir/a.mp4"; "dir/b.mp4"]%string "dir/b.mp4"%string) as [Hrow _].
    + apply list_elem_of_further, list_elem_of_here.
    + apply (Hrow (CsvLogger.mkRow "b.mp4" EmptyString "0" "0" "[]") eq_refl).
      reflexivity.
Defined.

(** What [json.dumps] writes for a list of file names can be read back: the
    reader returns the list, whatever characters the names hold. *)

Section JsonRoundTrip.

Import Py Json.

Lemma read_Str_plain c acc items rest :
  N_of_ascii c <> 34%N -> N_of_ascii c <> 92%N -> (32 <= N_of_ascii c)%N ->
  read (Str acc) items (String c rest) = read (Str (snoc acc c)) items rest.
Proof.
  intros H34 H92 H32. cbn [read].
  apply N.eqb_neq in H34, H92. apply N.ltb_ge in H32. by rewrite H34, H92, H32.
Qed.

Lemma read_Uni_next c h acc k v items rest :
  hex_value c = Some h -> (k < 3)%nat ->
  read (Uni acc k v) items (String c rest) = read (Uni acc (S k) (16 * v + h)) items rest.
Proof.
  intros Hh Hk. cbn [read]. rewrite Hh.
  destruct k as [|[|[|k]]]; try reflexivity. lia.
Qed.

Lemma read_Uni_last c h acc v items rest :
  hex_value c = Some h -> (16 * v + h < 256)%N ->
  read (Uni acc 3 v) items (String c rest)
  = read (Str (snoc acc (ascii_of_N (16 * v + h)))) items rest.
Proof.
  intros Hh Hv. cbn [read]. rewrite Hh. apply N.ltb_lt in Hv. by rewrite Hv.
Qed.

Lemma hex_value_digit h : (h < 16)%N -> hex_value (hex_digit h) = Some h.
Proof.
  intros Hh.
  assert (Hcases : (h = 0 \/ h = 1 \/ h = 2 \/ h = 3 \/ h = 4 \/ h = 5 \/ h = 6 \/ h = 7
                   \/ h = 8 \/ h = 9 \/ h = 10 \/ h = 11 \/ h = 12 \/ h = 13 \/ h = 14
                   \/ h = 15)%N) by lia.
  repeat (destruct Hcases as [-> | Hcases]; [reflexivity|]). by subst.
Qed.

Lemma read_escape_char c acc items rest :
  read (Str acc) items (json_escape_char c +:+ rest)
  = read (Str (snoc acc c)) items rest.
Proof.
  unfold json_escape_char.
  pose proof (ascii_N_embedding c) as Hc. pose proof (N_ascii_bounded c) as Hb.
  remember (N_of_ascii c) as n eqn:Hn in *.
  destruct (n =? 34)%N eqn:H34.
  { apply N.eqb_eq in H34. rewrite <- Hc, H34. reflexivity. }
  destruct (Ascii.eqb c "\") eqn:Hbs.
  { apply Ascii.eqb_eq in Hbs. rewrite Hbs. reflexivity. }
  destruct (n =? 10)%N eqn:H10.
  { apply N.eqb_eq in H10. rewrite <- Hc, H10. reflexivity. }
  destruct (n =? 13)%N eqn:H13.
  { apply N.eqb_eq in H13. rewrite <- Hc, H13. reflexivity. }
  destruct (n =? 9)%N eqn:H9.
  { apply N.eqb_eq in H9. rewrite <- Hc, H9. reflexivity. }
  destruct (n =? 8)%N eqn:H8.
  { apply N.eqb_eq in H8. rewrite <- Hc, H8. reflexivity. }
  destruct (n =? 12)%N eqn:H12.
  { apply N.eqb_eq in H12. rewrite <- Hc, H12. reflexivity. }
  apply N.eqb_neq in H34.
  assert (H92 : n <> 92%N).
  { intros H. apply Ascii.eqb_neq in Hbs. apply Hbs. rewrite <- Hc, H. reflexivity. }
  destruct ((n <? 32) || (126 <? n))%N eqn:Hu.
  - change (read (Str acc) items
              (String "\" (String "u" (String "0" (String "0"
                 (String (hex_digit (n / 16)) (String (hex_digit (n mod 16)) rest))))))
            = read (Str (snoc acc c)) items rest).
    assert (H16 : (n / 16 < 16)%N) by (apply N.Div0.div_lt_upper_bound; lia).
    assert (Hm : (n mod 16 < 16)%N) by (apply N.mod_lt; lia).
    change (read (Uni acc 2 0) items
              (String (hex_digit (n / 16)) (String (hex_digit (n mod 16)) rest))
            = read (Str (snoc acc c)) items rest).
    rewrite (read_Uni_next _ _ _ _ _ _ _ (hex_value_digit _ H16)) by lia.
    rewrite (read_Uni_last _ _ _ _ _ _ (hex_value_digit _ Hm)).
    + replace (16 * (16 * 0 + n / 16) + n mod 16)%N with n; [by rewrite Hc|].
      rewrite (N.div_mod n 16) at 1; lia.
    + pose proof (N.div_mod n 16 ltac:(lia)). lia.
  - apply orb_false_iff in Hu as [H32 _]. apply N.ltb_ge in H32.
    change (read (Str acc) items (String c rest) = read (Str (snoc acc c)) items rest).
    apply read_Str_plain; by rewrite <- Hn.
Qed.

Lemma json_app_cons c (a b : string) : (String c a +:+ b = String c (a +:+ b))%string.
Proof. reflexivity. Qed.

Lemma snoc_app acc c s : (snoc acc c +:+ s = acc +:+ String c s)%string.
Proof. unfold snoc. by rewrite append_assoc. Qed.

Lemma read_escape s acc items rest :
  read (Str acc) items (json_escape s +:+ rest) = read (Str (acc +:+ s)) items rest.
Proof.
  revert acc. induction s as [|c s IH]; intros acc.
  - simpl json_escape.
    assert (H : (acc +:+ EmptyString)%string = acc)
      by (induction acc as [|a acc IHa]; [done|]; by rewrite json_app_cons, IHa).
    by rewrite H.
  - simpl json_escape. rewrite append_assoc, read_escape_char, IH, snoc_app. done.
Qed.

Lemma read_string st s items rest :
  st = First \/ st = Next ->
  read st items (json_string s +:+ rest) = read After (items ++ [s]) rest.
Proof.
  intros Hst. unfold json_string. rewrite !json_app_cons, ?append_assoc.
  assert (Hq : read st items (String dquote (json_escape s +:+ String dquote EmptyString +:+ rest))
               = read (Str EmptyString) items
                   (json_escape s +:+ String dquote EmptyString +:+ rest))
    by (destruct Hst as [-> | ->]; reflexivity).
  rewrite Hq, read_escape. reflexivity.
Qed.

Lemma read_items st s l items :
  st = First \/ st = Next ->
  read st items (json_items (s :: l) +:+ "]") = Some (items ++ s :: l).
Proof.
  revert st s items. induction l as [|s' l IH]; intros st s items Hst.
  - simpl json_items. rewrite read_string by done. reflexivity.
  - change (json_items (s :: s' :: l))
      with (json_string s +:+ ", " +:+ json_items (s' :: l))%string.
    rewrite !append_assoc, read_string by done.
    change (read After (items ++ [s]) (", " +:+ json_items (s' :: l) +:+ "]"))
      with (read Next (items ++ [s]) (json_items (s' :: l) +:+ "]")).
    rewrite IH by by right. by rewrite <- app_assoc.
Qed.

Lemma read_dumps l : read_list (json_dumps l) = Some l.
Proof.
  unfold read_list, json_dumps. destruct l as [|s l]; [reflexivity|].
  change (read First [] (json_items (s :: l) +:+ "]") = Some (s :: l)).
  by rewrite read_items by by left.
Qed.

End JsonRoundTrip.

(** C10. When no row of the log carries the file name, the rewritten log is
    the old rows, unchanged, followed by a new row: the file name, and under
    each key the value that [data] gives, or the empty string when [data]
    has no such key.  A list under [segment_files] is in the row as its JSON
    text, from which the list can be read back; a string is there as it
    is. *)
Theorem update_appends_missing_row (rows : list CsvLogger.Row) (file : string)
    (data : CsvLogger.Data) :
  (forall row, row ∈ rows -> CsvLogger.filename row <> file) ->
  exists new_row,
    CsvLogger.update_processing_log (Some rows) file data = inr (rows ++ [new_row])
    /\ CsvLogger.filename new_row = file
    /\ CsvLogger.processed_datetime new_row =
         default EmptyString (CsvLogger.data_processed_datetime data)
    /\ CsvLogger.objects new_row = default EmptyString (CsvLogger.data_objects data)
    /\ CsvLogger.motion new_row = default EmptyString (CsvLogger.data_motion data)
    /\ match CsvLogger.data_segment_files data with
       | Some (CsvLogger.Files l) =>
           CsvLogger.segment_files new_row = Py.json_dumps l
           /\ Json.read_list (CsvLogger.segment_files new_row) = Some l
       | Some (CsvLogger.Cell s) => CsvLogger.segment_files new_row = s
       | None => CsvLogger.segment_files new_row = EmptyString
       end.
Proof.
  intros Hnew.
  exists (CsvLogger.apply_data data (CsvLogger.empty_row file)).
  split.
  - unfold CsvLogger.update_processing_log.
    assert (Hex : existsb (fun row => String.eqb (CsvLogger.filename row) file) rows = false).
    { apply not_true_iff_false. intros Hex. apply existsb_exists in Hex as (row & Hin & Heq).
      apply String.eqb_eq in Heq. apply (Hnew row); [|done]. by apply list_elem_of_In. }
    rewrite Hex. do 2 f_equal.
    induction rows as [|row rows IH]; simpl; [done|].
    rewrite IH.
    + f_equal. unfold CsvLogger.update_row.
      assert (Hne : CsvLogger.filename row <> file) by (apply Hnew; apply list_elem_of_here).
      apply String.eqb_neq in Hne. by rewrite Hne.
    + intros r Hr. apply Hnew. by apply list_elem_of_further.
    + simpl in Hex. by apply orb_false_iff in Hex as [_ ?].
  - unfold CsvLogger.apply_data. simpl.
    destruct data as [[?|] [?|] [?|] [[s|l]|]]; simpl; repeat split; try done;
      apply read_dumps.
Qed.

Lemma update_appends_missing_row_witness :
  exists new_row,
    CsvLogger.update_processing_log
      (Some [CsvLogger.mkRow "a.mp4" "2026-01-01 00:00:00" "0" "0" "[]"]) "b.mp4"
      (CsvLogger.mkData (Some "2026-01-02 00:00:00"%string) (Some "0"%string)
         (Some "1"%string)
         (Some (CsvLogger.Files ["b_seg001_00000_00002_mot.mp4"%string])))
    = inr ([CsvLogger.mkRow "a.mp4" "2026-01-01 00:00:00" "0" "0" "[]"] ++ [new_row])
    /\ CsvLogger.filename new_row = "b.mp4"%string
    /\ CsvLogger.processed_datetime new_row = "2026-01-02 00:00:00"%string
    /\ CsvLogger.motion new_row = "1"%string
    /\ Json.read_list (CsvLogger.segment_files new_row)
       = Some ["b_seg001_00000_00002_mot.mp4"%string].
Proof.
  destruct (update_appends_missing_row
              [CsvLogger.mkRow "a.mp4" "2026-01-01 00:00:00" "0" "0" "[]"] "b.mp4"
              (CsvLogger.mkData (Some "2026-01-02 00:00:00"%string) (Some "0"%string)
                 (Some "1"%string)
                 (Some (CsvLogger.Files ["b_seg001_00000_00002_mot.mp4"%string]))))
    as (new_row & Hupd & Hname & Hdt & _ & Hm & _ & Hread).
  - intros row Hrow. apply list_elem_of_singleton in Hrow. subst. discriminate.
  - exists new_row. split; [exact Hupd|]. split; [exact Hname|].
    split; [exact Hdt|]. split; [exact Hm|exact Hread].
Defined.

(** ** The file task and the batch *)

Section FileTask.

Import CsvLogger Processor Batch.

Lemma apply_failure_data row :
  apply_data failure_data row = failure_row (filename row).
Proof. reflexivity. Qed.

(** An exception in the pipeline of a file: the task returns, the record of
    the file is the failure row, and the message goes to the orchestrator. *)
Lemma task_failure rows now i video_path e :
  exists rows',
    process_single_video (Some rows) now i video_path (inl e) =
      (Some rows', inr (mkTaskResult i (Py.basename video_path) [] (Some (str_exn e))))
    /\ update_processing_log (Some rows) (Py.basename video_path) failure_data = inr rows'
    /\ record_of rows' (Py.basename video_path) = Some (failure_row (Py.basename video_path)).
Proof.
  destruct (record_after_update rows (Py.basename video_path) failure_data)
    as (rows' & row & Hupd & Hrec & Hname).
  exists rows'. unfold process_single_video, on_error. rewrite Hupd.
  split; [done|]. split; [done|]. by rewrite Hrec, apply_failure_data, Hname.
Qed.


(** A rewrite of the log for one file leaves the records of the others. *)
Lemma record_of_update_other rows rows' file other data :
  other <> file ->
  update_processing_log (Some rows) other data = inr rows' ->
  record_of rows' file = record_of rows file.
Proof.
  intros Hne Hupd. unfold update_processing_log in Hupd.
  assert (Hmap : record_of (map (update_row other data) rows) file = record_of rows file).
  { clear Hupd. induction rows as [|row rows IH]; simpl; [done|].
    rewrite IH, update_row_filename. destruct (record_of rows file); [done|].
    destruct (String.eqb (filename row) file) eqn:Heq; [|done].
    unfold update_row. apply String.eqb_eq in Heq.
    assert (Hother : String.eqb (filename row) other = false)
      by (apply String.eqb_neq; congruence).
    by rewrite Hother. }
  destruct (existsb _ rows); injection Hupd as <-; [done|].
  rewrite record_of_app. simpl.
  apply String.eqb_neq in Hne. by rewrite Hne.
Qed.

Variable pipeline : string -> exn + list Video.Clip.
Variable now : string -> string.






End FileTask.

Lemma clip_file_name_format_witness :
  exists (i : nat) (seg : Video.Segment),
    Video.filename
      (Video.mkClip "out/cam_seg001_00005_00015_mot.mp4" (50 # 10) (150 # 10) (100 # 10) 0 1)
    = Py.path_join "out" (Video.clip_file_name "cam" i 10 seg).
Proof.
  destruct (clip_file_name_format
              (Video.mkCapture 10 151
                 (replicate 100 Stream.quiet ++ [Stream.moving] ++ replicate 50 Stream.quiet))
              "cam" "out" (Video.mkConfig 5 15 true) true (fun _ _ _ => true)
              (fst (Video.process_video
                      (Some (Video.mkCapture 10 151
                               (replicate 100 Stream.quiet ++ [Stream.moving]
                                  ++ replicate 50 Stream.quiet)))
                      "cam" "out" (Video.mkConfig 5 15 true) true (fun _ _ _ => true)))
              [Video.mkClip "out/cam_seg001_00005_00015_mot.mp4" (50 # 10) (150 # 10) (100 # 10) 0 1]
              (Video.mkClip "out/cam_seg001_00005_00015_mot.mp4" (50 # 10) (150 # 10) (100 # 10) 0 1))
    as (i & seg & _ & Hname & _).
  - vm_compute. reflexivity.
  - apply list_elem_of_here.
  - exists i, seg. exact Hname.
Defined.

(** C7 as stated fails.  A 10 fps video of 151 frames with motion on frame
    100 alone, [buffer_seconds = 5] and a stride of five: the one clip, of
    the segment from frame 50 to frame 150, is
    [cam_seg001_00005_00015_mot.mp4], with time stamps of five digits, where
    the pattern with six-digit stamps gives [cam_seg001_000005_000015_mot.]
    and the extension. *)
Lemma clip_file_name_counterexample :
  snd (Video.process_video
         (Some (Video.mkCapture 10 151
                  (replicate 100 Stream.quiet ++ [Stream.moving] ++ replicate 50 Stream.quiet)))
         "cam" "out" (Video.mkConfig 5 15 true) true (fun _ _ _ => true))
  = inr [Video.mkClip "out/cam_seg001_00005_00015_mot.mp4" (50 # 10) (150 # 10) (100 # 10) 0 1]
  /\ Video.clip_file_name "cam" 0 10 (Video.mkSegment 50 150 true false)
     = "cam_seg001_00005_00015_mot.mp4"%string
  /\ Spec.clip_file_name "cam" 1 5 15 false true "mp4" = "cam_seg001_000005_000015_mot.mp4"%string
  /\ (forall ext,
        Video.clip_file_name "cam" 0 10 (Video.mkSegment 50 150 true false)
        <> Spec.clip_file_name "cam" 1 5 15 false true ext).
Proof.
  split; [vm_compute; reflexivity|].
  split; [vm_compute; reflexivity|].
  split; [vm_compute; reflexivity|].
  intros ext H. vm_compute in H. discriminate H.
Qed.


(** ** A file that cannot be opened *)

(** C9. [process_video] on a file that cannot be opened returns the empty
    list of clips: it raises nothing, calls the progress callback not once
    and writes no clip, whatever its other arguments; the processing log is
    not within its reach.  (With a callback, a call on an opened file that
    returns has called it.) *)
Theorem unopened_video_returns_nothing (video_name output_dir : string)
    (config : Video.Config) (has_callback : bool) (cut : string -> Q -> Q -> bool) :
  Video.process_video None video_name output_dir config has_callback cut = ([], inr [])
  /\ (forall v tr clips,
        Video.process_video (Some v) video_name output_dir config true cut = (tr, inr clips) ->
        tr <> []).
Proof.
  split; [reflexivity|].
  intros v tr clips. unfold Video.process_video.
  destruct (Video.adaptive_skip_frames _ _ _ =? 0); [done|].
  destruct (negb _ && _); [done|].
  destruct (Video.extract_from _ _ _ _ _ _) as [evs cs].
  intros [= <- _] Hnil.
  apply app_nil in Hnil as [_ Hnil]. apply app_nil in Hnil as [_ Hnil]. done.
Qed.

(** ** Failures in a batch *)

(** C6, on an exception whose message is empty.  The exception is caught,
    the record of the file is rewritten as a failure and the batch goes on
    to the next file, but the run holds no pair for it: [if error:] on line
    304 takes the empty message for no error.  With the message [boom] the
    pair is there. *)
Theorem empty_message_failure_not_aggregated :
  Processor.process_subfolder (fun _ => None) None "dir" ["a.mp4"; "b.mp4"]%string
    (fun p => if String.eqb p "dir/a.mp4" then inl (Exception EmptyString) else inr [])
    (fun _ => "2026-01-01 00:00:00"%string)
  = (Some [Batch.failure_row "a.mp4";
           CsvLogger.mkRow "b.mp4" "2026-01-01 00:00:00" "0" "0" "[]"],
     inr (Processor.mkBatchRun 2 [] []))
  /\ Processor.process_subfolder (fun _ => None) None "dir" ["a.mp4"; "b.mp4"]%string
       (fun p => if String.eqb p "dir/a.mp4" then inl (Exception "boom") else inr [])
       (fun _ => "2026-01-01 00:00:00"%string)
     = (Some [Batch.failure_row "a.mp4";
              CsvLogger.mkRow "b.mp4" "2026-01-01 00:00:00" "0" "0" "[]"],
        inr (Processor.mkBatchRun 2 [] [("a.mp4", "boom")]%string)).
Proof. split; vm_compute; reflexivity. Qed.

(** Every exception in the pipeline of a file is caught at the file task,
    on a log that is there: the task returns its index, the name, no clip
    and the message instead of raising, so that the loop over the results
    goes on; its rewrite of the log leaves the record of the file with an
    empty time stamp, zero counts and an empty list, and the records of the
    other files as they were; and the result, folded into the run, counts
    the file, adds no clip, and adds the pair of name and message exactly
    when the message is not empty. *)
Theorem failed_file_recorded_and_batch_continues
    (rows : list CsvLogger.Row) (now : string) (i : nat) (video_path : string) (e : exn)
    (run : Processor.BatchRun) :
  exists rows',
    Processor.process_single_video (Some rows) now i video_path (inl e)
    = (Some rows',
       inr (Processor.mkTaskResult i (Py.basename video_path) [] (Some (str_exn e))))
    /\ CsvLogger.record_of rows' (Py.basename video_path)
       = Some (Batch.failure_row (Py.basename video_path))
    /\ (forall file, file <> Py.basename video_path ->
          CsvLogger.record_of rows' file = CsvLogger.record_of rows file)
    /\ Processor.aggregate run
         (Processor.mkTaskResult i (Py.basename video_path) [] (Some (str_exn e)))
       = Processor.mkBatchRun (S (Processor.completed_count run)) (Processor.all_clips run)
           (if Py.truthy (str_exn e)
            then Processor.errors run ++ [(Py.basename video_path, str_exn e)]
            else Processor.errors run)
    /\ (str_exn e <> EmptyString ->
        (Py.basename video_path, str_exn e)
        ∈ Processor.errors
            (Processor.aggregate run
               (Processor.mkTaskResult i (Py.basename video_path) [] (Some (str_exn e))))).
Proof.
  destruct (task_failure rows now i video_path e) as (rows' & Htask & Hupd & Hrec).
  exists rows'. split; [exact Htask|]. split; [exact Hrec|]. split; [|split].
  - intros file Hne.
    apply (record_of_update_other rows rows' file (Py.basename video_path)
             Processor.failure_data); [by apply not_eq_sym|exact Hupd].
  - unfold Processor.aggregate. simpl. by rewrite app_nil_r.
  - intros Hmsg. unfold Processor.aggregate. simpl.
    apply truthy_nonempty in Hmsg. rewrite Hmsg.
    apply elem_of_app. right. apply list_elem_of_here.
Qed.

(** ** Resuming *)

(** A file whose task failed is in the work list of the next run, and a file
    whose task went through, with a time stamp that is not empty, is not. *)
Theorem next_run_after_update (json_loads : string -> option (list string))
    (rows : list CsvLogger.Row) (video_files : list string) (video_path now : string)
    (clips : list Video.Clip) :
  video_path ∈ video_files ->
  (forall rows',
     CsvLogger.update_processing_log (Some rows) (Py.basename video_path) Processor.failure_data
       = inr rows' ->
     video_path ∈ Processor.work_list json_loads (Some rows') video_files)
  /\ (forall rows',
        now <> EmptyString ->
        CsvLogger.update_processing_log (Some rows) (Py.basename video_path)
          (Processor.success_data now clips) = inr rows' ->
        video_path ∉ Processor.work_list json_loads (Some rows') video_files).
Proof.
  intros Hin. split.
  - intros rows' Hupd. apply work_list_elem. split; [done|].
    destruct (record_after_update rows (Py.basename video_path) Processor.failure_data)
      as (rows1 & row & Hupd1 & Hrec & _).
    rewrite Hupd in Hupd1. injection Hupd1 as <-. by rewrite Hrec.
  - intros rows' Hnow Hupd Hwork. apply work_list_elem in Hwork as [_ Hrec'].
    destruct (record_after_update rows (Py.basename video_path) (Processor.success_data now clips))
      as (rows1 & row & Hupd1 & Hrec & _).
    rewrite Hupd in Hupd1. injection Hupd1 as <-. rewrite Hrec in Hrec'. simpl in Hrec'. done.
Qed.

Lemma next_run_after_update_witness :
  "dir/a.mp4"%string ∈
    Processor.work_list (fun _ => None)
      (Some [Batch.failure_row "a.mp4"]) ["dir/a.mp4"]%string.
Proof.
  apply (proj1 (next_run_after_update (fun _ => None) [CsvLogger.empty_row "a.mp4"]
                  ["dir/a.mp4"]%string "dir/a.mp4"%string "2026-01-01 00:00:00"%string []
                  (list_elem_of_here _ _))).
  reflexivity.
Defined.

(** ** Further properties of the merge *)

Section Cover.

Import Video Segments.

Lemma insert_elem s x l : x ∈ insert_by_start s l <-> x = s \/ x ∈ l.
Proof.
  induction l as [|y l IH]; simpl.
  - rewrite list_elem_of_singleton, elem_of_nil. tauto.
  - destruct (start s <=? start y).
    + rewrite !elem_of_cons. tauto.
    + rewrite !elem_of_cons, IH. tauto.
Qed.

Lemma sort_elem x l : x ∈ sort_by_start l <-> x ∈ l.
Proof.
  induction l as [|s l IH]; simpl; [done|].
  rewrite insert_elem, elem_of_cons, IH. tauto.
Qed.

Lemma insert_permutation s l : insert_by_start s l ≡ₚ s :: l.
Proof.
  induction l as [|y l IH]; simpl; [done|].
  destruct (start s <=? start y); [done|].
  rewrite IH. apply Permutation_swap.
Qed.

(** The model of [list.sort] returns its input in another order. *)
Lemma sort_permutation l : sort_by_start l ≡ₚ l.
Proof.
  induction l as [|s l IH]; simpl; [done|]. by rewrite insert_permutation, IH.
Qed.

Lemma covers_refl s : covers s s.
Proof. unfold covers. repeat split; auto; lia. Qed.

Lemma covers_trans a b c : covers a b -> covers b c -> covers a c.
Proof. unfold covers. intros (?&?&?&?) (?&?&?&?). repeat split; auto; lia. Qed.

Lemma absorb_covers x s : start x <= start s -> covers (absorb x s) x /\ covers (absorb x s) s.
Proof.
  intros Hle. unfold covers, absorb. simpl.
  repeat split; try lia; intros ->; auto using orb_true_r.
Qed.

Lemma coalesce_covers x rest :
  ascending (x :: rest) ->
  forall s, s ∈ x :: rest -> exists m, m ∈ coalesce x rest /\ covers m s.
Proof.
  revert x. induction rest as [|y rest IH]; intros x Hasc s Hs.
  - apply list_elem_of_singleton in Hs as ->. exists x. simpl.
    split; [apply list_elem_of_here|apply covers_refl].
  - destruct Hasc as [Hxy Hasc]. simpl.
    destruct (start y <=? end_ x).
    + destruct (absorb_covers x y Hxy) as [Hcx Hcy].
      assert (Hasc' : ascending (absorb x y :: rest)).
      { destruct rest as [|z rest]; [done|]. destruct Hasc as [Hyz Hasc].
        split; [simpl; lia|exact Hasc]. }
      assert (Hhead : exists m, m ∈ coalesce (absorb x y) rest /\ covers m (absorb x y))
        by (apply (IH _ Hasc'); apply list_elem_of_here).
      destruct Hhead as (m & Hm & Hcm).
      apply elem_of_cons in Hs as [-> | Hs]; [exists m; eauto using covers_trans|].
      apply elem_of_cons in Hs as [-> | Hs]; [exists m; eauto using covers_trans|].
      apply (IH _ Hasc'). by apply list_elem_of_further.
    + apply elem_of_cons in Hs as [-> | Hs].
      * exists x. split; [apply list_elem_of_here|apply covers_refl].
      * destruct (IH y Hasc s Hs) as (m & Hm & Hc).
        exists m. split; [by apply list_elem_of_further|done].
Qed.

Lemma coalesce_from x rest m :
  m ∈ coalesce x rest ->
  exists s, s ∈ x :: rest /\ start m = start s.
Proof.
  revert x. induction rest as [|y rest IH]; intros x; simpl.
  - intros Hm. apply list_elem_of_singleton in Hm as ->. exists x. split; [apply list_elem_of_here|done].
  - destruct (start y <=? end_ x).
    + intros Hm. destruct (IH _ Hm) as (s & Hs & Hst).
      apply elem_of_cons in Hs as [-> | Hs].
      * exists x. split; [apply list_elem_of_here|done].
      * exists s. split; [by do 2 apply list_elem_of_further|done].
    + intros Hm. apply elem_of_cons in Hm as [-> | Hm].
      * exists x. split; [apply list_elem_of_here|done].
      * destruct (IH _ Hm) as (s & Hs & Hst). exists s.
        split; [by apply list_elem_of_further|done].
Qed.

End Cover.

(** The merged list is in ascending order of start, its segments are apart
    from one another ([end < next start]), every closed segment lies within
    a merged one that carries its flags, and every merged segment starts
    where a closed one starts. *)
Theorem merge_segments_disjoint_cover (l : list Video.Segment) :
  Segments.ascending (Video.merge_segments l)
  /\ Segments.disjoint (Video.merge_segments l)
  /\ (forall s, s ∈ l -> exists m, m ∈ Video.merge_segments l /\ Segments.covers m s)
  /\ (forall m, m ∈ Video.merge_segments l -> exists s, s ∈ l /\ Video.start m = Video.start s).
Proof.
  split; [apply merge_ascending|]. split; [apply merge_disjoint|].
  rewrite merge_segments_coalesce.
  pose proof (sort_ascending l) as Hasc.
  pose proof (fun x => sort_elem x l) as Helem.
  destruct (Video.sort_by_start l) as [|x rest].
  - split.
    + intros s Hs. apply Helem in Hs. by apply elem_of_nil in Hs.
    + intros m Hm. by apply elem_of_nil in Hm.
  - split.
    + intros s Hs. apply Helem in Hs. by apply coalesce_covers.
    + intros m Hm. destruct (coalesce_from x rest m Hm) as (s & Hs & Hst).
      exists s. split; [by apply Helem|done].
Qed.

(** Two segments whose ranges overlap or touch are merged into the one
    segment of their union, with the flags of both. *)
Theorem merge_two_touching (a b : Video.Segment) :
  seg_ok a -> seg_ok b ->
  Video.start b <= Video.end_ a -> Video.start a <= Video.end_ b ->
  Video.merge_segments [a; b] =
    [Video.mkSegment (Z.min (Video.start a) (Video.start b))
       (Z.max (Video.end_ a) (Video.end_ b))
       (Video.motion a || Video.motion b) (Video.objects a || Video.objects b)].
Proof.
  unfold seg_ok. intros Ha Hb Hba Hab.
  rewrite merge_segments_coalesce. simpl.
  destruct (Video.start a <=? Video.start b) eqn:Hle; simpl.
  - apply Z.leb_le in Hle. apply Z.leb_le in Hba. rewrite Hba.
    unfold Video.absorb. do 2 f_equal. lia.
  - apply Z.leb_gt in Hle. apply Z.leb_le in Hab. rewrite Hab.
    unfold Video.absorb. f_equal.
    rewrite (orb_comm (Video.motion b)), (orb_comm (Video.objects b)).
    f_equal; lia.
Qed.

Lemma merge_two_touching_witness :
  Video.merge_segments [Video.mkSegment 0 2 true false; Video.mkSegment 2 4 false true]
  = [Video.mkSegment 0 4 true true].
Proof.
  exact (merge_two_touching (Video.mkSegment 0 2 true false) (Video.mkSegment 2 4 false true)
           ltac:(unfold seg_ok; simpl; lia) ltac:(unfold seg_ok; simpl; lia)
           ltac:(simpl; lia) ltac:(simpl; lia)).
Defined.

(** ** Further properties of the builder *)

(** Two bursts and the gap between them, for every length of the gap: up to
    [B] quiet frames the builder keeps one segment; beyond [B], when the last
    frame of the gap is analysed, it closes two, and the merge leaves two
    exactly when the gap is at least [2 * B] frames. *)
Theorem two_bursts_gap_rule (skip B total : Z) (pre b1 gap b2 post : list Video.Frame) :
  0 <= B ->
  Stream.two_bursts_ok skip pre b1 gap b2 post = true ->
  (Z.of_nat (length gap) <= B ->
     length (Video.closed_segments skip B total (Stream.two_bursts pre b1 gap b2 post)) = 1%nat
     /\ length (Video.merged_segments skip B total (Stream.two_bursts pre b1 gap b2 post)) = 1%nat)
  /\ (B < Z.of_nat (length gap) ->
      Video.analysed skip
        (Z.of_nat (length pre) + Z.of_nat (length b1) + Z.of_nat (length gap) - 1) = true ->
      length (Video.closed_segments skip B total (Stream.two_bursts pre b1 gap b2 post)) = 2%nat
      /\ length (Video.merged_segments skip B total (Stream.two_bursts pre b1 gap b2 post)) =
         if Z.of_nat (length gap) <? 2 * B then 1%nat else 2%nat).
Proof. intros HB Hok. exact (two_bursts_count skip B total pre b1 gap b2 post HB Hok). Qed.

Lemma two_bursts_gap_rule_witness :
  length (Video.merged_segments 1 2 9
            (Stream.two_bursts [] [Stream.moving]
               [Stream.quiet; Stream.quiet; Stream.quiet; Stream.quiet] [Stream.moving] []))
  = 2%nat.
Proof.
  exact (proj2 (proj2 (two_bursts_gap_rule 1 2 9 [] [Stream.moving]
    [Stream.quiet; Stream.quiet; Stream.quiet; Stream.quiet] [Stream.moving] []
    ltac:(lia) eq_refl) ltac:(simpl; lia) eq_refl)).
Defined.

(** ** Clips *)

(** A merged segment shorter than one second gives no clip and no write. *)
Theorem short_segment_no_clip (cut : string -> Q -> Q -> bool) (video_name output_dir : string)
    (fps : Q) (i : nat) (segment : Video.Segment) :
  (inject_Z (Video.end_ segment - Video.start segment) / fps < 1)%Q ->
  Video.extract_segment cut video_name output_dir fps i segment = ([], None).
Proof.
  intros Hshort. unfold Video.extract_segment.
  destruct (Qeq_bool fps 0); [done|].
  apply Qltb_lt in Hshort. by rewrite Hshort.
Qed.

Lemma short_segment_no_clip_witness :
  Video.extract_segment (fun _ _ _ => true) "cam" "out" 30 0 (Video.mkSegment 10 20 true false)
  = ([], None).
Proof.
  exact (short_segment_no_clip (fun _ _ _ => true) "cam" "out" 30 0
           (Video.mkSegment 10 20 true false) eq_refl).
Defined.

(** The end-to-end case of the specification: 30 fps, ten seconds, motion
    from second 4 to second 6, a buffer of two seconds, the default stride:
    one clip from second 2 to second 8, named with [_mot]. *)
Theorem end_to_end_motion_burst :
  Video.process_video
    (Some (Video.mkCapture 30 300
             (replicate 120 Stream.quiet ++ replicate 61 Stream.moving
                ++ replicate 119 Stream.quiet)))
    "clip" "out" (Video.mkConfig 2 10 true) false (fun _ _ _ => true)
  = ([Video.WriteVideofile "out/clip_seg001_00002_00008_mot.mp4" (60 # 30) (240 # 30) true],
     inr [Video.mkClip "out/clip_seg001_00002_00008_mot.mp4" (60 # 30) (240 # 30) (180 # 30) 0 1])
  /\ (60 # 30 == 2)%Q /\ (240 # 30 == 8)%Q.
Proof. split; [vm_compute; reflexivity|]. split; reflexivity. Qed.

(** * The analysis of the frames, the calls, and the log over several runs *)

(** ** The motion block *)

Section MotionBlock.

Import Motion.

Lemma fold_add_acc (l : list Z) (a : Z) : fold_left Z.add l a = a + sum_Z l.
Proof.
  unfold sum_Z. revert a. induction l as [|x l IH]; intros a; simpl; [lia|].
  rewrite (IH (a + x)), (IH (0 + x)). lia.
Qed.

Lemma sum_thresh gray prev : sum_Z (thresh gray prev) = 255 * changed_pixels gray prev.
Proof.
  revert prev. induction gray as [|a gray IH]; intros [|b prev]; simpl; try done.
  unfold sum_Z. simpl. rewrite fold_add_acc, IH. unfold thresh_pixel.
  destruct (Z.abs (a - b) >? 30); lia.
Qed.

Lemma changed_pixels_bounds gray prev :
  0 <= changed_pixels gray prev <= Z.of_nat (length gray).
Proof.
  revert prev. induction gray as [|a gray IH]; intros [|b prev]; simpl length; simpl; try lia.
  specialize (IH prev). destruct (Z.abs (a - b) >? 30); lia.
Qed.

Lemma changed_pixels_zero gray prev :
  length gray = length prev ->
  changed_pixels gray prev = 0 <-> close gray prev.
Proof.
  unfold close. revert prev. induction gray as [|a gray IH]; intros [|b prev] Hlen; try done.
  simpl in Hlen. injection Hlen as Hlen. specialize (IH prev Hlen). simpl.
  pose proof (changed_pixels_bounds gray prev) as Hb.
  destruct (Z.abs (a - b) >? 30) eqn:Hgt.
  - apply Z.gtb_lt in Hgt. split; [lia|]. intros H. inversion H; subst. lia.
  - rewrite Z.gtb_ltb in Hgt. apply Z.ltb_ge in Hgt. rewrite Z.add_0_l, IH.
    split; [by constructor|]. intros H. by inversion H.
Qed.

Lemma motion_score_changed gray prev :
  gray <> [] ->
  (motion_score gray prev ==
   inject_Z (changed_pixels gray prev) / inject_Z (Z.of_nat (length gray)))%Q.
Proof.
  intros Hne. unfold motion_score. rewrite sum_thresh.
  rewrite !inject_Z_mult.
  assert (Hn : ~ (inject_Z (Z.of_nat (length gray)) == 0)%Q).
  { destruct gray; [done|]. unfold Qeq. simpl. lia. }
  change (inject_Z 255) with 255%Q. field. exact Hn.
Qed.

End MotionBlock.

(** The motion score of a frame against the one before it, both of one
    shape and not empty, is the share of the pixels that differ by more than
    30: it lies between 0 and 1, and it is 0 exactly when no pixel does. *)
Theorem motion_score_fraction (gray prev : Motion.Gray) :
  length gray = length prev -> gray <> [] ->
  (Motion.motion_score gray prev ==
     inject_Z (Motion.changed_pixels gray prev) / inject_Z (Z.of_nat (length gray)))%Q
  /\ (0 <= Motion.motion_score gray prev)%Q
  /\ (Motion.motion_score gray prev <= 1)%Q
  /\ ((Motion.motion_score gray prev == 0)%Q <-> Motion.close gray prev).
Proof.
  intros Hlen Hne.
  pose proof (motion_score_changed gray prev Hne) as Hs.
  pose proof (changed_pixels_bounds gray prev) as [Hlo Hhi].
  assert (Hn : (0 < inject_Z (Z.of_nat (length gray)))%Q).
  { destruct gray; [done|]. unfold Qlt. simpl. lia. }
  split; [exact Hs|]. rewrite Hs.
  split; [|split].
  - apply Qle_shift_div_l; [done|]. rewrite Qmult_0_l. rewrite <- (Zle_Qle 0). done.
  - apply Qle_shift_div_r; [done|]. rewrite Qmult_1_l. by rewrite <- Zle_Qle.
  - rewrite <- (changed_pixels_zero gray prev Hlen). split.
    + intros H0.
      assert (H1 : (inject_Z (Motion.changed_pixels gray prev) == 0)%Q).
      { rewrite <- (Qmult_div_r (inject_Z (Motion.changed_pixels gray prev))
                     (inject_Z (Z.of_nat (length gray)))) by lra.
        rewrite H0. apply Qmult_0_r. }
      unfold Qeq in H1. simpl in H1. lia.
    + intros ->. unfold Qdiv. apply Qmult_0_l.
Qed.

Lemma motion_score_fraction_witness :
  (Motion.motion_score [10; 200; 30; 40]%Z [12; 20; 90; 41]%Z == 2 / 4)%Q.
Proof.
  exact (proj1 (motion_score_fraction [10; 200; 30; 40] [12; 20; 90; 41] eq_refl
                  ltac:(discriminate))).
Defined.

Section MotionHistory.

Import Motion.

Lemma push_window h s :
  (length h <= 10)%nat ->
  push h s = drop (length (h ++ [s]) - 10) (h ++ [s]).
Proof.
  intros Hh. unfold push. rewrite length_app. simpl length.
  destruct (10 <? length h + 1)%nat eqn:Hlt.
  - apply Nat.ltb_lt in Hlt. replace (length h + 1 - 10)%nat with 1%nat by lia.
    by destruct (h ++ [s]).
  - apply Nat.ltb_ge in Hlt. by replace (length h + 1 - 10)%nat with 0%nat by lia.
Qed.

Lemma push_length h s : (length h <= 10)%nat -> (length (push h s) <= 10)%nat.
Proof.
  intros Hh. rewrite push_window by done. rewrite length_drop, length_app. simpl. lia.
Qed.

Lemma fold_push scores h :
  (length h <= 10)%nat ->
  fold_left push scores h = drop (length (h ++ scores) - 10) (h ++ scores).
Proof.
  revert h. induction scores as [|s scores IH]; intros h Hh.
  - simpl. rewrite app_nil_r. by replace (length h - 10)%nat with 0%nat by lia.
  - simpl fold_left. rewrite IH by by apply push_length.
    rewrite push_window by done.
    assert (Hk : (length (h ++ [s]) - 10 <= length (h ++ [s]))%nat) by lia.
    rewrite <- (drop_app_le (h ++ [s]) scores _ Hk).
    rewrite drop_drop, <- app_assoc. simpl.
    f_equal. rewrite length_drop, !length_app. simpl length. lia.
Qed.

Lemma fold_Qplus_le (t : Q) l a :
  Forall (fun s => (s <= t)%Q) l ->
  (fold_left Qplus l a <= a + inject_Z (Z.of_nat (length l)) * t)%Q.
Proof.
  intros Hl. revert a. induction Hl as [|s l Hs Hl IH]; intros a.
  - cbn [fold_left length]. change (inject_Z (Z.of_nat 0)) with 0%Q. lra.
  - simpl fold_left. specialize (IH (a + s)%Q).
    replace (Z.of_nat (length (s :: l))) with (Z.of_nat (length l) + 1) by (simpl length; lia).
    rewrite inject_Z_plus. change (inject_Z 1) with 1%Q. lra.
Qed.


Lemma avg_le t h :
  h <> [] -> Forall (fun s => (s <= t)%Q) h -> (avg_motion h <= t)%Q.
Proof.
  intros Hne Hall. unfold avg_motion, sum_Q.
  assert (Hn : (0 < inject_Z (Z.of_nat (length h)))%Q).
  { destruct h; [done|]. unfold Qlt. simpl. lia. }
  apply Qle_shift_div_r; [done|].
  pose proof (fold_Qplus_le t h 0 Hall). lra.
Qed.


End MotionHistory.

Section MotionHistory64.

Import Motion64.

Lemma push64_window h s :
  (length h <= 10)%nat ->
  push h s = drop (length (h ++ [s]) - 10) (h ++ [s]).
Proof.
  intros Hh. unfold push. rewrite length_app. simpl length.
  destruct (10 <? length h + 1)%nat eqn:Hlt.
  - apply Nat.ltb_lt in Hlt. replace (length h + 1 - 10)%nat with 1%nat by lia.
    by destruct (h ++ [s]).
  - apply Nat.ltb_ge in Hlt. by replace (length h + 1 - 10)%nat with 0%nat by lia.
Qed.

Lemma push64_length h s : (length h <= 10)%nat -> (length (push h s) <= 10)%nat.
Proof.
  intros Hh. rewrite push64_window by done. rewrite length_drop, length_app. simpl. lia.
Qed.

Lemma fold_push64 scores h :
  (length h <= 10)%nat ->
  fold_left push scores h = drop (length (h ++ scores) - 10) (h ++ scores).
Proof.
  revert h. induction scores as [|s scores IH]; intros h Hh.
  - simpl. rewrite app_nil_r. by replace (length h - 10)%nat with 0%nat by lia.
  - simpl fold_left. rewrite IH by by apply push64_length.
    rewrite push64_window by done.
    assert (Hk : (length (h ++ [s]) - 10 <= length (h ++ [s]))%nat) by lia.
    rewrite <- (drop_app_le (h ++ [s]) scores _ Hk).
    rewrite drop_drop, <- app_assoc. simpl.
    f_equal. rewrite length_drop, !length_app. simpl length. lia.
Qed.


End MotionHistory64.


(** ** The detection block *)

Section DetectionBlock.

Import Detection.

Lemma in_classes_In c classes : in_classes c classes = true <-> In c classes.
Proof.
  unfold in_classes. rewrite existsb_exists. split.
  - intros (x & Hx & Heq). apply Z.eqb_eq in Heq. by subst.
  - intros Hc. exists c. split; [done|apply Z.eqb_refl].
Qed.

Lemma box_test flt b :
  (if match target_classes flt with
      | Some classes => negb (in_classes (cls b) classes)
      | None => false
      end
   then false
   else if Py.Qltb (conf b) (confidence flt) then false
   else if Py.Qltb (object_area b) (min_object_area flt) then false
   else true) = true <-> passes flt b.
Proof.
  unfold passes. destruct (target_classes flt) as [classes|].
  - destruct (in_classes (cls b) classes) eqn:Hc; simpl.
    + apply in_classes_In in Hc.
      destruct (Py.Qltb (conf b) (confidence flt)) eqn:H1.
      * apply Qltb_lt in H1. split; [done|]. intros (_ & H & _). lra.
      * apply Qltb_ge in H1.
        destruct (Py.Qltb (object_area b) (min_object_area flt)) eqn:H2.
        -- apply Qltb_lt in H2. split; [done|]. intros (_ & _ & H). lra.
        -- apply Qltb_ge in H2. tauto.
    + split; [done|]. intros (H & _). apply in_classes_In in H. congruence.
  - destruct (Py.Qltb (conf b) (confidence flt)) eqn:H1.
    + apply Qltb_lt in H1. split; [done|]. intros (_ & H & _). lra.
    + apply Qltb_ge in H1.
      destruct (Py.Qltb (object_area b) (min_object_area flt)) eqn:H2.
      * apply Qltb_lt in H2. split; [done|]. intros (_ & _ & H). lra.
      * apply Qltb_ge in H2. tauto.
Qed.

Lemma scan_boxes_passes flt boxes :
  scan_boxes flt boxes = true <-> exists b, In b boxes /\ passes flt b.
Proof.
  induction boxes as [|b boxes IH].
  - simpl. split; [done|]. by intros (b & [] & _).
  - pose proof (box_test flt b) as Hb. simpl.
    destruct (match target_classes flt with
              | Some classes => negb (in_classes (cls b) classes)
              | None => false
              end).
    { rewrite IH. split.
      - intros (x & Hx & Hp). eauto.
      - intros (x & [<-|Hx] & Hp); [|eauto]. apply Hb in Hp. done. }
    destruct (Py.Qltb (conf b) (confidence flt)).
    { rewrite IH. split.
      - intros (x & Hx & Hp). eauto.
      - intros (x & [<-|Hx] & Hp); [|eauto]. apply Hb in Hp. done. }
    destruct (Py.Qltb (object_area b) (min_object_area flt)).
    { rewrite IH. split.
      - intros (x & Hx & Hp). eauto.
      - intros (x & [<-|Hx] & Hp); [|eauto]. apply Hb in Hp. done. }
    split; [|done]. intros _. exists b. split; [by left|]. by apply Hb.
Qed.

Lemma scan_results_passes flt results :
  scan_results flt results = true <->
  exists boxes b, In boxes results /\ In b boxes /\ passes flt b.
Proof.
  induction results as [|boxes results IH].
  - simpl. split; [done|]. by intros (? & ? & [] & _).
  - simpl. destruct (scan_boxes flt boxes) eqn:Hs.
    + split; [|done]. intros _. apply scan_boxes_passes in Hs as (b & Hb & Hp).
      exists boxes, b. auto.
    + rewrite IH. split.
      * intros (bs & b & Hbs & Hb & Hp). exists bs, b. auto.
      * intros (bs & b & [<-|Hbs] & Hb & Hp); [|by exists bs, b].
        assert (scan_boxes flt boxes = true) by (apply scan_boxes_passes; eauto).
        congruence.
Qed.

End DetectionBlock.

(** The detection block reports an object exactly when some box of some
    result passes the three tests: a wanted class (any class when
    [target_classes] is [None]), a confidence of at least the threshold and
    an area of at least the minimum.  With an empty list of target classes,
    which is not [None], nothing is ever detected. *)
Theorem detection_iff_passing_box (flt : Detection.Filter) (results : list (list Detection.Box)) :
  (Detection.scan_results flt results = true <->
   exists boxes b, In boxes results /\ In b boxes /\ Detection.passes flt b)
  /\ (Detection.target_classes flt = Some [] -> Detection.scan_results flt results = false).
Proof.
  split; [apply scan_results_passes|].
  intros Hc. apply not_true_is_false. intros Hs.
  apply scan_results_passes in Hs as (boxes & b & _ & _ & Hp & _).
  rewrite Hc in Hp. exact Hp.
Qed.

(** A filter that is at least as strict in each of its three tests detects
    nothing that the looser one misses: raising the confidence or the
    minimum area, or narrowing the classes, can only take detections away. *)
Theorem stricter_filter_detects_less (loose strict : Detection.Filter)
    (results : list (list Detection.Box)) :
  (Detection.confidence loose <= Detection.confidence strict)%Q ->
  (Detection.min_object_area loose <= Detection.min_object_area strict)%Q ->
  (forall classes, Detection.target_classes loose = Some classes ->
     exists classes', Detection.target_classes strict = Some classes'
                      /\ forall c, In c classes' -> In c classes) ->
  Detection.scan_results strict results = true ->
  Detection.scan_results loose results = true.
Proof.
  intros Hconf Harea Hcls Hs.
  apply scan_results_passes in Hs as (boxes & b & Hboxes & Hb & Hc & H1 & H2).
  apply scan_results_passes. exists boxes, b. split; [done|]. split; [done|].
  unfold Detection.passes. split; [|split; lra].
  destruct (Detection.target_classes loose) as [classes|] eqn:Hl; [|done].
  destruct (Hcls classes eq_refl) as (classes' & Hs' & Hsub).
  rewrite Hs' in Hc. by apply Hsub.
Qed.

Lemma stricter_filter_detects_less_witness :
  Detection.scan_results (Detection.mkFilter (45 # 100) None 100)
    [[Detection.mkBox 0 (9 # 10) 0 0 20 20]] = true.
Proof.
  apply (stricter_filter_detects_less
           (Detection.mkFilter (45 # 100) None 100)
           (Detection.mkFilter (6 # 10) (Some [0; 2]) 300)
           [[Detection.mkBox 0 (9 # 10) 0 0 20 20]]).
  - unfold Qle. simpl. lia.
  - unfold Qle. simpl. lia.
  - intros classes H. discriminate H.
  - vm_compute. reflexivity.
Defined.

(** ** From the decoded frames to the flags *)

Section AnalysisLoop.

Import Motion Analysis.

Variable motion_threshold : Q.
Variable flt : Detection.Filter.
Variable skip : Z.
Variable n : nat.
Hypothesis n_pos : n <> 0%nat.

Lemma step_same_shape g p h :
  length g = n -> length p = n ->
  Motion.step motion_threshold g (mkState (Some p) h) =
  inr (Py.Qltb motion_threshold (avg_motion (push h (motion_score g p))),
       mkState (Some g) (push h (motion_score g p))).
Proof.
  intros Hg Hp. unfold Motion.step. destruct g as [|a g]; [simpl in Hg; congruence|].
  simpl prev_frame. rewrite Hg, Hp, Nat.eqb_refl. done.
Qed.

Lemma step_first g h :
  length g = n ->
  Motion.step motion_threshold g (mkState None h) = inr (false, mkState (Some g) h).
Proof.
  intros Hg. unfold Motion.step. destruct g as [|a g]; [simpl in Hg; congruence|]. done.
Qed.

(** The loop from a state that holds a frame: every analysed frame gets the
    flag of the history grown by the scores of the analysed frames up to
    it. *)
Lemma analyse_from_state raw :
  Forall (fun r => length (gray r) = n) raw ->
  forall idx p h, length p = n ->
  exists fs,
    analyse motion_threshold flt skip idx raw (mkState (Some p) h) = inr fs
    /\ length fs = length raw
    /\ forall i f r, fs !! i = Some f -> raw !! i = Some r ->
         Video.analysed skip (idx + Z.of_nat i) = true ->
         Video.motion_detected f =
           Py.Qltb motion_threshold
             (avg_motion (fold_left push
                (pair_scores p (map gray (sampled skip idx (take (S i) raw)))) h))
         /\ Video.detection f = Detection.scan_results flt (results r).
Proof.
  induction 1 as [|r raw Hr Hraw IH]; intros idx p h Hp.
  - exists []. split; [done|]. split; [done|]. intros i f r Hf. by rewrite lookup_nil in Hf.
  - simpl analyse. destruct (Video.analysed skip idx) eqn:Ha.
    + rewrite (step_same_shape _ _ _ Hr Hp).
      destruct (IH (idx + 1) (gray r) (push h (motion_score (gray r) p)) Hr)
        as (fs & Hfs & Hlen & Hflags).
      rewrite Hfs. eexists. split; [reflexivity|]. split; [simpl; by rewrite Hlen|].
      intros [|i] f r' Hf Hr' Hi.
      * simpl in Hf, Hr'. injection Hf as <-. injection Hr' as <-.
        simpl take. rewrite take_0. simpl sampled. rewrite Ha. done.
      * simpl in Hf, Hr'.
        replace (idx + Z.of_nat (S i)) with (idx + 1 + Z.of_nat i) in Hi by lia.
        destruct (Hflags i f r' Hf Hr' Hi) as [Hm Hd]. split; [|done].
        rewrite Hm. change (take (S (S i)) (r :: raw)) with (r :: take (S i) raw).
        simpl sampled. rewrite Ha. done.
    + destruct (IH (idx + 1) p h Hp) as (fs & Hfs & Hlen & Hflags).
      rewrite Hfs. eexists. split; [reflexivity|]. split; [simpl; by rewrite Hlen|].
      intros [|i] f r' Hf Hr' Hi.
      * rewrite Z.add_0_r in Hi. congruence.
      * simpl in Hf, Hr'.
        replace (idx + Z.of_nat (S i)) with (idx + 1 + Z.of_nat i) in Hi by lia.
        destruct (Hflags i f r' Hf Hr' Hi) as [Hm Hd]. split; [|done].
        rewrite Hm. change (take (S (S i)) (r :: raw)) with (r :: take (S i) raw).
        simpl sampled. rewrite Ha. done.
Qed.

Lemma analysed_0 : skip <> 0 -> Video.analysed skip 0 = true.
Proof. intros Hs. unfold Video.analysed. by rewrite Z.mod_0_l. Qed.

(** The loop from its first frame. *)
Lemma analyse_from_start raw :
  skip <> 0 ->
  Forall (fun r => length (gray r) = n) raw ->
  exists fs,
    analyse motion_threshold flt skip 0 raw initial = inr fs
    /\ length fs = length raw
    /\ (forall f, fs !! 0%nat = Some f -> Video.motion_detected f = false)
    /\ forall i f r, fs !! i = Some f -> raw !! i = Some r ->
         Video.analysed skip (Z.of_nat i) = true ->
         (i <> 0%nat ->
          Video.motion_detected f =
            Py.Qltb motion_threshold
              (avg_motion (fold_left push
                 (consecutive_scores (map gray (sampled skip 0 (take (S i) raw)))) [])))
         /\ Video.detection f = Detection.scan_results flt (results r).
Proof.
  intros Hs Hraw. destruct Hraw as [|r raw Hr Hraw].
  - exists []. split; [done|]. split; [done|].
    split; intros *; by rewrite lookup_nil.
  - simpl analyse. unfold initial. rewrite (step_first _ _ Hr).
    destruct (analyse_from_state raw Hraw 1 (gray r) [] Hr) as (fs & Hfs & Hlen & Hflags).
    change (0 + 1) with 1. rewrite Hfs. eexists. split; [reflexivity|].
    split; [simpl; by rewrite Hlen|]. split.
    + intros f [= <-]. done.
    + intros [|i] f r' Hf Hr' Hi.
      * simpl in Hf, Hr'. injection Hf as <-. injection Hr' as <-. done.
      * simpl in Hf, Hr'.
        replace (Z.of_nat (S i)) with (1 + Z.of_nat i) in Hi by lia.
        destruct (Hflags i f r' Hf Hr' Hi) as [Hm Hd]. split; [|done].
        intros _. rewrite Hm. change (take (S (S i)) (r :: raw)) with (r :: take (S i) raw).
        simpl sampled. done.
Qed.

End AnalysisLoop.

Section AnalysisLoop64.

Import Motion64 Analysis Analysis64.

Variable motion_threshold : float.
Variable flt : Detection.Filter.
Variable skip : Z.
Variable n : nat.
Hypothesis n_pos : n <> 0%nat.

Lemma step64_same_shape g p h :
  length g = n -> length p = n ->
  Motion64.step motion_threshold g (mkState (Some p) h) =
  inr (PrimFloat.ltb motion_threshold (avg_motion (push h (motion_score g p))),
       mkState (Some g) (push h (motion_score g p))).
Proof.
  intros Hg Hp. unfold Motion64.step. destruct g as [|a g]; [simpl in Hg; congruence|].
  simpl prev_frame. rewrite Hg, Hp, Nat.eqb_refl. done.
Qed.

Lemma step64_first g h :
  length g = n ->
  Motion64.step motion_threshold g (mkState None h) = inr (false, mkState (Some g) h).
Proof.
  intros Hg. unfold Motion64.step. destruct g as [|a g]; [simpl in Hg; congruence|]. done.
Qed.

Lemma analyse64_from_state raw :
  Forall (fun r => length (gray r) = n) raw ->
  forall idx p h, length p = n ->
  exists fs,
    analyse motion_threshold flt skip idx raw (mkState (Some p) h) = inr fs
    /\ length fs = length raw
    /\ forall i f r, fs !! i = Some f -> raw !! i = Some r ->
         (Video.analysed skip (idx + Z.of_nat i) = false ->
          f = Video.mkFrame false false)
         /\ (Video.analysed skip (idx + Z.of_nat i) = true ->
             Video.motion_detected f =
               PrimFloat.ltb motion_threshold
                 (avg_motion (fold_left push
                    (pair_scores p (map gray (sampled skip idx (take (S i) raw)))) h))
             /\ Video.detection f = Detection.scan_results flt (results r)).
Proof.
  induction 1 as [|r raw Hr Hraw IH]; intros idx p h Hp.
  - exists []. split; [done|]. split; [done|]. intros i f r Hf. by rewrite lookup_nil in Hf.
  - simpl analyse. destruct (Video.analysed skip idx) eqn:Ha.
    + rewrite (step64_same_shape _ _ _ Hr Hp).
      destruct (IH (idx + 1) (gray r) (push h (motion_score (gray r) p)) Hr)
        as (fs & Hfs & Hlen & Hflags).
      rewrite Hfs. eexists. split; [reflexivity|]. split; [simpl; by rewrite Hlen|].
      intros [|i] f r' Hf Hr'.
      * simpl in Hf, Hr'. injection Hf as <-. injection Hr' as <-.
        rewrite Z.add_0_r, Ha. split; [done|]. intros _.
        simpl take. rewrite take_0. simpl sampled. rewrite Ha. done.
      * simpl in Hf, Hr'.
        replace (idx + Z.of_nat (S i)) with (idx + 1 + Z.of_nat i) by lia.
        destruct (Hflags i f r' Hf Hr') as [Hskip Hm]. split; [done|].
        intros Hi. destruct (Hm Hi) as [Hm' Hd]. split; [|done].
        rewrite Hm'. change (take (S (S i)) (r :: raw)) with (r :: take (S i) raw).
        simpl sampled. rewrite Ha. done.
    + destruct (IH (idx + 1) p h Hp) as (fs & Hfs & Hlen & Hflags).
      rewrite Hfs. eexists. split; [reflexivity|]. split; [simpl; by rewrite Hlen|].
      intros [|i] f r' Hf Hr'.
      * simpl in Hf, Hr'. injection Hf as <-. rewrite Z.add_0_r, Ha. split; [done|]. done.
      * simpl in Hf, Hr'.
        replace (idx + Z.of_nat (S i)) with (idx + 1 + Z.of_nat i) by lia.
        destruct (Hflags i f r' Hf Hr') as [Hskip Hm]. split; [done|].
        intros Hi. destruct (Hm Hi) as [Hm' Hd]. split; [|done].
        rewrite Hm'. change (take (S (S i)) (r :: raw)) with (r :: take (S i) raw).
        simpl sampled. rewrite Ha. done.
Qed.

Lemma analyse64_from_start raw :
  Forall (fun r => length (gray r) = n) raw ->
  exists fs,
    analyse motion_threshold flt skip 0 raw initial = inr fs
    /\ length fs = length raw
    /\ (forall f, fs !! 0%nat = Some f -> Video.motion_detected f = false)
    /\ forall i f r, fs !! i = Some f -> raw !! i = Some r ->
         (Video.analysed skip (Z.of_nat i) = false -> f = Video.mkFrame false false)
         /\ (Video.analysed skip (Z.of_nat i) = true ->
             (i <> 0%nat ->
              Video.motion_detected f =
                PrimFloat.ltb motion_threshold
                  (avg_motion (fold_left push
                     (consecutive_scores (map gray (sampled skip 0 (take (S i) raw)))) [])))
             /\ Video.detection f = Detection.scan_results flt (results r)).
Proof.
  intros Hraw. destruct Hraw as [|r raw Hr Hraw].
  - exists []. split; [done|]. split; [done|].
    split; intros *; by rewrite lookup_nil.
  - simpl analyse. unfold initial. rewrite (step64_first _ _ Hr).
    destruct (analyse64_from_state raw Hraw 1 (gray r) [] Hr) as (fs & Hfs & Hlen & Hflags).
    change (0 + 1) with 1. rewrite Hfs. eexists. split; [reflexivity|].
    split; [simpl; by rewrite Hlen|]. split.
    + intros f [= <-]. done.
    + intros [|i] f r' Hf Hr'.
      * simpl in Hf, Hr'. injection Hf as <-. injection Hr' as <-. split; [done|]. done.
      * simpl in Hf, Hr'.
        replace (Z.of_nat (S i)) with (1 + Z.of_nat i) by lia.
        destruct (Hflags i f r' Hf Hr') as [Hskip Hm]. split; [done|].
        intros Hi. destruct (Hm Hi) as [Hm' Hd]. split; [|done].
        intros _. rewrite Hm'. change (take (S (S i)) (r :: raw)) with (r :: take (S i) raw).
        simpl sampled. done.
Qed.

End AnalysisLoop64.

(** On frames of one shape that is not empty, with a stride that is not
    zero, the analysis raises nothing and gives one pair of flags per frame.
    A frame that line 108 skips adds nothing: its flags are off, and it is
    no part of any motion score.  The first analysed frame never shows
    motion.  Every later analysed frame shows motion exactly when the
    threshold is below the binary64 average (the sum from the left, divided
    by the length) of the latest ten motion scores, or of all of them while
    there are fewer, each the score of an analysed frame against the
    analysed frame before it; and the detection flag of an analysed frame
    is the scan of its own boxes. *)
Theorem motion_flag_window_average (motion_threshold : float) (flt : Detection.Filter)
    (skip : Z) (n : nat) (raw : list Analysis.RawFrame) :
  n <> 0%nat -> skip <> 0 ->
  Forall (fun r => length (Analysis.gray r) = n) raw ->
  exists fs,
    Analysis64.analyse motion_threshold flt skip 0 raw Motion64.initial = inr fs
    /\ length fs = length raw
    /\ (forall f, fs !! 0%nat = Some f -> Video.motion_detected f = false)
    /\ forall i f r, fs !! i = Some f -> raw !! i = Some r ->
         (Video.analysed skip (Z.of_nat i) = false -> f = Video.mkFrame false false)
         /\ (Video.analysed skip (Z.of_nat i) = true ->
             (i <> 0%nat ->
              let scores :=
                Motion64.consecutive_scores
                  (map Analysis.gray (Analysis.sampled skip 0 (take (S i) raw))) in
              Video.motion_detected f =
                PrimFloat.ltb motion_threshold
                  (Motion64.avg_motion (drop (length scores - 10) scores)))
             /\ Video.detection f = Detection.scan_results flt (Analysis.results r)).
Proof.
  intros Hn Hs Hraw.
  destruct (analyse64_from_start motion_threshold flt skip n Hn raw Hraw)
    as (fs & Hfs & Hlen & H0 & Hflags).
  exists fs. split; [done|]. split; [done|]. split; [done|].
  intros i f r Hf Hr. destruct (Hflags i f r Hf Hr) as [Hskip Hm]. split; [done|].
  intros Hi. destruct (Hm Hi) as [Hm' Hd]. split; [|done].
  intros Hne scores. rewrite (Hm' Hne). fold scores.
  by rewrite fold_push64 by (simpl; lia).
Qed.

Lemma motion_flag_window_average_witness :
  exists fs,
    Analysis64.analyse (PrimFloat.div (F64.of_Z 1) (F64.of_Z 100))
      (Detection.mkFilter (45 # 100) None 100) 2 0
      [Analysis.mkRawFrame [10; 20; 30] []; Analysis.mkRawFrame [90; 90; 90] [];
       Analysis.mkRawFrame [10; 80; 31] []]
      Motion64.initial = inr fs
    /\ length fs = 3%nat.
Proof.
  destruct (motion_flag_window_average (PrimFloat.div (F64.of_Z 1) (F64.of_Z 100))
              (Detection.mkFilter (45 # 100) None 100) 2 3
              [Analysis.mkRawFrame [10; 20; 30] []; Analysis.mkRawFrame [90; 90; 90] [];
               Analysis.mkRawFrame [10; 80; 31] []])
    as (fs & Hfs & Hlen & _).
  - lia.
  - lia.
  - repeat constructor.
  - exists fs. split; [exact Hfs|exact Hlen].
Defined.

(** ** The calls that [process_video] makes *)

Section TraceShape.

Import Video Trace.

Variable has_callback : bool.
Variables skip B total : Z.

Lemma loop_frames_trace idx fs st :
  exists progress,
    trace (loop_frames has_callback skip B total idx fs st) = trace st ++ progress
    /\ Forall (fun e => is_progress e = true) progress
    /\ length progress = (if has_callback then count_analysed skip idx fs else 0)%nat.
Proof.
  revert idx st. induction fs as [|f fs IH]; intros idx st.
  - exists []. simpl. rewrite app_nil_r. by destruct has_callback.
  - simpl loop_frames.
    destruct (IH (idx + 1) (loop_frame has_callback skip B total idx f st))
      as (progress & Htr & Hall & Hlen).
    rewrite Htr. unfold loop_frame. simpl count_analysed.
    destruct (analysed skip idx).
    + destruct has_callback.
      * simpl trace. eexists (_ :: progress). rewrite <- app_assoc. split; [reflexivity|].
        split; [by constructor|]. simpl. by rewrite Hlen.
      * simpl trace. exists progress. done.
    + exists progress. split; [done|]. split; [done|]. by destruct has_callback.
Qed.

Lemma loop_frames_detection_count idx fs st :
  detection_count (loop_frames has_callback skip B total idx fs st) =
  (detection_count st + detections skip idx fs)%nat.
Proof.
  revert idx st. induction fs as [|f fs IH]; intros idx st; simpl; [lia|].
  rewrite IH. unfold loop_frame.
  destruct (analysed skip idx); simpl; [|lia].
  destruct (objects_detected skip idx f); simpl; lia.
Qed.

Lemma track_count idx m o t :
  segment_count t = length (segments t) ->
  segment_count (track B idx m o t) = length (segments (track B idx m o t)).
Proof.
  intros Ht. unfold track.
  destruct (m || o), (current_segment t) as [seg|]; simpl; try done.
  destruct (idx - end_ seg >? B); simpl; [|done].
  rewrite length_app. simpl. lia.
Qed.

Lemma track_frames_count idx fs t :
  segment_count t = length (segments t) ->
  segment_count (track_frames skip B idx fs t) = length (segments (track_frames skip B idx fs t)).
Proof.
  revert idx t. induction fs as [|f fs IH]; intros idx t Ht; simpl; [done|].
  apply IH. unfold track_frame. destruct (analysed skip idx); [|done]. by apply track_count.
Qed.

Lemma close_final_count t :
  segment_count t = length (segments t) ->
  segment_count (close_final B total t) = length (segments (close_final B total t)).
Proof.
  intros Ht. unfold close_final. destruct (current_segment t); simpl; [|done].
  rewrite length_app. simpl. lia.
Qed.

End TraceShape.

Section Extraction.

Import Video Trace.

Variable cut : string -> Q -> Q -> bool.
Variables video_name output_dir : string.
Variable fps : Q.

Lemma extract_from_trace i merged :
  Forall (fun e => is_write e = true) (fst (extract_from cut video_name output_dir fps i merged))
  /\ map filename (snd (extract_from cut video_name output_dir fps i merged))
     = omap written (fst (extract_from cut video_name output_dir fps i merged))
  /\ (length (fst (extract_from cut video_name output_dir fps i merged)) <= length merged)%nat.
Proof.
  revert i. induction merged as [|seg rest IH]; intros i; simpl.
  - split; [constructor|]. split; [done|lia].
  - destruct (IH (S i)) as (Hall & Hmap & Hlen).
    destruct (extract_from cut video_name output_dir fps (S i) rest) as [evs cs].
    simpl in Hall, Hmap, Hlen. unfold extract_segment.
    destruct (Qeq_bool fps 0); simpl; [split; [done|]; split; [done|lia]|].
    destruct (Py.Qltb _ 1); simpl; [split; [done|]; split; [done|lia]|].
    destruct (cut _ _ _); simpl.
    + split; [by constructor|]. split; [by rewrite Hmap|lia].
    + split; [by constructor|]. split; [done|lia].
Qed.

End Extraction.

Section CountAnalysed.

Import Video Trace.

Variable skip : Z.
Hypothesis skip_pos : 0 < skip.

Lemma ceil_step idx :
  0 <= idx ->
  (idx + 1 + skip - 1) / skip - (idx + skip - 1) / skip =
  if idx mod skip =? 0 then 1 else 0.
Proof.
  intros Hidx.
  pose proof (Z.div_mod idx skip ltac:(lia)) as Hdm.
  pose proof (Z.mod_pos_bound idx skip skip_pos) as Hb.
  set (q := idx / skip) in *. set (r := idx mod skip) in *.
  destruct (r =? 0) eqn:Hr.
  - apply Z.eqb_eq in Hr.
    replace (idx + 1 + skip - 1) with ((q + 1) * skip + 0) by lia.
    replace (idx + skip - 1) with (q * skip + (skip - 1)) by lia.
    rewrite Z.div_add_l by lia. rewrite Z.div_add_l by lia.
    rewrite Z.div_0_l by lia. rewrite (Z.div_small (skip - 1)) by lia. lia.
  - apply Z.eqb_neq in Hr.
    replace (idx + 1 + skip - 1) with ((q + 1) * skip + r) by lia.
    replace (idx + skip - 1) with ((q + 1) * skip + (r - 1)) by lia.
    rewrite !Z.div_add_l by lia.
    rewrite (Z.div_small r), (Z.div_small (r - 1)) by lia. lia.
Qed.

Lemma count_analysed_ceil idx (fs : list Frame) :
  0 <= idx ->
  Z.of_nat (count_analysed skip idx fs) =
  (idx + Z.of_nat (length fs) + skip - 1) / skip - (idx + skip - 1) / skip.
Proof.
  revert idx. induction fs as [|f fs IH]; intros idx Hidx.
  - simpl. rewrite Z.add_0_r. lia.
  - simpl count_analysed. rewrite Nat2Z.inj_add, IH by lia.
    pose proof (ceil_step idx Hidx) as Hstep. unfold analysed.
    replace (idx + 1 + Z.of_nat (length fs) + skip - 1)
      with (idx + Z.of_nat (length (f :: fs)) + skip - 1) by (simpl length; lia).
    destruct (idx mod skip =? 0); simpl Z.of_nat; lia.
Qed.

End CountAnalysed.

(** The calls that one run of [process_video] makes, when it returns: first
    the progress reports, one per analysed frame (with a positive stride, the
    frame count divided by the stride and rounded up), then the writes, at
    most one per merged segment, then the final report with the number of
    detections and the number of closed segments.  Without a callback only
    the writes are left.  The clips returned are the writes that went
    through, in order. *)
Theorem progress_then_writes (v : Video.Capture) (video_name output_dir : string)
    (config : Video.Config) (has_callback : bool) (cut : string -> Q -> Q -> bool)
    (tr : list Video.Event) (clips : list Video.Clip) :
  Video.process_video (Some v) video_name output_dir config has_callback cut = (tr, inr clips) ->
  let skip := Video.adaptive_skip_frames (Video.adaptive_skip config) (Video.fps v)
                (Video.skip_frames config) in
  let B := Video.buffer_frames (Video.buffer_seconds config) (Video.fps v) in
  exists progress writes,
    tr = progress ++ writes ++
         (if has_callback
          then [Video.ProgressDone (Trace.detections skip 0 (Video.frames v))
                  (length (Video.closed_segments skip B (Video.total_frames v) (Video.frames v)))]
          else [])
    /\ Forall (fun e => Trace.is_progress e = true) progress
    /\ length progress =
       (if has_callback then Trace.count_analysed skip 0 (Video.frames v) else 0)%nat
    /\ (0 < skip ->
        Z.of_nat (Trace.count_analysed skip 0 (Video.frames v)) =
        (Z.of_nat (length (Video.frames v)) + skip - 1) / skip)
    /\ Forall (fun e => Trace.is_write e = true) writes
    /\ (length writes <=
        length (Video.merged_segments skip B (Video.total_frames v) (Video.frames v)))%nat
    /\ map Video.filename clips = omap Trace.written writes.
Proof.
  intros Hrun skip B. unfold Video.process_video in Hrun. fold skip B in Hrun.
  destruct (skip =? 0); [done|].
  destruct (negb _ && _); [done|].
  set (st := Video.loop_frames has_callback skip B (Video.total_frames v) 0 (Video.frames v)
               (Video.mkLoop Video.idle 0 [])) in *.
  pose proof (extract_from_trace cut video_name output_dir (Video.fps v) 0
                (Video.merge_segments
                   (Video.segments (Video.close_final B (Video.total_frames v) (Video.tracking st)))))
    as (Hw & Hmap & Hlen).
  destruct (Video.extract_from _ _ _ _ _ _) as [evs cs].
  injection Hrun as <- <-. simpl in Hw, Hmap, Hlen.
  destruct (loop_frames_trace has_callback skip B (Video.total_frames v) 0 (Video.frames v)
              (Video.mkLoop Video.idle 0 [])) as (progress & Htr & Hp & Hpl).
  fold st in Htr. simpl in Htr.
  assert (Htrack : Video.tracking st =
                   Video.track_frames skip B 0 (Video.frames v) Video.idle)
    by apply loop_frames_tracking.
  exists progress, evs. rewrite Htr.
  split.
  { f_equal. f_equal. destruct has_callback; [|done]. f_equal. f_equal.
    - unfold st. by rewrite loop_frames_detection_count.
    - unfold Video.closed_segments. rewrite Htrack.
      apply close_final_count, track_frames_count. done. }
  split; [done|]. split; [done|]. split.
  { intros Hpos. rewrite (count_analysed_ceil skip Hpos) by lia.
    rewrite Z.add_0_l. replace (0 + skip - 1) with (skip - 1) by lia.
    rewrite (Z.div_small (skip - 1)) by lia. lia. }
  split; [done|]. split; [|done].
  unfold Video.merged_segments, Video.closed_segments. by rewrite <- Htrack.
Qed.

Lemma progress_then_writes_witness :
  exists progress writes,
    [Video.Progress 0 4 0 0; Video.Progress 2 4 0 0;
     Video.WriteVideofile "out/cam_seg001_00000_00002_mot.mp4" 0 2 true;
     Video.ProgressDone 0 1]
    = progress ++ writes ++ [Video.ProgressDone 0 1]
    /\ length progress = 2%nat.
Proof.
  destruct (progress_then_writes
              (Video.mkCapture 1 4 [Stream.moving; Stream.quiet; Stream.moving; Stream.quiet])
              "cam" "out" (Video.mkConfig 0 2 false) true (fun _ _ _ => true)
              [Video.Progress 0 4 0 0; Video.Progress 2 4 0 0;
               Video.WriteVideofile "out/cam_seg001_00000_00002_mot.mp4" 0 2 true;
               Video.ProgressDone 0 1]
              [Video.mkClip "out/cam_seg001_00000_00002_mot.mp4" 0 2 2 0 1])
    as (progress & writes & Htr & _ & Hlen & _).
  - vm_compute. reflexivity.
  - exists progress, writes. split; [exact Htr|exact Hlen].
Defined.

(** ** Footage in which nothing happens *)

Section StaticFootage.

Import Motion Analysis.

Lemma motion_score_close g p :
  g <> [] -> close g p -> (motion_score g p == 0)%Q.
Proof.
  intros Hne Hc. rewrite (motion_score_changed g p Hne).
  assert (Hlen : length g = length p) by (eapply Forall2_length; exact Hc).
  apply (changed_pixels_zero g p Hlen) in Hc. rewrite Hc.
  unfold Qdiv. apply Qmult_0_l.
Qed.

Lemma avg_le_0 h : Forall (fun s => (s <= 0)%Q) h -> (avg_motion h <= 0)%Q.
Proof.
  intros Hall. destruct h as [|s h].
  - unfold avg_motion, sum_Q. simpl. unfold Qle. simpl. lia.
  - apply avg_le; [done|exact Hall].
Qed.

Lemma pair_scores_close (S : Gray -> Prop) p grays :
  (forall a b, S a -> S b -> close a b) ->
  (forall a, S a -> a <> []) ->
  S p -> Forall S grays ->
  Forall (fun s => (s <= 0)%Q) (pair_scores p grays).
Proof.
  intros Hclose Hne. revert p. induction grays as [|g grays IH]; intros p Hp Hall.
  - constructor.
  - inversion Hall; subst. simpl. constructor; [|by apply IH].
    rewrite (motion_score_close g p); [lra|by apply Hne|by apply Hclose].
Qed.

Lemma sampled_In skip idx raw r : In r (sampled skip idx raw) -> In r raw.
Proof.
  revert idx. induction raw as [|x raw IH]; intros idx; simpl; [done|].
  destruct (Video.analysed skip idx); simpl; intros H.
  - destruct H as [->|H]; [by left|]. right. by apply (IH (idx + 1)).
  - right. by apply (IH (idx + 1)).
Qed.

Lemma take_In {A} k (l : list A) x : In x (take k l) -> In x l.
Proof.
  revert k. induction l as [|y l IH]; intros [|k]; simpl; try done.
  intros [->|H]; [by left|]. right. by apply (IH k).
Qed.

End StaticFootage.

Section IdleRun.

Import Video Trace.

Lemma idle_run_writes_nothing (v : Capture) video_name output_dir config has_callback cut tr res :
  Stream.all_idle
    (adaptive_skip_frames (adaptive_skip config) (fps v) (skip_frames config)) 0 (frames v) = true ->
  process_video (Some v) video_name output_dir config has_callback cut = (tr, res) ->
  Forall (fun e => is_write e = false) tr /\ forall clips, res = inr clips -> clips = [].
Proof.
  intros Hidle Hrun. unfold process_video in Hrun.
  set (skip := adaptive_skip_frames _ _ _) in *.
  set (B := buffer_frames _ _) in *.
  destruct (skip =? 0); [injection Hrun as <- <-; by split|].
  destruct (negb _ && _); [injection Hrun as <- <-; by split|].
  rewrite loop_frames_tracking in Hrun. simpl tracking in Hrun.
  rewrite (idle_stays_idle skip B 0 (frames v) idle Hidle eq_refl) in Hrun.
  simpl in Hrun.
  destruct (loop_frames_trace has_callback skip B (total_frames v) 0 (frames v)
              (mkLoop idle 0 [])) as (progress & Htr & Hp & _).
  rewrite Htr in Hrun. simpl in Hrun. injection Hrun as <- <-.
  split; [|by intros clips [= <-]].
  apply Forall_app. split.
  - eapply Forall_impl; [exact Hp|]. intros e He. by destruct e.
  - destruct has_callback; by repeat constructor.
Qed.

End IdleRun.

(** Footage in which nothing happens yields nothing: when the decoded frames
    are not empty, differ from one another by at most 30 in every pixel, and
    no box of the detector passes the filter, then, for any motion threshold
    that is not negative, the analysis finds no activity on any analysed
    frame, and [process_video] on its flags writes no clip and returns none. *)
Theorem static_footage_no_clip (motion_threshold : Q) (flt : Detection.Filter)
    (raw : list Analysis.RawFrame) (fps : Q) (total_frames : Z)
    (video_name output_dir : string) (config : Video.Config) (has_callback : bool)
    (cut : string -> Q -> Q -> bool) :
  let skip := Video.adaptive_skip_frames (Video.adaptive_skip config) fps
                (Video.skip_frames config) in
  skip <> 0 ->
  (0 <= motion_threshold)%Q ->
  (forall r, In r raw -> Analysis.gray r <> []) ->
  (forall r1 r2, In r1 raw -> In r2 raw -> Motion.close (Analysis.gray r1) (Analysis.gray r2)) ->
  (forall r boxes b, In r raw -> In boxes (Analysis.results r) -> In b boxes ->
     ~ Detection.passes flt b) ->
  exists fs,
    Analysis.analyse motion_threshold flt skip 0 raw Motion.initial = inr fs
    /\ Stream.all_idle skip 0 fs = true
    /\ forall tr res,
         Video.process_video (Some (Video.mkCapture fps total_frames fs))
           video_name output_dir config has_callback cut = (tr, res) ->
         Forall (fun e => Trace.is_write e = false) tr
         /\ forall clips, res = inr clips -> clips = [].
Proof.
  intros skip Hskip Hthr Hne Hclose Hboxes.
  destruct raw as [|r0 raw0] eqn:Hraw.
  { exists []. split; [done|]. split; [done|].
    intros tr res Hrun. eapply idle_run_writes_nothing; [|exact Hrun]. done. }
  rewrite <- Hraw in *.
  assert (Hr0 : In r0 raw) by (rewrite Hraw; by left).
  set (n := length (Analysis.gray r0)).
  assert (Hn : n <> 0%nat).
  { unfold n. specialize (Hne r0 Hr0). by destruct (Analysis.gray r0). }
  assert (Hshape : Forall (fun r => length (Analysis.gray r) = n) raw).
  { apply Forall_forall. intros r Hr. apply list_elem_of_In in Hr.
    eapply Forall2_length. apply (Hclose r r0 Hr Hr0). }
  destruct (analyse_from_start motion_threshold flt skip n Hn raw Hskip Hshape)
    as (fs & Hfs & Hlen & H0 & Hflags).
  assert (Hidle : Stream.all_idle skip 0 fs = true).
  { apply all_idle_lookup. intros i f Hf Hi. rewrite Z.add_0_l in Hi |- *.
    assert (Hi' : (i < length raw)%nat) by (rewrite <- Hlen; by apply lookup_lt_Some in Hf).
    destruct (lookup_lt_is_Some_2 raw i Hi') as [r Hr].
    assert (Hin : In r raw) by (apply list_elem_of_In; by eapply list_elem_of_lookup_2).
    destruct (Hflags i f r Hf Hr Hi) as [Hm Hd].
    unfold Stream.active, Video.objects_detected.
    assert (Hdet : Video.detection f = false).
    { rewrite Hd. apply not_true_is_false. intros Hs.
      apply scan_results_passes in Hs as (boxes & b & Hbs & Hb & Hp).
      exact (Hboxes r boxes b Hin Hbs Hb Hp). }
    rewrite Hdet, andb_false_r, orb_false_r.
    destruct i as [|i]; [by apply H0|].
    rewrite (Hm ltac:(done)). apply Qltb_ge.
    apply Qle_trans with 0%Q; [|exact Hthr].
    rewrite fold_push by (simpl; lia). apply avg_le_0.
    simpl app. apply Forall_drop.
    set (grays := map Analysis.gray _).
    assert (Hall : Forall (fun g => exists r', In r' raw /\ g = Analysis.gray r') grays).
    { unfold grays. apply Forall_forall. intros g Hg. apply list_elem_of_In in Hg.
      apply in_map_iff in Hg as (r' & <- & Hr').
      exists r'. split; [|done]. eapply take_In, sampled_In. exact Hr'. }
    destruct grays as [|g grays]; [constructor|]. simpl.
    apply Forall_cons in Hall as [Hg Hgs].
    apply (pair_scores_close (fun g => exists r', In r' raw /\ g = Analysis.gray r')); auto.
    - intros a b (ra & Ha & ->) (rb & Hb & ->). by apply Hclose.
    - intros a (ra & Ha & ->). by apply Hne. }
  exists fs. split; [done|]. split; [done|].
  intros tr res Hrun. eapply idle_run_writes_nothing; [|exact Hrun]. exact Hidle.
Qed.

Lemma static_footage_no_clip_witness :
  exists fs,
    Analysis.analyse (1 # 100) (Detection.mkFilter (45 # 100) None 100) 1 0
      [Analysis.mkRawFrame [10; 20; 30] []; Analysis.mkRawFrame [12; 18; 31] []]
      Motion.initial = inr fs
    /\ Stream.all_idle 1 0 fs = true.
Proof.
  destruct (static_footage_no_clip (1 # 100) (Detection.mkFilter (45 # 100) None 100)
              [Analysis.mkRawFrame [10; 20; 30] []; Analysis.mkRawFrame [12; 18; 31] []]
              25 2 "cam" "out" (Video.mkConfig 5 1 false) true (fun _ _ _ => true))
    as (fs & Hfs & Hidle & _).
  - vm_compute. discriminate.
  - unfold Qle. simpl. lia.
  - intros r [<-|[<-|[]]]; discriminate.
  - intros r1 r2 [<-|[<-|[]]] [<-|[<-|[]]]; repeat constructor; simpl; lia.
  - intros r boxes b [<-|[<-|[]]] [].
  - exists fs. split; [exact Hfs|exact Hidle].
Defined.

(** ** No activity is lost *)

Section Coverage.

Import Video Closed.

Variables skip B : Z.
Hypothesis B_nonneg : 0 <= B.
Variable i : Z.
Variables m o : bool.

Lemma track_covered j mj oj t :
  i <= j ->
  Exists (holds i m o) (segments t)
  \/ (exists seg, current_segment t = Some seg /\ holds i m o seg) ->
  Exists (holds i m o) (segments (track B j mj oj t))
  \/ (exists seg, current_segment (track B j mj oj t) = Some seg /\ holds i m o seg).
Proof.
  intros Hij Hcov. unfold track.
  destruct (mj || oj).
  - destruct (current_segment t) as [seg|] eqn:Hc; simpl.
    + destruct Hcov as [Hl|(seg' & Hs & Hh)]; [by left|]. right.
      injection Hs as <-. eexists. split; [reflexivity|].
      destruct Hh as (Hr & Hm & Ho). unfold holds. simpl.
      split; [lia|]. split; intros H; [rewrite (Hm H)|rewrite (Ho H)]; done.
    + destruct Hcov as [Hl|(seg' & Hs & Hh)]; [by left|done].
  - destruct (current_segment t) as [seg|] eqn:Hc; [|by rewrite Hc].
    destruct (j - end_ seg >? B); [|by rewrite Hc]. simpl. left.
    apply Exists_app.
    destruct Hcov as [Hl|(seg' & Hs & Hh)]; [by left|]. right.
    injection Hs as <-. constructor.
    destruct Hh as (Hr & Hm & Ho). unfold holds. simpl. split; [lia|done].
Qed.

Lemma track_frames_covered j fs t :
  i <= j ->
  Exists (holds i m o) (segments t)
  \/ (exists seg, current_segment t = Some seg /\ holds i m o seg) ->
  Exists (holds i m o) (segments (track_frames skip B j fs t))
  \/ (exists seg, current_segment (track_frames skip B j fs t) = Some seg /\ holds i m o seg).
Proof.
  revert j t. induction fs as [|f fs IH]; intros j t Hij Hcov; simpl; [done|].
  apply IH; [lia|]. unfold track_frame.
  destruct (analysed skip j); [|done]. by apply track_covered.
Qed.

Lemma track_opens_covered t :
  0 <= i -> builder_inv i t -> m || o = true ->
  exists seg, current_segment (track B i m o t) = Some seg /\ holds i m o seg.
Proof.
  intros Hi [_ Hcur] Hact. unfold track. rewrite Hact.
  destruct (current_segment t) as [seg|] eqn:Hc; simpl.
  - destruct (Hcur seg eq_refl) as [Hok Hend]. unfold seg_ok in Hok.
    eexists. split; [reflexivity|]. unfold holds. simpl.
    split; [lia|]. split; intros ->; apply orb_true_r.
  - eexists. split; [reflexivity|]. unfold holds. simpl. split; [lia|done].
Qed.

Lemma close_final_covered total t :
  i <= total - 1 ->
  Exists (holds i m o) (segments t)
  \/ (exists seg, current_segment t = Some seg /\ holds i m o seg) ->
  Exists (holds i m o) (segments (close_final B total t)).
Proof.
  intros Hi Hcov. unfold close_final.
  destruct (current_segment t) as [seg|] eqn:Hc; simpl.
  - apply Exists_app. destruct Hcov as [Hl|(seg' & Hs & Hh)]; [by left|]. right.
    injection Hs as <-. constructor. destruct Hh as (Hr & Hm & Ho).
    unfold holds. simpl. split; [lia|done].
  - destruct Hcov as [Hl|(seg' & Hs & Hh)]; done.
Qed.

Lemma merge_covered l :
  Exists (holds i m o) l -> Exists (holds i m o) (merge_segments l).
Proof.
  intros Hex. apply Exists_exists in Hex as (s & Hs & Hh).
  rewrite merge_segments_coalesce.
  pose proof (sort_ascending l) as Hasc.
  assert (Hin : s ∈ sort_by_start l) by by apply sort_elem.
  destruct (sort_by_start l) as [|x rest]; [by apply elem_of_nil in Hin|].
  destruct (coalesce_covers x rest Hasc s Hin) as (c & Hc & Hcov).
  apply Exists_exists. exists c. split; [done|].
  destruct Hcov as (H1 & H2 & H3 & H4). destruct Hh as (Hr & Hm & Ho).
  unfold holds. split; [lia|]. split; auto.
Qed.

End Coverage.

Lemma covered_by_merged (skip B total : Z) (fs : list Video.Frame) (i : nat)
    (f : Video.Frame) :
  0 <= B -> Z.of_nat (length fs) <= total ->
  fs !! i = Some f ->
  Video.analysed skip (Z.of_nat i) = true ->
  Stream.active skip (Z.of_nat i) f = true ->
  exists seg,
    seg ∈ Video.merged_segments skip B total fs
    /\ Video.start seg <= Z.of_nat i <= Video.end_ seg
    /\ (Video.motion_detected f = true -> Video.motion seg = true)
    /\ (Video.objects_detected skip (Z.of_nat i) f = true -> Video.objects seg = true).
Proof.
  intros HB Htotal Hf Han Hact.
  pose proof (lookup_lt_Some _ _ _ Hf) as Hlt.
  assert (Hsplit : fs = take i fs ++ [f] ++ drop (S i) fs).
  { simpl. by rewrite (take_drop_middle fs i f Hf). }
  assert (Hlen : length (take i fs) = i) by (rewrite length_take; lia).
  set (m := Video.motion_detected f).
  set (o := Video.objects_detected skip (Z.of_nat i) f).
  assert (Hex : Exists (Closed.holds (Z.of_nat i) m o)
                  (Video.closed_segments skip B total fs)).
  { unfold Video.closed_segments. rewrite Hsplit at 1.
    rewrite !track_frames_app. rewrite Hlen, Z.add_0_l.
    apply close_final_covered; [done|lia|].
    apply track_frames_covered; [done|simpl length; lia|].
    simpl Video.track_frames. unfold Video.track_frame. rewrite Han. right.
    apply (track_opens_covered B HB (Z.of_nat i) m o _ ltac:(lia)); [|exact Hact].
    pose proof (track_frames_inv skip B HB 0 (take i fs) Video.idle ltac:(lia) idle_inv) as Hinv.
    by rewrite Hlen, Z.add_0_l in Hinv. }
  apply (merge_covered (Z.of_nat i) m o) in Hex.
  apply Exists_exists in Hex as (seg & Hseg & Hr & Hm & Ho).
  exists seg. split; [exact Hseg|]. split; [exact Hr|]. split; [exact Hm|exact Ho].
Qed.

(** No activity is lost: with a buffer that is not negative and a frame
    count that is not below the number of decoded frames, every analysed
    frame that shows motion or an object lies within one of the merged
    segments, and that segment carries the flags of the frame. *)
Theorem active_frame_covered (skip B total : Z) (fs : list Video.Frame) (i : nat)
    (f : Video.Frame) :
  0 <= B -> Z.of_nat (length fs) <= total ->
  fs !! i = Some f ->
  Video.analysed skip (Z.of_nat i) = true ->
  Stream.active skip (Z.of_nat i) f = true ->
  exists seg,
    seg ∈ Video.merged_segments skip B total fs
    /\ Video.start seg <= Z.of_nat i <= Video.end_ seg
    /\ (Video.motion_detected f = true -> Video.motion seg = true)
    /\ (Video.objects_detected skip (Z.of_nat i) f = true -> Video.objects seg = true).
Proof. apply covered_by_merged. Qed.

Lemma active_frame_covered_witness :
  exists seg,
    seg ∈ Video.merged_segments 1 2 5
            [Stream.quiet; Stream.quiet; Stream.quiet; Stream.moving; Stream.quiet]
    /\ Video.start seg <= 3 <= Video.end_ seg.
Proof.
  destruct (active_frame_covered 1 2 5
              [Stream.quiet; Stream.quiet; Stream.quiet; Stream.moving; Stream.quiet]
              3 Stream.moving) as (seg & Hseg & Hr & _).
  - lia.
  - simpl. lia.
  - reflexivity.
  - reflexivity.
  - reflexivity.
  - exists seg. split; [exact Hseg|exact Hr].
Defined.

(** ** The closed segments come in order *)

Section ClosedOrder.

Import Video Closed.

Variables skip B : Z.
Hypothesis B_nonneg : 0 <= B.

Lemma chain_snoc (R : Segment -> Segment -> Prop) l x :
  chain R l -> (forall a, last l = Some a -> R a x) -> chain R (l ++ [x]).
Proof.
  intros Hl Hx k a b Ha Hb.
  destruct (decide (S k < length l)%nat) as [Hlt|Hge].
  - rewrite lookup_app_l in Ha by lia. rewrite lookup_app_l in Hb by lia. by eapply Hl.
  - assert (Hk : (k < length l)%nat).
    { apply lookup_lt_Some in Hb. rewrite length_app in Hb. simpl in Hb. lia. }
    assert (Hk' : S k = length l) by lia.
    rewrite lookup_app_l in Ha by lia.
    rewrite lookup_app_r in Hb by lia.
    replace (S k - length l)%nat with 0%nat in Hb by lia. injection Hb as <-.
    apply Hx. rewrite last_lookup. rewrite <- Hk'. simpl. exact Ha.
Qed.

Lemma chain_ascending l : chain (follows B) l -> Segments.ascending l.
Proof.
  induction l as [|x l IH]; intros Hl; [done|].
  destruct l as [|y l]; [done|]. split.
  - destruct (Hl 0%nat x y eq_refl eq_refl). lia.
  - apply IH. intros k a b Ha Hb. by apply (Hl (S k) a b).
Qed.

Lemma chain_disjoint l : B = 0 -> chain (follows B) l -> Segments.disjoint l.
Proof.
  intros HB. induction l as [|x l IH]; intros Hl; [done|].
  destruct l as [|y l]; [done|]. split.
  - destruct (Hl 0%nat x y eq_refl eq_refl). lia.
  - apply IH. intros k a b Ha Hb. by apply (Hl (S k) a b).
Qed.

(** The builder before frame [idx]: the closed segments are in order, each
    at least as long as the buffer and ended before [idx]; the open one
    begins after all of them. *)
Lemma track_order idx mj oj t :
  0 <= idx ->
  (chain (follows B) (segments t)
   /\ Forall (fun s => start s <= end_ s - B /\ end_ s < idx) (segments t)
   /\ forall seg, current_segment t = Some seg ->
        start seg <= end_ seg /\ end_ seg < idx
        /\ Forall (fun s => end_ s - B < start seg) (segments t)) ->
  chain (follows B) (segments (track B idx mj oj t))
  /\ Forall (fun s => start s <= end_ s - B /\ end_ s < idx + 1) (segments (track B idx mj oj t))
  /\ forall seg, current_segment (track B idx mj oj t) = Some seg ->
       start seg <= end_ seg /\ end_ seg < idx + 1
       /\ Forall (fun s => end_ s - B < start seg) (segments (track B idx mj oj t)).
Proof.
  intros Hidx (Hch & Hall & Hcur).
  assert (Hall' : Forall (fun s => start s <= end_ s - B /\ end_ s < idx + 1) (segments t)).
  { eapply Forall_impl; [exact Hall|]. simpl. intros s [? ?]. lia. }
  unfold track. destruct (mj || oj).
  - destruct (current_segment t) as [seg|] eqn:Hc; simpl.
    + split; [done|]. split; [done|]. intros seg' [= <-]. simpl.
      destruct (Hcur seg eq_refl) as (H1 & H2 & H3). split; [lia|]. split; [lia|done].
    + split; [done|]. split; [done|]. intros seg' [= <-]. simpl.
      split; [lia|]. split; [lia|].
      eapply Forall_impl; [exact Hall|]. simpl. intros s [? ?]. lia.
  - destruct (current_segment t) as [seg|] eqn:Hc.
    + destruct (Hcur seg eq_refl) as (H1 & H2 & H3).
      destruct (idx - end_ seg >? B) eqn:Hgt.
      * apply Z.gtb_lt in Hgt. simpl. split; [|split; [|done]].
        -- apply chain_snoc; [done|]. intros a Ha.
           apply last_Some_elem_of in Ha.
           rewrite Forall_forall in Hall, H3.
           specialize (Hall a Ha). specialize (H3 a Ha). unfold follows. simpl. lia.
        -- apply Forall_app. split; [done|]. constructor; [|constructor]. simpl. lia.
      * split; [done|]. split; [done|]. rewrite Hc. intros seg' [= <-].
        split; [lia|]. split; [lia|done].
    + split; [done|]. split; [done|]. rewrite Hc. done.
Qed.

Lemma track_frames_order idx fs t :
  0 <= idx ->
  (chain (follows B) (segments t)
   /\ Forall (fun s => start s <= end_ s - B /\ end_ s < idx) (segments t)
   /\ forall seg, current_segment t = Some seg ->
        start seg <= end_ seg /\ end_ seg < idx
        /\ Forall (fun s => end_ s - B < start seg) (segments t)) ->
  chain (follows B) (segments (track_frames skip B idx fs t))
  /\ forall seg, current_segment (track_frames skip B idx fs t) = Some seg ->
       Forall (fun s => start s <= end_ s - B /\ end_ s - B < start seg)
         (segments (track_frames skip B idx fs t)).
Proof.
  revert idx t. induction fs as [|f fs IH]; intros idx t Hidx Hinv.
  - simpl. destruct Hinv as (Hch & Hall & Hcur). split; [done|].
    intros seg Hseg. destruct (Hcur seg Hseg) as (_ & _ & H3).
    rewrite Forall_forall in Hall, H3. apply Forall_forall. intros s Hs.
    specialize (Hall s Hs). specialize (H3 s Hs). lia.
  - simpl. apply IH; [lia|]. unfold track_frame.
    destruct (analysed skip idx); [by apply track_order|].
    destruct Hinv as (Hch & Hall & Hcur). split; [done|]. split.
    + eapply Forall_impl; [exact Hall|]. simpl. intros s [? ?]. lia.
    + intros seg Hseg. destruct (Hcur seg Hseg) as (H1 & H2 & H3).
      split; [lia|]. split; [lia|done].
Qed.

Lemma closed_segments_chain total fs :
  chain (follows B) (closed_segments skip B total fs).
Proof.
  unfold closed_segments.
  destruct (track_frames_order 0 fs idle ltac:(lia)) as [Hch Hcur].
  { split; [by intros k a b Ha|]. split; [constructor|]. by intros seg. }
  unfold close_final.
  destruct (current_segment (track_frames skip B 0 fs idle)) as [seg|] eqn:Hc; [|done].
  simpl. apply chain_snoc; [done|]. intros a Ha. apply last_Some_elem_of in Ha.
  specialize (Hcur seg eq_refl). rewrite Forall_forall in Hcur.
  specialize (Hcur a Ha). unfold follows. simpl. lia.
Qed.

End ClosedOrder.

(** With a buffer that is not negative the builder closes its segments in
    order: each closed segment begins after the one before it begins, and
    less than the buffer before that one ends.  So the sort of line 257
    never moves a segment, and with a buffer of zero the merge changes
    nothing. *)
Theorem closed_segments_in_order (skip B total : Z) (fs : list Video.Frame) :
  0 <= B ->
  Closed.chain (Closed.follows B) (Video.closed_segments skip B total fs)
  /\ Video.sort_by_start (Video.closed_segments skip B total fs)
     = Video.closed_segments skip B total fs
  /\ (B = 0 ->
      Video.merged_segments skip B total fs = Video.closed_segments skip B total fs).
Proof.
  intros HB. pose proof (closed_segments_chain skip B HB total fs) as Hch.
  split; [exact Hch|]. split.
  - apply sort_ascending_id. by apply (chain_ascending B).
  - intros H0. unfold Video.merged_segments. apply merge_fixed.
    + by apply (chain_ascending B).
    + by apply (chain_disjoint B).
Qed.

Lemma closed_segments_in_order_witness :
  Video.sort_by_start
    (Video.closed_segments 1 1 9
       [Stream.moving; Stream.quiet; Stream.quiet; Stream.moving; Stream.quiet])
  = Video.closed_segments 1 1 9
      [Stream.moving; Stream.quiet; Stream.quiet; Stream.moving; Stream.quiet].
Proof.
  exact (proj1 (proj2 (closed_segments_in_order 1 1 9
           [Stream.moving; Stream.quiet; Stream.quiet; Stream.moving; Stream.quiet]
           ltac:(lia)))).
Defined.

(** ** Paths and names *)

Section PathNames.

Import Py Paths.

Lemma app_cons c (a b : string) : (String c a +:+ b = String c (a +:+ b))%string.
Proof. reflexivity. Qed.

Lemma app_empty_l (b : string) : (EmptyString +:+ b = b)%string.
Proof. reflexivity. Qed.

Lemma app_empty_r (a : string) : (a +:+ EmptyString = a)%string.
Proof. induction a as [|c a IH]; [done|]. by rewrite app_cons, IH. Qed.

Lemma basename_acc_app acc a b :
  basename_acc acc (a +:+ b) = basename_acc (basename_acc acc a) b.
Proof.
  revert acc. induction a as [|c a IH]; intros acc.
  - by rewrite app_empty_l.
  - rewrite app_cons. simpl. destruct (Ascii.eqb c "/"); apply IH.
Qed.

Lemma basename_acc_no_slash acc f :
  no_slash f = true -> basename_acc acc f = (acc +:+ f)%string.
Proof.
  revert acc. induction f as [|c f IH]; intros acc Hf; simpl.
  - by rewrite app_empty_r.
  - simpl in Hf. apply andb_true_iff in Hf as [Hc Hf].
    apply negb_true_iff in Hc. rewrite Hc, (IH _ Hf).
    by rewrite append_assoc.
Qed.

Lemma basename_acc_ends_with_slash acc a :
  ends_with_slash a = true -> basename_acc acc a = EmptyString.
Proof.
  revert acc. induction a as [|c a IH]; intros acc Ha; [done|].
  destruct a as [|c' a].
  - simpl in Ha. simpl. by rewrite Ha.
  - change (ends_with_slash (String c' a) = true) in Ha.
    simpl basename_acc at 1. destruct (Ascii.eqb c "/"); by apply IH.
Qed.

Lemma basename_join a f : no_slash f = true -> basename (path_join a f) = f.
Proof.
  intros Hf. unfold basename, path_join. destruct a as [|c a].
  - by rewrite basename_acc_no_slash.
  - destruct (ends_with_slash (String c a)) eqn:Ha.
    + rewrite basename_acc_app, (basename_acc_ends_with_slash _ _ Ha).
      by rewrite basename_acc_no_slash.
    + rewrite basename_acc_app.
      change ("/" +:+ f)%string with (String "/" f). simpl.
      by rewrite basename_acc_no_slash.
Qed.

End PathNames.

(** The name under which a listed file goes into the log is its own name:
    [os.path.basename] undoes [os.path.join] with the directory, whatever
    the directory, for a name without a slash; and a path that ends in a
    slash has the empty base name. *)
Theorem basename_undoes_join (subfolder_path f : string) :
  Paths.no_slash f = true ->
  Py.basename (Py.path_join subfolder_path f) = f
  /\ (Py.ends_with_slash subfolder_path = true -> Py.basename subfolder_path = EmptyString).
Proof.
  intros Hf. split; [by apply basename_join|]. apply basename_acc_ends_with_slash.
Qed.

Lemma basename_undoes_join_witness :
  Py.basename (Py.path_join "videos/cam1" "a.mp4") = "a.mp4"%string.
Proof.
  exact (proj1 (basename_undoes_join "videos/cam1" "a.mp4" eq_refl)).
Defined.

(** ** The log over two runs *)

Section InitialiseLog.

Import CsvLogger.

Variable json_loads : string -> option (list string).

Lemma record_of_snoc_empty rows name file :
  record_of (rows ++ [empty_row name]) file =
  if String.eqb name file then Some (empty_row name) else record_of rows file.
Proof.
  rewrite record_of_app. simpl. by destruct (String.eqb name file).
Qed.

Lemma record_of_empty_rows new file :
  record_of (map empty_row new) file =
  if decide (file ∈ new) then Some (empty_row file) else None.
Proof.
  induction new as [|n new IH]; simpl; [done|].
  rewrite IH. destruct (decide (file ∈ new)) as [Hin|Hnin].
  - rewrite decide_True; [done|]. by apply list_elem_of_further.
  - destruct (String.eqb n file) eqn:Heq.
    + apply String.eqb_eq in Heq. subst. rewrite decide_True; [done|]. apply list_elem_of_here.
    + apply String.eqb_neq in Heq. rewrite decide_False; [done|].
      intros Hin. apply elem_of_cons in Hin as [->|Hin]; done.
Qed.

(** The loop of lines 59-71 from a dictionary that holds the names of the
    rows: the rows it appends. *)
Lemma add_new_files_rows video_files (d : gmap string Entry) rows :
  (forall file, d !! file = None <-> record_of rows file = None) ->
  exists new,
    snd (fold_left add_new_file video_files (d, rows)) = rows ++ map empty_row new
    /\ NoDup new
    /\ (forall f, f ∈ new <-> f ∈ (Py.basename <$> video_files) /\ record_of rows f = None).
Proof.
  revert d rows. induction video_files as [|p ps IH]; intros d rows Hinv.
  - exists []. simpl. rewrite app_nil_r. split; [done|]. split; [constructor|].
    intros f. split; [by intros H%elem_of_nil|]. by intros [H%elem_of_nil _].
  - rewrite fold_add_new_file_cons, add_new_file_eq.
    destruct (d !! Py.basename p) as [e|] eqn:Hp.
    + destruct (IH d rows Hinv) as (new & Hrows & Hnd & Hnew).
      exists new. split; [done|]. split; [done|]. intros f. rewrite Hnew, fmap_cons, elem_of_cons.
      split; [tauto|]. intros [[->|Hf] Hnone]; [|done].
      apply Hinv in Hnone. congruence.
    + set (n := Py.basename p) in *.
      assert (Hinv' : forall file,
                 <[n := mkEntry n EmptyString EmptyString EmptyString (Cell EmptyString)]> d !! file
                 = None <-> record_of (rows ++ [empty_row n]) file = None).
      { intros file. rewrite record_of_snoc_empty.
        destruct (String.eqb n file) eqn:Heq.
        - apply String.eqb_eq in Heq. subst file. by rewrite lookup_insert_eq.
        - apply String.eqb_neq in Heq. by rewrite lookup_insert_ne. }
      destruct (IH _ _ Hinv') as (new & Hrows & Hnd & Hnew).
      assert (Hn : record_of rows n = None) by by apply Hinv.
      exists (n :: new). split; [by rewrite Hrows, <- app_assoc|]. split.
      * apply NoDup_cons. split; [|done]. intros Hin. apply Hnew in Hin as [_ Hin].
        rewrite record_of_snoc_empty, string_eqb_refl in Hin. done.
      * intros f. rewrite elem_of_cons, Hnew, record_of_snoc_empty, fmap_cons, elem_of_cons.
        fold n. destruct (String.eqb n f) eqn:Heq.
        -- apply String.eqb_eq in Heq. subst f. split; [|tauto]. intros _. split; [by left|done].
        -- apply String.eqb_neq in Heq. split.
           ++ intros [->|[Hf Hnone]]; [done|]. split; [by right|done].
           ++ intros [[->|Hf] Hnone]; [done|]. right. done.
Qed.

Lemma read_rows_names rows file :
  read_rows json_loads rows !! file = None <-> record_of rows file = None.
Proof. rewrite read_rows_lookup. by destruct (record_of rows file). Qed.

Lemma initialize_rows log video_files :
  exists new,
    snd (initialize_processing_log json_loads log video_files)
    = match log with Some rows => rows | None => [] end ++ map empty_row new
    /\ NoDup new
    /\ (forall f, f ∈ new <->
          f ∈ (Py.basename <$> video_files)
          /\ record_of (match log with Some rows => rows | None => [] end) f = None).
Proof. unfold initialize_processing_log. apply add_new_files_rows, read_rows_names. Qed.

Lemma initialize_record log video_files file :
  record_of (snd (initialize_processing_log json_loads log video_files)) file =
  match record_of (match log with Some rows => rows | None => [] end) file with
  | Some r => Some r
  | None => if decide (file ∈ (Py.basename <$> video_files)) then Some (empty_row file) else None
  end.
Proof.
  destruct (initialize_rows log video_files) as (new & -> & _ & Hnew).
  rewrite record_of_app, record_of_empty_rows.
  destruct (decide (file ∈ new)) as [Hin|Hnin].
  - apply Hnew in Hin as [Hin ->]. by rewrite decide_True.
  - destruct (record_of _ file) eqn:Hrec; [done|].
    destruct (decide (file ∈ Py.basename <$> video_files)) as [Hin|]; [|done].
    destruct Hnin. by apply Hnew.
Qed.

End InitialiseLog.

(** [initialize_processing_log] leaves the rows of the log as they are and
    appends one empty row for each listed file that has none, once per name
    even when the name is listed twice.  Afterwards every listed file has a
    record, and a second call on the same files appends nothing. *)
Theorem initialize_appends_missing_rows (json_loads : string -> option (list string))
    (log : CsvLogger.LogFile) (video_files : list string) :
  let rows := match log with Some rows => rows | None => [] end in
  let rows' := snd (CsvLogger.initialize_processing_log json_loads log video_files) in
  (exists new,
     rows' = rows ++ map CsvLogger.empty_row new
     /\ NoDup new
     /\ forall f, f ∈ new <->
          f ∈ (Py.basename <$> video_files) /\ CsvLogger.record_of rows f = None)
  /\ (forall p, p ∈ video_files -> is_Some (CsvLogger.record_of rows' (Py.basename p)))
  /\ snd (CsvLogger.initialize_processing_log json_loads (Some rows') video_files) = rows'.
Proof.
  intros rows rows'. split; [apply initialize_rows|]. split.
  - intros p Hp. unfold rows'. rewrite initialize_record.
    destruct (CsvLogger.record_of _ (Py.basename p)); [done|].
    rewrite decide_True; [done|]. by apply list_elem_of_fmap_2.
  - destruct (initialize_rows json_loads (Some rows') video_files) as (new & Hrows & _ & Hnew).
    rewrite Hrows. destruct new as [|f new]; [by rewrite app_nil_r|].
    destruct (proj1 (Hnew f) ltac:(apply list_elem_of_here)) as [Hin Hnone].
    unfold rows' in Hnone. rewrite initialize_record in Hnone.
    destruct (CsvLogger.record_of _ f); [done|]. by rewrite decide_True in Hnone.
Qed.

Section NextRun.

Import CsvLogger Processor Batch Paths.

Variable json_loads : string -> option (list string).
Variable pipeline : string -> exn + list Video.Clip.
Variable now : string -> string.
Hypothesis now_nonempty : forall p, now p <> EmptyString.







End NextRun.



(** ** The record of a file that went through *)

Section SuccessRow.

Import Video CsvLogger Processor Paths.

Lemma no_slash_app a b : no_slash (a +:+ b) = no_slash a && no_slash b.
Proof.
  induction a as [|c a IH]; [done|].
  change (no_slash (String c (a +:+ b)) = no_slash (String c a) && no_slash b).
  simpl. by rewrite IH, andb_assoc.
Qed.

Lemma uint_no_slash d : no_slash (NilEmpty.string_of_uint d) = true.
Proof. induction d; simpl; by rewrite ?IHd. Qed.

Lemma str_Z_no_slash n : no_slash (Py.str_Z n) = true.
Proof. unfold Py.str_Z. destruct n as [|p|p]; simpl; [done| |]; apply uint_no_slash. Qed.

Lemma zeros_no_slash k : no_slash (Py.zeros k) = true.
Proof. induction k as [|k IH]; simpl; by rewrite ?IH. Qed.

Lemma zfill_no_slash w n : no_slash (Py.zfill w n) = true.
Proof. unfold Py.zfill. by rewrite no_slash_app, zeros_no_slash, str_Z_no_slash. Qed.

Lemma remove_char_no_slash c s : no_slash s = true -> no_slash (Py.remove_char c s) = true.
Proof.
  induction s as [|a s IH]; simpl; [done|]. intros H. apply andb_true_iff in H as [Ha Hs].
  destruct (Ascii.eqb a c); simpl; [by apply IH|]. by rewrite Ha, IH.
Qed.

Lemma timedelta_no_slash n : no_slash (Py.timedelta_str n) = true.
Proof.
  unfold Py.timedelta_str. destruct (n / 86400 =? 0).
  - by rewrite !no_slash_app, str_Z_no_slash, !zfill_no_slash.
  - rewrite !no_slash_app, !str_Z_no_slash, !zfill_no_slash.
    by destruct (Z.abs (n / 86400) =? 1).
Qed.

Lemma clip_file_name_no_slash video_name i fps seg :
  no_slash video_name = true -> no_slash (clip_file_name video_name i fps seg) = true.
Proof.
  intros Hn. unfold clip_file_name, segment_name, time_str.
  rewrite !no_slash_app, Hn, zfill_no_slash.
  rewrite !remove_char_no_slash by apply timedelta_no_slash.
  by destruct (Video.objects seg), (Video.motion seg).
Qed.

Lemma sum_flags (flag : Clip -> Z) clips acc :
  Forall (fun c => flag c = 0 \/ flag c = 1) clips ->
  fold_left (fun n c => n + flag c) clips acc
  = acc + Z.of_nat (length (filter (fun c => flag c = 1) clips)).
Proof.
  intros Hall. revert acc. induction Hall as [|c clips Hc Hall IH]; intros acc; simpl; [lia|].
  rewrite IH, filter_cons. destruct (decide (flag c = 1)); simpl length; lia.
Qed.

End SuccessRow.

(** The record of a file whose clips [process_video] returned: the time
    stamp of the task, under [objects] the number of clips cut from a
    segment with a detection and under [motion] the number cut from a
    segment with motion (clips, not objects, are counted), and under
    [segment_files] the JSON list of the clip files by name, each the name
    of a merged segment's clip, without the output directory. *)
Theorem success_row_counts_clips (v : Video.Capture) (video_name output_dir : string)
    (config : Video.Config) (has_callback : bool) (cut : string -> Q -> Q -> bool)
    (tr : list Video.Event) (clips : list Video.Clip)
    (rows : list CsvLogger.Row) (now : string) (i : nat) (video_path : string) :
  Paths.no_slash video_name = true ->
  Video.process_video (Some v) video_name output_dir config has_callback cut = (tr, inr clips) ->
  exists rows' row,
    Processor.process_single_video (Some rows) now i video_path (inr clips)
    = (Some rows', inr (Processor.mkTaskResult i (Py.basename video_path) clips None))
    /\ CsvLogger.record_of rows' (Py.basename video_path) = Some row
    /\ CsvLogger.filename row = Py.basename video_path
    /\ CsvLogger.processed_datetime row = now
    /\ CsvLogger.objects row
       = Py.str_Z (Z.of_nat (length (filter (fun c => Video.clip_objects c = 1) clips)))
    /\ CsvLogger.motion row
       = Py.str_Z (Z.of_nat (length (filter (fun c => Video.clip_motion c = 1) clips)))
    /\ CsvLogger.segment_files row
       = Py.json_dumps (map (fun c => Py.basename (Video.filename c)) clips)
    /\ Forall (fun c => exists k seg,
                 Video.merged_segments
                   (Video.adaptive_skip_frames (Video.adaptive_skip config) (Video.fps v)
                      (Video.skip_frames config))
                   (Video.buffer_frames (Video.buffer_seconds config) (Video.fps v))
                   (Video.total_frames v) (Video.frames v) !! k = Some seg
                 /\ Py.basename (Video.filename c)
                    = Video.clip_file_name video_name k (Video.fps v) seg) clips.
Proof.
  intros Hname Hrun.
  pose proof (process_video_clips _ _ _ _ _ _ _ _ Hrun) as Hclips.
  assert (Hall : Forall (fun c => exists k seg,
                   Video.merged_segments
                     (Video.adaptive_skip_frames (Video.adaptive_skip config) (Video.fps v)
                        (Video.skip_frames config))
                     (Video.buffer_frames (Video.buffer_seconds config) (Video.fps v))
                     (Video.total_frames v) (Video.frames v) !! k = Some seg
                   /\ Video.filename c
                      = Py.path_join output_dir (Video.clip_file_name video_name k (Video.fps v) seg)
                   /\ Video.clip_objects c = (if Video.objects seg then 1 else 0)
                   /\ Video.clip_motion c = (if Video.motion seg then 1 else 0)) clips).
  { apply Forall_forall. intros c Hc. rewrite Hclips in Hc.
    destruct (extract_from_clips _ _ _ _ _ _ _ Hc) as (k & seg & Hk & Hf & Ho & Hm).
    exists k, seg. simpl in Hf. done. }
  destruct (record_after_update rows (Py.basename video_path) (Processor.success_data now clips))
    as (rows' & row & Hupd & Hrec & Hfile).
  exists rows', (CsvLogger.apply_data (Processor.success_data now clips) row).
  split; [unfold Processor.process_single_video; by rewrite Hupd|].
  split; [done|]. split; [done|]. split; [done|]. simpl.
  split; [|split; [|split; [done|]]].
  - f_equal. rewrite (sum_flags Video.clip_objects); [lia|].
    eapply Forall_impl; [exact Hall|]. simpl. intros c (k & seg & _ & _ & Ho & _).
    rewrite Ho. destruct (Video.objects seg); auto.
  - f_equal. rewrite (sum_flags Video.clip_motion); [lia|].
    eapply Forall_impl; [exact Hall|]. simpl. intros c (k & seg & _ & _ & _ & Hm).
    rewrite Hm. destruct (Video.motion seg); auto.
  - eapply Forall_impl; [exact Hall|]. simpl. intros c (k & seg & Hk & Hf & _).
    exists k, seg. split; [done|]. rewrite Hf.
    apply basename_join. by apply clip_file_name_no_slash.
Qed.

Lemma success_row_counts_clips_witness :
  exists rows' row,
    CsvLogger.record_of rows' "cam.mp4" = Some row
    /\ CsvLogger.motion row = "1"%string
    /\ CsvLogger.segment_files row
       = Py.json_dumps ["cam_seg001_00000_00002_mot.mp4"%string].
Proof.
  destruct (success_row_counts_clips
              (Video.mkCapture 1 4 [Stream.moving; Stream.quiet; Stream.moving; Stream.quiet])
              "cam" "out" (Video.mkConfig 0 2 false) true (fun _ _ _ => true)
              [Video.Progress 0 4 0 0; Video.Progress 2 4 0 0;
               Video.WriteVideofile "out/cam_seg001_00000_00002_mot.mp4" 0 2 true;
               Video.ProgressDone 0 1]
              [Video.mkClip "out/cam_seg001_00000_00002_mot.mp4" 0 2 2 0 1]
              [CsvLogger.empty_row "cam.mp4"] "2026-01-01 00:00:00" 0 "videos/cam.mp4")
    as (rows' & row & _ & Hrec & _ & _ & _ & Hm & Hs & _).
  - reflexivity.
  - vm_compute. reflexivity.
  - exists rows', row. split; [exact Hrec|]. split; [exact Hm|exact Hs].
Defined.

(** ** Rewrites of the log *)

Section Rewrites.

Import CsvLogger Processor.






End Rewrites.


(** Without the log file neither the record of a success nor the record of
    a failure can be written: the exception of [open] leaves the task, also
    from its [except] clause, and the loop over the tasks ends on the first
    file, whatever the pipeline did. *)
Theorem missing_log_ends_batch (pipeline : string -> exn + list Video.Clip)
    (now : string -> string) (i : nat) (video_path : string) (rest : list string)
    (run : Processor.BatchRun) (outcome : exn + list Video.Clip) :
  Processor.process_single_video None (now video_path) i video_path outcome
  = (None, inl (FileNotFoundError "processing_log.csv"))
  /\ Processor.run_tasks pipeline now i (video_path :: rest) None run
     = (None, inl (FileNotFoundError "processing_log.csv")).
Proof.
  split.
  - unfold Processor.process_single_video, Processor.on_error. by destruct outcome.
  - simpl. unfold Processor.process_single_video, Processor.on_error.
    by destruct (pipeline video_path).
Qed.

(** ** From a change in the picture to a segment *)

Section ChangeToSegment.

Import Motion Analysis.




End ChangeToSegment.



(** ** A stride of zero *)

Section Stride.




End Stride.

(** A nominal stride of zero: with adaptive skip off, or at a frame rate of
    15 fps or more, the stride that the loop uses is zero and
    [process_video] raises on an opened file, at the modulus of line 108,
    before any call of the callback and any write; under 15 fps with
    adaptive skip the stride is one and every frame is analysed.  (A product
    with zero is exact in binary64, so that these strides are those of the
    sources.) *)
Theorem zero_stride_raises (adaptive_skip : bool) (fps : Q) :
  (adaptive_skip = false \/ (15 <= fps)%Q ->
   forall total frames video_name output_dir buffer_seconds has_callback cut,
     Video.process_video (Some (Video.mkCapture fps total frames)) video_name output_dir
       (Video.mkConfig buffer_seconds 0 adaptive_skip) has_callback cut
     = ([], inl (ZeroDivisionError "integer modulo by zero")))
  /\ (adaptive_skip = true -> (fps < 15)%Q ->
      Video.adaptive_skip_frames adaptive_skip fps 0 = 1
      /\ forall idx, Video.analysed (Video.adaptive_skip_frames adaptive_skip fps 0) idx = true).
Proof.
  assert (Hzero : forall x : Q, Py.int (inject_Z 0 * x) = 0).
  { intros [a b]. unfold Py.int. simpl. apply Z.quot_0_l. lia. }
  split.
  - intros Hcase total frames video_name output_dir buffer_seconds has_callback cut.
    unfold Video.process_video. simpl.
    assert (Hs : Video.adaptive_skip_frames adaptive_skip fps 0 = 0).
    { unfold Video.adaptive_skip_frames. destruct adaptive_skip; [|done].
      destruct Hcase as [Hoff|H15]; [done|].
      assert (H : Py.Qltb fps 15 = false) by by apply Qltb_ge.
      rewrite H. destruct (Py.Qltb 30 fps); [apply Hzero|done]. }
    by rewrite Hs.
  - intros -> H15.
    assert (Hs : Video.adaptive_skip_frames true fps 0 = 1).
    { unfold Video.adaptive_skip_frames.
      assert (H30 : Py.Qltb 30 fps = false) by (apply Qltb_ge; lra).
      apply Qltb_lt in H15. rewrite H30, H15, Hzero. reflexivity. }
    split; [exact Hs|]. intros idx. rewrite Hs. unfold Video.analysed.
    rewrite Z.mod_1_r. reflexivity.
Qed.

(** ** Clips stay within the video *)

Section Within.

Import Video Closed.

Variables skip B : Z.
Hypothesis B_nonneg : 0 <= B.







End Within.

Section ClipTimes.

Import Video.

Variable cut : string -> Q -> Q -> bool.
Variables video_name output_dir : string.
Variable fps : Q.


Lemma extract_from_zero_fps i0 merged :
  Qeq_bool fps 0 = true ->
  extract_from cut video_name output_dir fps i0 merged = ([], []).
Proof.
  intros Hz. revert i0. induction merged as [|seg rest IH]; intros i0; simpl; [done|].
  rewrite IH. unfold extract_segment. by rewrite Hz.
Qed.

End ClipTimes.



(** A video whose frame rate reads as zero yields nothing, whatever its
    frames show: every segment fails on the division of line 282, inside
    the [try], so that no clip is written and the empty list is returned as
    for a video without activity. *)
Theorem zero_fps_yields_nothing (v : Video.Capture) (video_name output_dir : string)
    (config : Video.Config) (has_callback : bool) (cut : string -> Q -> Q -> bool)
    (tr : list Video.Event) (res : exn + list Video.Clip) :
  (Video.fps v == 0)%Q ->
  Video.process_video (Some v) video_name output_dir config has_callback cut = (tr, res) ->
  Forall (fun e => Trace.is_write e = false) tr
  /\ (forall clips, res = inr clips -> clips = [])
  /\ (Video.adaptive_skip config = true -> Video.total_frames v <> 0 ->
      res = inr []).
Proof.
  intros Hfps Hrun. apply Qeq_bool_iff in Hfps.
  unfold Video.process_video in Hrun.
  assert (Hskip : Video.adaptive_skip config = true ->
            (Video.adaptive_skip_frames (Video.adaptive_skip config) (Video.fps v)
              (Video.skip_frames config) =? 0) = false).
  { intros ->. unfold Video.adaptive_skip_frames.
    apply Qeq_bool_iff in Hfps.
    assert (H30 : Py.Qltb 30 (Video.fps v) = false) by (apply Qltb_ge; lra).
    assert (H15 : Py.Qltb (Video.fps v) 15 = true) by (apply Qltb_lt; lra).
    rewrite H30, H15. apply Z.eqb_neq. lia. }
  destruct (_ =? 0) eqn:Hs.
  { injection Hrun as <- <-. split; [constructor|]. split; [done|].
    intros Ha. specialize (Hskip Ha). done. }
  destruct (negb _ && _) eqn:Ht.
  { injection Hrun as <- <-. split; [constructor|]. split; [done|].
    intros _ Hne. apply andb_true_iff in Ht as [_ Ht]. apply Z.eqb_eq in Ht. done. }
  rewrite (extract_from_zero_fps _ _ _ _ _ _ Hfps) in Hrun.
  destruct (loop_frames_trace has_callback
              (Video.adaptive_skip_frames (Video.adaptive_skip config) (Video.fps v)
                 (Video.skip_frames config))
              (Video.buffer_frames (Video.buffer_seconds config) (Video.fps v))
              (Video.total_frames v) 0 (Video.frames v) (Video.mkLoop Video.idle 0 []))
    as (progress & Htr & Hp & _).
  rewrite Htr in Hrun. simpl in Hrun. injection Hrun as <- <-.
  split; [|split; [by intros clips [= <-]|done]].
  apply Forall_app. split.
  - eapply Forall_impl; [exact Hp|]. intros e He. by destruct e.
  - destruct has_callback; by repeat constructor.
Qed.

Lemma zero_fps_yields_nothing_witness :
  Forall (fun e => Trace.is_write e = false)
    (fst (Video.process_video
            (Some (Video.mkCapture 0 4 [Stream.moving; Stream.moving; Stream.moving; Stream.moving]))
            "cam" "out" (Video.mkConfig 5 10 true) true (fun _ _ _ => true))).
Proof.
  exact (proj1 (zero_fps_yields_nothing
           (Video.mkCapture 0 4 [Stream.moving; Stream.moving; Stream.moving; Stream.moving])
           "cam" "out" (Video.mkConfig 5 10 true) true (fun _ _ _ => true)
           (fst (Video.process_video
                   (Some (Video.mkCapture 0 4
                            [Stream.moving; Stream.moving; Stream.moving; Stream.moving]))
                   "cam" "out" (Video.mkConfig 5 10 true) true (fun _ _ _ => true)))
           (snd (Video.process_video
                   (Some (Video.mkCapture 0 4
                            [Stream.moving; Stream.moving; Stream.moving; Stream.moving]))
                   "cam" "out" (Video.mkConfig 5 10 true) true (fun _ _ _ => true)))
           ltac:(reflexivity) ltac:(vm_compute; reflexivity))).
Defined.

(** ** The worker pool *)

(** The pool size that [process_subfolder] works out for itself is accepted
    by the executor on every machine: from 2 to 6 workers with CUDA and from
    1 to 4 without, also when one processor is reported, and never fewer on
    a machine with more processors.  A size of zero or less given by the
    caller is refused by the executor. *)
Theorem auto_pool_size_accepted (cuda_available : bool) (cpu_count : Z) :
  Workers.executor (Workers.max_workers None cuda_available cpu_count)
  = inr (Workers.max_workers None cuda_available cpu_count)
  /\ (if cuda_available then 2 else 1) <= Workers.max_workers None cuda_available cpu_count
     <= (if cuda_available then 6 else 4)
  /\ (forall more, cpu_count <= more ->
        Workers.max_workers None cuda_available cpu_count
        <= Workers.max_workers None cuda_available more)
  /\ (forall w, w <= 0 ->
        exists e, Workers.executor (Workers.max_workers (Some w) cuda_available cpu_count)
                  = inl e).
Proof.
  unfold Workers.executor, Workers.max_workers.
  split; [|split; [|split]].
  - destruct cuda_available.
    + destruct (_ <=? 0) eqn:H; [apply Z.leb_le in H; lia|done].
    + destruct (_ <=? 0) eqn:H; [apply Z.leb_le in H; lia|done].
  - destruct cuda_available; lia.
  - intros more Hmore.
    assert (cpu_count / 2 <= more / 2) by (apply Z.div_le_mono; lia).
    destruct cuda_available; lia.
  - intros w Hw. apply Z.leb_le in Hw. rewrite Hw. by eexists.
Qed.

(** ** The progress that is reported *)

Section Percent.

Import Video Trace.

Variable total : Z.
Hypothesis total_pos : 0 < total.









End Percent.



(** ** Clips do not overwrite one another *)

Section ClipNamesDistinct.

Import Video Paths.

Lemma app_cancel_l (a x y : string) : (a +:+ x = a +:+ y)%string -> x = y.
Proof.
  induction a as [|c a IH]; [done|]. rewrite !app_cons. intros [= H]. by apply IH.
Qed.

Lemma take_digits_uint d r :
  take_digits (NilEmpty.string_of_uint d +:+ String "_" r) = NilEmpty.string_of_uint d.
Proof.
  induction d; simpl NilEmpty.string_of_uint; [done|..];
    rewrite app_cons; simpl; by rewrite IHd.
Qed.

Lemma take_digits_zeros k s :
  take_digits (Py.zeros k +:+ s) = (Py.zeros k +:+ take_digits s)%string.
Proof.
  induction k as [|k IH]; [done|]. simpl Py.zeros. rewrite !app_cons. simpl. by rewrite IH.
Qed.

Lemma str_Z_uint n : 0 <= n -> exists d, Py.str_Z n = NilEmpty.string_of_uint d /\ Z.of_uint d = n.
Proof.
  intros Hn. unfold Py.str_Z. destruct n as [|p|p]; [| |lia].
  - by exists (Decimal.D0 Decimal.Nil).
  - exists (Pos.to_uint p). split; [done|].
    unfold Z.of_uint. by rewrite DecimalPos.Unsigned.of_to.
Qed.

Lemma take_digits_zfill w n r :
  0 <= n -> take_digits (Py.zfill w n +:+ String "_" r) = Py.zfill w n.
Proof.
  intros Hn. unfold Py.zfill. destruct (str_Z_uint n Hn) as (d & -> & _).
  by rewrite append_assoc, take_digits_zeros, take_digits_uint.
Qed.

Lemma parse_zeros k s : parse_Z (Py.zeros k +:+ s) = parse_Z s.
Proof.
  induction k as [|k IH]; [done|]. simpl Py.zeros. rewrite app_cons.
  unfold parse_Z in *. simpl. destruct (NilEmpty.uint_of_string (Py.zeros k +:+ s)) as [d|];
    destruct (NilEmpty.uint_of_string s) as [d'|]; simpl in *; try done.
Qed.

(** The ordinal can be read back from its padded form. *)
Lemma parse_zfill w n : 0 <= n -> parse_Z (Py.zfill w n) = Some n.
Proof.
  intros Hn. unfold Py.zfill. rewrite parse_zeros.
  destruct (str_Z_uint n Hn) as (d & -> & Hd).
  unfold parse_Z. rewrite NilEmpty.usu. simpl. by rewrite Hd.
Qed.

Lemma clip_file_name_shape video_name i fps seg :
  exists r,
    clip_file_name video_name i fps seg
    = (video_name +:+ "_seg" +:+ Py.zfill 3 (Z.of_nat i + 1) +:+ String "_" r)%string.
Proof.
  unfold clip_file_name, segment_name. eexists.
  rewrite !append_assoc. reflexivity.
Qed.

Lemma clip_file_name_ordinal video_name i j fps seg seg' :
  clip_file_name video_name i fps seg = clip_file_name video_name j fps seg' -> i = j.
Proof.
  destruct (clip_file_name_shape video_name i fps seg) as (r & ->).
  destruct (clip_file_name_shape video_name j fps seg') as (r' & ->).
  intros H. apply app_cancel_l in H.
  apply (app_cancel_l "_seg") in H.
  apply (f_equal take_digits) in H. rewrite !take_digits_zfill in H by lia.
  apply (f_equal parse_Z) in H. rewrite !parse_zfill in H by lia.
  injection H as H. lia.
Qed.

Lemma path_join_cancel dir a b : Py.path_join dir a = Py.path_join dir b -> a = b.
Proof.
  unfold Py.path_join. destruct dir as [|c dir]; [done|].
  destruct (Py.ends_with_slash (String c dir)).
  - apply app_cancel_l.
  - intros H. apply app_cancel_l in H. by apply (app_cancel_l "/") in H.
Qed.

Variable cut : string -> Q -> Q -> bool.
Variables video_name output_dir : string.
Variable fps : Q.

Lemma extract_from_distinct i0 merged :
  NoDup (map filename (snd (extract_from cut video_name output_dir fps i0 merged))).
Proof.
  revert i0. induction merged as [|seg rest IH]; intros i0; simpl; [constructor|].
  specialize (IH (S i0)).
  pose proof (extract_from_clips cut video_name output_dir fps (S i0) rest) as Hrest.
  destruct (extract_from cut video_name output_dir fps (S i0) rest) as [evs cs].
  simpl in IH, Hrest.
  destruct (extract_segment cut video_name output_dir fps i0 seg) as [ev c] eqn:Hseg.
  simpl. destruct c as [c|]; [|done].
  simpl. apply NoDup_cons. split; [|done].
  intros Hin. apply list_elem_of_In, in_map_iff in Hin as (c' & Hname & Hc').
  apply list_elem_of_In in Hc'.
  destruct (Hrest c' Hc') as (k & seg' & _ & Hf & _).
  assert (Hc : filename c = Py.path_join output_dir (clip_file_name video_name i0 fps seg)).
  { unfold extract_segment in Hseg.
    destruct (Qeq_bool fps 0); [done|]. destruct (Py.Qltb _ 1); [done|].
    destruct (cut _ _ _); [|done]. by injection Hseg as _ <-. }
  rewrite Hf, Hc in Hname. apply path_join_cancel, clip_file_name_ordinal in Hname. lia.
Qed.

End ClipNamesDistinct.

(** The clips of one video never overwrite one another: the files of the
    clips that [process_video] returns are pairwise distinct, whatever the
    name of the video and the output directory, because the ordinal of the
    segment can be read back from the name of its clip. *)
Theorem clip_files_distinct (v : Video.Capture) (video_name output_dir : string)
    (config : Video.Config) (has_callback : bool) (cut : string -> Q -> Q -> bool)
    (tr : list Video.Event) (clips : list Video.Clip) :
  Video.process_video (Some v) video_name output_dir config has_callback cut = (tr, inr clips) ->
  NoDup (map Video.filename clips)
  /\ (forall i j seg seg',
        Video.clip_file_name video_name i (Video.fps v) seg
        = Video.clip_file_name video_name j (Video.fps v) seg' -> i = j)
  /\ (forall w n, 0 <= n -> Paths.parse_Z (Py.zfill w n) = Some n).
Proof.
  intros Hrun. split; [|split].
  - rewrite (process_video_clips _ _ _ _ _ _ _ _ Hrun). apply extract_from_distinct.
  - intros i j seg seg'. apply clip_file_name_ordinal.
  - apply parse_zfill.
Qed.

Lemma clip_files_distinct_witness :
  NoDup (map Video.filename [Video.mkClip "out/cam_seg001_00000_00002_mot.mp4" 0 2 2 0 1]).
Proof.
  exact (proj1 (clip_files_distinct
           (Video.mkCapture 1 4 [Stream.moving; Stream.quiet; Stream.moving; Stream.quiet])
           "cam" "out" (Video.mkConfig 0 2 false) true (fun _ _ _ => true)
           [Video.Progress 0 4 0 0; Video.Progress 2 4 0 0;
            Video.WriteVideofile "out/cam_seg001_00000_00002_mot.mp4" 0 2 true;
            Video.ProgressDone 0 1]
           [Video.mkClip "out/cam_seg001_00000_00002_mot.mp4" 0 2 2 0 1]
           ltac:(vm_compute; reflexivity))).
Defined.

(** ** Segments begin and end on activity *)

Section FromActivity.

Import Video Closed.

Variables skip B total : Z.
Variable act : Z -> Prop.

Lemma track_from_activity idx m o t :
  (m || o = true -> act idx) ->
  (Forall (from_activity act B total) (segments t)
   /\ forall seg, current_segment t = Some seg ->
        (exists a, act a /\ start seg = Z.max 0 (a - B)) /\ act (end_ seg)) ->
  Forall (from_activity act B total) (segments (track B idx m o t))
  /\ forall seg, current_segment (track B idx m o t) = Some seg ->
       (exists a, act a /\ start seg = Z.max 0 (a - B)) /\ act (end_ seg).
Proof.
  intros Hact [Hall Hcur]. unfold track. destruct (m || o).
  - specialize (Hact eq_refl).
    destruct (current_segment t) as [seg|] eqn:Hc; simpl.
    + split; [done|]. intros seg' [= <-]. simpl.
      destruct (Hcur seg eq_refl) as [Hs _]. done.
    + split; [done|]. intros seg' [= <-]. simpl. split; [by exists idx|done].
  - destruct (current_segment t) as [seg|] eqn:Hc; [|by rewrite Hc].
    destruct (idx - end_ seg >? B); [|by rewrite Hc]. simpl. split; [|done].
    apply Forall_app. split; [done|]. constructor; [|constructor].
    destruct (Hcur seg eq_refl) as [Hs He]. split; simpl; [done|].
    exists (end_ seg). split; [done|by left].
Qed.

Lemma track_frames_from_activity idx fs t :
  (forall i f, fs !! i = Some f ->
     analysed skip (idx + Z.of_nat i) = true ->
     (motion_detected f || objects_detected skip (idx + Z.of_nat i) f) = true ->
     act (idx + Z.of_nat i)) ->
  (Forall (from_activity act B total) (segments t)
   /\ forall seg, current_segment t = Some seg ->
        (exists a, act a /\ start seg = Z.max 0 (a - B)) /\ act (end_ seg)) ->
  Forall (from_activity act B total) (segments (track_frames skip B idx fs t))
  /\ forall seg, current_segment (track_frames skip B idx fs t) = Some seg ->
       (exists a, act a /\ start seg = Z.max 0 (a - B)) /\ act (end_ seg).
Proof.
  revert idx t. induction fs as [|f fs IH]; intros idx t Hact Hinv; simpl; [done|].
  apply IH.
  - intros i g Hg. specialize (Hact (S i) g Hg).
    by replace (idx + 1 + Z.of_nat i) with (idx + Z.of_nat (S i)) by lia.
  - unfold track_frame. destruct (analysed skip idx) eqn:Han; [|done].
    apply track_from_activity; [|done]. intros Hm.
    specialize (Hact 0%nat f eq_refl). rewrite Z.add_0_r in Hact. by apply Hact.
Qed.

Lemma close_final_from_activity t :
  (Forall (from_activity act B total) (segments t)
   /\ forall seg, current_segment t = Some seg ->
        (exists a, act a /\ start seg = Z.max 0 (a - B)) /\ act (end_ seg)) ->
  Forall (from_activity act B total) (segments (close_final B total t)).
Proof.
  intros [Hall Hcur]. unfold close_final.
  destruct (current_segment t) as [seg|] eqn:Hc; [|done]. simpl.
  apply Forall_app. split; [done|]. constructor; [|constructor].
  destruct (Hcur seg eq_refl) as [Hs He]. split; simpl; [done|].
  exists (end_ seg). split; [done|by right].
Qed.

Lemma coalesce_from_activity x rest :
  from_activity act B total x -> Forall (from_activity act B total) rest ->
  Forall (from_activity act B total) (Segments.coalesce x rest).
Proof.
  intros Hx Hr. revert x Hx. induction Hr as [|s rest Hs Hr IH]; intros x Hx; simpl.
  - by constructor.
  - destruct (start s <=? end_ x).
    + apply IH. destruct Hx as [Hxs Hxe], Hs as [_ Hse]. split; simpl; [done|].
      destruct (Z.max_spec (end_ x) (end_ s)) as [[_ ->]|[_ ->]]; done.
    + constructor; [done|]. by apply IH.
Qed.

End FromActivity.

(** Segments begin and end on activity, for every stride, buffer and frame
    count: each merged segment begins the buffer before an analysed frame
    that shows motion or an object (or on frame zero, when that comes
    first), and ends the buffer after such a frame, or where the end of the
    stream cuts it at the last frame of the count. *)
Theorem segments_begin_and_end_on_activity (skip B total : Z) (fs : list Video.Frame)
    (seg : Video.Segment) :
  seg ∈ Video.merged_segments skip B total fs ->
  (exists a, Closed.active_at skip fs a /\ Video.start seg = Z.max 0 (a - B))
  /\ (exists a, Closed.active_at skip fs a
                /\ (Video.end_ seg = a + B \/ Video.end_ seg = Z.min (a + B) (total - 1))).
Proof.
  intros Hseg.
  assert (Hclosed : Forall (Closed.from_activity (Closed.active_at skip fs) B total)
                      (Video.closed_segments skip B total fs)).
  { unfold Video.closed_segments. apply close_final_from_activity.
    apply track_frames_from_activity.
    - intros i f Hf Han Hact. rewrite Z.add_0_l in *. by exists i, f.
    - split; [constructor|]. by intros s. }
  assert (Hmerged : Forall (Closed.from_activity (Closed.active_at skip fs) B total)
                      (Video.merged_segments skip B total fs)).
  { unfold Video.merged_segments. rewrite merge_segments_coalesce.
    pose proof (sort_Forall _ _ Hclosed) as Hs.
    destruct (Video.sort_by_start _) as [|x rest]; [constructor|].
    apply Forall_cons in Hs as [Hx Hrest]. by apply coalesce_from_activity. }
  rewrite Forall_forall in Hmerged. exact (Hmerged seg Hseg).
Qed.

Lemma segments_begin_and_end_on_activity_witness :
  exists a,
    Closed.active_at 1 [Stream.quiet; Stream.quiet; Stream.quiet; Stream.moving; Stream.quiet] a
    /\ Video.start (Video.mkSegment 1 4 true false) = Z.max 0 (a - 2).
Proof.
  exact (proj1 (segments_begin_and_end_on_activity 1 2 5
           [Stream.quiet; Stream.quiet; Stream.quiet; Stream.moving; Stream.quiet]
           (Video.mkSegment 1 4 true false) ltac:(vm_compute; apply list_elem_of_here))).
Defined.
